(** * pino-elasticsearch-logging: the line normalizer, the index name resolver,
      the bulk handler's per-document callback and the deep merge

    A shallow embedding of [lib.js] and of its successor (the variant with
    [mergeDeep] and the [message] field; called "the cli variant" below),
    followed by the properties the specification states about them.

    Modelling choices, all visible in the definitions below:
    - a JavaScript number is an IEEE-754 double, here a primitive [float];
    - a string is a [string]; one character stands for one code unit, so the
      model covers lines whose code units are below 256;
    - an object is the list of its own enumerable properties in enumeration
      order (new keys are appended; the engine's rule that moves array-index
      keys of a plain object to the front is not modelled, nothing below
      depends on the order); an array carries its elements and, besides, the
      named properties the normalizer writes on it;
    - the prototype chain is modelled where the source goes through it: the
      call [value.hasOwnProperty(..)], the read [time.substring], and the
      reads and writes of [mergeDeep] on its accumulator, a fresh [{}] on
      which the key [__proto__] is the accessor of [Object.prototype], so
      that a merged object can get another prototype ([VProto]);
    - the call stack is not bounded, except in [mergeDeep_fuel], which is
      [mergeDeep] on a stack with room for a given number of nested calls;
    - [JSON.parse] and the part of [Date.parse] that engines are free to
      choose are fields of the class [Runtime]; the current time is an
      argument of every function that reads the clock;
    - an exception is a [Throw] completion, an emitted event and a console
      write are recorded in the [run] record the line mapper returns. *)

From Stdlib Require Import ZArith List String Ascii Bool Floats Lia.
Import ListNotations.
Open Scope string_scope.
Open Scope list_scope.
Set Warnings "-register-all".

(** ** Values *)

Inductive value : Type :=
| VUndefined
| VNull
| VBool (b : bool)
| VNum (n : float)
| VStr (s : string)
| VArr (items : list value) (named : list (string * value))
| VObj (fields : list (string * value))
| VProto (proto : value) (fields : list (string * value)).

Definition props : Type := list (string * value).

Inductive js_type : Type :=
| TUndefined | TObject | TBoolean | TNumber | TString.

(** [typeof v] *)
Definition typeof (v : value) : js_type :=
  match v with
  | VUndefined => TUndefined
  | VNull => TObject
  | VBool _ => TBoolean
  | VNum _ => TNumber
  | VStr _ => TString
  | VArr _ _ => TObject
  | VObj _ => TObject
  | VProto _ _ => TObject
  end.

Definition is_object_type (v : value) : bool :=
  match typeof v with TObject => true | _ => false end.

(** ToBoolean of a number: false for [0], [-0] and [NaN]. *)
Definition number_truthy (n : float) : bool :=
  negb (PrimFloat.eqb n 0%float || negb (PrimFloat.eqb n n)).

(** ToBoolean *)
Definition truthy (v : value) : bool :=
  match v with
  | VUndefined => false
  | VNull => false
  | VBool b => b
  | VNum n => number_truthy n
  | VStr s => negb (s =? "")
  | VArr _ _ => true
  | VObj _ => true
  | VProto _ _ => true
  end.

(** [a || b] *)
Definition js_or (a b : value) : value := if truthy a then a else b.

(** ** Exceptions *)

Inductive error : Type := TypeError | RangeError.

Inductive completion (A : Type) : Type :=
| Normal (a : A)
| Throw (e : error).
Arguments Normal {A} a.
Arguments Throw {A} e.

Definition bind {A B : Type} (c : completion A) (k : A -> completion B) : completion B :=
  match c with
  | Normal a => k a
  | Throw e => Throw e
  end.

Declare Scope js_scope.
Delimit Scope js_scope with js.
Notation "x <- c ;; k" := (bind c (fun x => k))
  (at level 61, c at next level, right associativity) : js_scope.
Open Scope js_scope.

(** ** Own properties *)

Fixpoint lookup (k : string) (o : props) : option value :=
  match o with
  | [] => None
  | (k', v) :: o' => if k =? k' then Some v else lookup k o'
  end.

(** [o[k] = v] on a plain object: an existing key keeps its place. *)
Fixpoint set_prop (o : props) (k : string) (v : value) : props :=
  match o with
  | [] => [(k, v)]
  | (k', v') :: o' => if k =? k' then (k, v) :: o' else (k', v') :: set_prop o' k v
  end.

(** [delete o[k]] *)
Definition delete_prop (o : props) (k : string) : props :=
  filter (fun kv => negb (k =? fst kv)) o.

Definition digit_char (d : nat) : ascii := ascii_of_nat (48 + d).

(** The decimal numeral of a natural number, as an array index is written. *)
Fixpoint decimal_fuel (fuel n : nat) (acc : string) : string :=
  match fuel with
  | O => acc
  | S fuel' =>
      let acc' := String (digit_char (n mod 10)) acc in
      if (n <? 10)%nat then acc' else decimal_fuel fuel' (n / 10) acc'
  end.

Definition index_key (n : nat) : string := decimal_fuel (S n) n "".

Fixpoint indexed {A : Type} (wrap : A -> value) (i : nat) (l : list A) : props :=
  match l with
  | [] => []
  | x :: l' => (index_key i, wrap x) :: indexed wrap (S i) l'
  end.

Definition char_value (c : ascii) : value := VStr (String c "").

(** The own enumerable properties of a value that is neither [null] nor
    [undefined], in the order of [Object.keys]: the elements of an array
    under their indices and then its named properties, the code units of a
    string, nothing for a number or a boolean. *)
Definition own_entries (v : value) : props :=
  match v with
  | VObj o => o
  | VProto _ o => o
  | VArr items named => indexed (fun x => x) 0 items ++ named
  | VStr s => indexed char_value 0 (list_ascii_of_string s)
  | _ => []
  end.

(** [Object.keys(v)]: a TypeError on [null] and [undefined]; otherwise the
    keys of the own enumerable properties, each listed once. *)
Definition Object_keys (v : value) : completion (list string) :=
  match v with
  | VUndefined | VNull => Throw TypeError
  | _ => Normal (nodup string_dec (map fst (own_entries v)))
  end.

Definition has_key (v : value) (k : string) : bool :=
  match lookup k (own_entries v) with Some _ => true | None => false end.

(** [v[k]]: the own enumerable property, else the one found along the
    prototype chain, else [undefined].  The properties of the built-in
    prototypes are not listed: a method or [length] reads as [undefined]
    here, and the accessor [__proto__] is read by [accumulator_get], the
    one place where the source can reach it. *)
Fixpoint get (v : value) (k : string) : value :=
  match v with
  | VProto proto fields =>
      match lookup k fields with
      | Some x => x
      | None => get proto k
      end
  | _ =>
      match lookup k (own_entries v) with
      | Some x => x
      | None => VUndefined
      end
  end.

(** [k in v] as far as the listed properties go: an own property of [v] or
    of an object on its prototype chain. *)
Fixpoint in_chain (v : value) (k : string) : bool :=
  match v with
  | VProto proto fields =>
      match lookup k fields with
      | Some _ => true
      | None => in_chain proto k
      end
  | _ => has_key v k
  end.

(** Whether [v] has the prototype it was created with, as every decoded value
    has: only [mergeDeep] returns an object with another one. *)
Definition standard (v : value) : bool :=
  match v with
  | VProto _ _ => false
  | _ => true
  end.

(** Whether the prototype chain of [v] ends in [Object.prototype]: not so for
    an object whose chain was cut with a [null] prototype. *)
Fixpoint has_builtins (v : value) : bool :=
  match v with
  | VProto proto _ => has_builtins proto
  | VUndefined | VNull => false
  | _ => true
  end.

(** [v[k] = x] for the keys the source writes ([message], [@timestamp]):
    on an array they are named properties. *)
Definition set (v : value) (k : string) (x : value) : value :=
  match v with
  | VObj o => VObj (set_prop o k x)
  | VProto proto o => VProto proto (set_prop o k x)
  | VArr items named => VArr items (set_prop named k x)
  | _ => v
  end.

(** [delete v[k]] for the keys the source deletes ([msg], [time]). *)
Definition delete (v : value) (k : string) : value :=
  match v with
  | VObj o => VObj (delete_prop o k)
  | VProto proto o => VProto proto (delete_prop o k)
  | VArr items named => VArr items (delete_prop named k)
  | _ => v
  end.

(** The built-in [Object.prototype.hasOwnProperty]: besides the enumerable
    properties, an array and a string own [length]. *)
Definition hasOwnProperty (v : value) (k : string) : bool :=
  has_key v k ||
  match v with
  | VArr _ _ | VStr _ => k =? "length"
  | _ => false
  end.

(** The call [v.hasOwnProperty(k)] as the source writes it: the method is
    looked up on [v] first, so a property of that name on [v] or on its
    chain (never a function in a decoded line) is what gets called, and
    nothing is there to call when the chain does not end in
    [Object.prototype]. *)
Definition call_hasOwnProperty (v : value) (k : string) : completion bool :=
  match v with
  | VUndefined | VNull => Throw TypeError
  | _ => if in_chain v "hasOwnProperty" then Throw TypeError
         else if has_builtins v then Normal (hasOwnProperty v k)
         else Throw TypeError
  end.

(** ** Dates *)

(** What the engine supplies: [JSON.parse] ([None] when it throws its
    SyntaxError) and [Date.parse] on a string ([None] for [NaN]; the time
    value in milliseconds since the epoch otherwise). *)
Class Runtime : Type := {
  JSON_parse : string -> option value;
  Date_parse : string -> option Z
}.

Definition maxTime : Z := 8640000000000000.

(** TimeClip(ToNumber n): [NaN] unless [n] is finite and within 8.64e15 of
    zero, and then [n] without its fraction.  (Doubles of that magnitude or
    more are integers, so the bound is tested after the truncation.) *)
Definition TimeClip (n : float) : option Z :=
  match Prim2SF n with
  | S754_zero _ => Some 0%Z
  | S754_infinity _ => None
  | S754_nan => None
  | S754_finite s m e =>
      let mag := if (0 <=? e)%Z then (Z.pos m * 2 ^ e)%Z else (Z.pos m / 2 ^ (- e))%Z in
      if (mag <=? maxTime)%Z then Some (if s then (- mag)%Z else mag) else None
  end.

Definition msPerDay : Z := 86400000.

(** Year, month and day of a day number counted from 1970-01-01, in the
    proleptic Gregorian calendar. *)
Definition civil_from_days (day : Z) : Z * Z * Z :=
  let z := (day + 719468)%Z in
  let era := (z / 146097)%Z in
  let doe := (z - era * 146097)%Z in
  let yoe := ((doe - doe / 1460 + doe / 36524 - doe / 146096) / 365)%Z in
  let doy := (doe - (365 * yoe + yoe / 4 - yoe / 100))%Z in
  let mp := ((5 * doy + 2) / 153)%Z in
  let d := (doy - (153 * mp + 2) / 5 + 1)%Z in
  let m := if (mp <? 10)%Z then (mp + 3)%Z else (mp - 9)%Z in
  let y := (yoe + era * 400 + (if (m <=? 2)%Z then 1 else 0))%Z in
  (y, m, d).

Definition days_from_civil (y m d : Z) : Z :=
  let y' := if (m <=? 2)%Z then (y - 1)%Z else y in
  let era := (y' / 400)%Z in
  let yoe := (y' - era * 400)%Z in
  let mp := if (2 <? m)%Z then (m - 3)%Z else (m + 9)%Z in
  let doy := ((153 * mp + 2) / 5 + d - 1)%Z in
  let doe := (yoe * 365 + yoe / 4 - yoe / 100 + doy)%Z in
  (era * 146097 + doe - 719468)%Z.

(** The last [width] decimal digits of [z]. *)
Fixpoint pad (width : nat) (z : Z) : string :=
  match width with
  | O => ""
  | S w => pad w (z / 10) ++ String (digit_char (Z.to_nat (z mod 10))) ""
  end.

Definition iso_year (y : Z) : string :=
  if ((0 <=? y) && (y <=? 9999))%Z then pad 4 y
  else (if (y <? 0)%Z then "-" else "+") ++ pad 6 (Z.abs y).

(** The text [Date.prototype.toISOString] gives for a valid time value. *)
Definition iso_string (t : Z) : string :=
  let '(y, m, d) := civil_from_days (t / msPerDay) in
  let ms := (t mod msPerDay)%Z in
  iso_year y ++ "-" ++ pad 2 m ++ "-" ++ pad 2 d ++ "T" ++
  pad 2 (ms / 3600000) ++ ":" ++ pad 2 (ms / 60000 mod 60) ++ ":" ++
  pad 2 (ms / 1000 mod 60) ++ "." ++ pad 3 (ms mod 1000) ++ "Z".

(** [d.toISOString()]: a RangeError on an invalid date. *)
Definition toISOString (d : option Z) : completion string :=
  match d with
  | Some t => Normal (iso_string t)
  | None => Throw RangeError
  end.

Section Timestamp.
Context {rt : Runtime}.

(** [new Date(v)] for the two kinds of argument the source passes: a string
    goes to [Date.parse], a number is clipped.  ([null] and booleans convert
    to a number first; [undefined] gives an invalid date; an object, which the
    source never passes, is rendered as an invalid date.) *)
Definition new_Date (v : value) : option Z :=
  match v with
  | VStr s => Date_parse s
  | VNum n => TimeClip n
  | VNull => Some 0%Z
  | VBool b => Some (if b then 1%Z else 0%Z)
  | _ => None
  end.

(** The guard of [setDateTimeString]:
    [(typeof time === 'string' && time.length) ||
     (typeof time === 'number' && time >= 0)]. *)
Definition time_usable (time : value) : bool :=
  match time with
  | VStr s => negb (String.length s =? 0)%nat
  | VNum n => PrimFloat.leb 0%float n
  | _ => false
  end.

(** [setDateTimeString(value)], with the clock reading [now] that
    [new Date()] would take. *)
Definition setDateTimeString (now : Z) (value : value) : completion string :=
  has_time <- (if is_object_type value then call_hasOwnProperty value "time"
               else Normal false) ;;
  if has_time then
    if time_usable (get value "time")
    then toISOString (new_Date (get value "time"))
    else toISOString (Some now)
  else toISOString (Some now).

End Timestamp.

(** ** String.prototype.replace with a string pattern *)

Fixpoint drop_chars (n : nat) (s : string) : string :=
  match n, s with
  | O, _ => s
  | S n', String _ s' => drop_chars n' s'
  | S _, EmptyString => EmptyString
  end.

(** The text before and the text after the first occurrence of [pat]. *)
Fixpoint find_first (pat s : string) : option (string * string) :=
  if prefix pat s then Some ("", drop_chars (String.length pat) s)
  else match s with
       | EmptyString => None
       | String c s' =>
           match find_first pat s' with
           | Some (before, after) => Some (String c before, after)
           | None => None
           end
       end.

(** GetSubstitution for a match without capture groups: in the replacement
    text, [$$] is a dollar, [$&] the matched text, [$`] the text before the
    match and [$'] the text after it; any other dollar stands for itself. *)
Fixpoint GetSubstitution (matched before after template : string) : string :=
  match template with
  | EmptyString => EmptyString
  | String c rest =>
      if Ascii.eqb c "$" then
        match rest with
        | String d rest' =>
            if Ascii.eqb d "$" then String "$" (GetSubstitution matched before after rest')
            else if Ascii.eqb d "&" then matched ++ GetSubstitution matched before after rest'
            else if Ascii.eqb d "`" then before ++ GetSubstitution matched before after rest'
            else if Ascii.eqb d "'" then after ++ GetSubstitution matched before after rest'
            else String c (GetSubstitution matched before after rest)
        | EmptyString => String c EmptyString
        end
      else String c (GetSubstitution matched before after rest)
  end.

(** [s.replace(pat, replacement)]: only the first occurrence is replaced. *)
Definition String_replace (s pat replacement : string) : string :=
  match find_first pat s with
  | Some (before, after) => before ++ GetSubstitution pat before after replacement ++ after
  | None => s
  end.

(** ** Options *)

(** [opts.index]: absent, a template, or a naming function. *)
Inductive index_option : Type :=
| IndexUnset
| IndexTemplate (template : string)
| IndexFunction (f : value -> value).

(** The fields of [opts] the modelled code reads.  [es_version] and [op_type]
    are the alternative spellings ['es-version'] and [op_type]; a missing
    field is [VUndefined] or [None]; a class is known by its name only. *)
Record options : Type := {
  node : value;
  auth : value;
  index : index_option;
  esVersion : option float;
  es_version : option float;
  opType : value;
  op_type : value;
  additionalObject : value;
  rejectUnauthorized : value;
  caFingerprint : value;
  Connection : option string;
  ConnectionPool : option string
}.

(** ** initializeBulkHandler: the index name and the per-document callback *)

(** [Number(opts.esVersion || opts['es-version']) || 7] *)
Definition esVersion_of (opts : options) : float :=
  let chosen :=
    match esVersion opts with
    | Some n => if number_truthy n then Some n else es_version opts
    | None => es_version opts
    end in
  match chosen with
  | Some n => if number_truthy n then n else 7%float
  | None => 7%float
  end.

(** [esVersion >= 7 ? (opts.opType || opts.op_type) : undefined] *)
Definition opType_of (opts : options) : value :=
  if PrimFloat.leb 7%float (esVersion_of opts)
  then js_or (opType opts) (op_type opts)
  else VUndefined.

(** [opts.index || 'pino'], and whether it is a function. *)
Definition index_of (opts : options) : string + (value -> value) :=
  match index opts with
  | IndexUnset => inl "pino"
  | IndexTemplate t => if t =? "" then inl "pino" else inl t
  | IndexFunction f => inr f
  end.

(** [time.substring ? time.substring(0, 10) : ""]: a string has the method;
    a number or a boolean has no such property; on an object or an array the
    property is one of its own or of its chain if any, and calling it fails
    since no decoded value is a function; reading a property of [null]
    fails. *)
Definition date_part (time : value) : completion string :=
  match time with
  | VStr s => Normal (substring 0 10 s)
  | VNum _ | VBool _ => Normal ""
  | VArr _ _ | VObj _ | VProto _ _ =>
      if truthy (get time "substring") then Throw TypeError else Normal ""
  | VNull | VUndefined => Throw TypeError
  end.

(** [getIndexName(time)]; an [undefined] argument takes the default
    [new Date().toISOString()]. *)
Definition getIndexName (opts : options) (now : Z) (time : value) : completion value :=
  let time := match time with VUndefined => VStr (iso_string now) | _ => time end in
  match index_of opts with
  | inr buildIndexName => Normal (buildIndexName time)
  | inl template =>
      d <- date_part time ;;
      Normal (VStr (String_replace template "%{DATE}" d))
  end.

(** The action [{ create: { _index: .. } }]. *)
Record action : Type := { create_index : value }.

(** [doc[k] = x] in strict mode: a TypeError on a primitive, as on [null]
    and [undefined]. *)
Definition assign (doc : value) (k : string) (x : value) : completion value :=
  match doc with
  | VArr _ _ | VObj _ | VProto _ _ => Normal (set doc k x)
  | _ => Throw TypeError
  end.

(** [onDocument(doc)]: the document as the callback leaves it, and the
    action it returns.  Reading [doc.time] fails on [null] and [undefined];
    on a number, a string or a boolean the two reads give [undefined] and
    the write under ['create'] fails. *)
Definition onDocument (opts : options) (now : Z) (doc : value) : completion (value * action) :=
  match doc with
  | VUndefined | VNull => Throw TypeError
  | _ =>
      let date := js_or (get doc "time") (get doc "@timestamp") in
      doc' <- match opType_of opts with
              | VStr t => if t =? "create" then assign doc "@timestamp" date
                          else Normal doc
              | _ => Normal doc
              end ;;
      name <- getIndexName opts now date ;;
      Normal (doc', {| create_index := name |})
  end.

(** ** pinoElasticSearch: the client options *)

Record client_options : Type := {
  co_node : value;
  co_auth : value;
  co_tls_rejectUnauthorized : bool;
  co_caFingerprint : option value;
  co_Connection : option string;
  co_ConnectionPool : option string
}.

Definition clientOpts (opts : options) : client_options :=
  {| co_node := node opts;
     co_auth := auth opts;
     co_tls_rejectUnauthorized := false;
     co_caFingerprint :=
       if truthy (caFingerprint opts) then Some (caFingerprint opts) else None;
     co_Connection := Connection opts;
     co_ConnectionPool := ConnectionPool opts |}.

(** The entry point's [rejectUnauthorized] option:
    [process.env.LOG_ES_REJECT_UNAUTHORIZED === 'true' ? true : false]. *)
Definition rejectUnauthorized_of_env (LOG_ES_REJECT_UNAUTHORIZED : option string) : value :=
  match LOG_ES_REJECT_UNAUTHORIZED with
  | Some s => VBool (s =? "true")
  | None => VBool false
  end.

(** ** mergeDeep *)

(** [obj && typeof obj === "object"] *)
Definition isObject (obj : value) : bool := truthy obj && is_object_type obj.

Definition Array_isArray (v : value) : bool :=
  match v with
  | VArr _ _ => true
  | _ => false
  end.

Definition elements (v : value) : list value :=
  match v with
  | VArr items _ => items
  | _ => []
  end.

(** [pVal.concat(...oVal)]: every element of [oVal] is an argument of
    [concat], and [concat] appends the elements of an argument that is
    itself an array.  The result is a fresh array without named properties. *)
Definition concat_spread (pVal oVal : list value) : list value :=
  pVal ++ flat_map (fun e => match e with VArr items _ => items | _ => [e] end) oVal.

(** *** The accumulator of the reduce

    [prev] starts as a fresh [{}] and is the one object [mergeDeep] writes
    to.  A key of an argument may be [__proto__] (an own property of what
    [JSON.parse] returns), and on [prev] that name is the accessor of
    [Object.prototype]: reading it gives the prototype of [prev], writing an
    object or [null] to it replaces the prototype.  So the accumulator carries
    its prototype besides its own properties. *)
Record object : Type := {
  proto : option value;   (* [None]: [Object.prototype], as a fresh [{}] has *)
  own : props
}.

(** A fresh [{}] with the own properties [o]. *)
Definition plain (o : props) : object := {| proto := None; own := o |}.

(** The accumulator as a value. *)
Definition to_value (prev : object) : value :=
  match proto prev with
  | None => VObj (own prev)
  | Some p => VProto p (own prev)
  end.

(** [Object.prototype] as an argument of [mergeDeep]: an object without
    enumerable properties, whose prototype is [null]. *)
Definition Object_prototype : value := VProto VNull [].

(** Whether [key] on [prev] is the accessor [__proto__] of
    [Object.prototype]: no own property and no property on the chain has the
    name, and the chain ends in [Object.prototype]. *)
Definition is_accessor (prev : object) (key : string) : bool :=
  (key =? "__proto__") &&
  match lookup key (own prev) with
  | Some _ => false
  | None =>
      match proto prev with
      | None => true
      | Some p => negb (in_chain p key) && has_builtins p
      end
  end.

(** [prev[key]]: the getter of the accessor returns the prototype of
    [prev]; any other property is read along the chain. *)
Definition accumulator_get (prev : object) (key : string) : value :=
  if is_accessor prev key then
    match proto prev with
    | None => Object_prototype
    | Some p => p
    end
  else get (to_value prev) key.

(** [prev[key] = x]: the setter of the accessor replaces the prototype when
    [x] is an object or [null] and does nothing otherwise; any other key
    becomes, or stays, an own property of [prev]. *)
Definition accumulator_set (prev : object) (key : string) (x : value) : object :=
  if is_accessor prev key then
    if is_object_type x then {| proto := Some x; own := own prev |} else prev
  else {| proto := proto prev; own := set_prop (own prev) key x |}.

Section MergeBody.
(** The function the body calls for [mergeDeep(pVal, oVal)]; [None] when the
    recursion was cut. *)
Variable recur : list value -> option (completion value).

(** The body of the [forEach] callback, for one key of [obj]. *)
Definition merge_key (prev : object) (obj : value) (key : string)
  : option (completion object) :=
  let pVal := accumulator_get prev key in
  let oVal := get obj key in
  if Array_isArray pVal && Array_isArray oVal then
    Some (Normal (accumulator_set prev key
                    (VArr (concat_spread (elements pVal) (elements oVal)) [])))
  else if isObject pVal && isObject oVal then
    match recur [pVal; oVal] with
    | Some (Normal merged) => Some (Normal (accumulator_set prev key merged))
    | Some (Throw e) => Some (Throw e)
    | None => None
    end
  else Some (Normal (accumulator_set prev key oVal)).

(** [Object.keys(obj).forEach(..)] *)
Fixpoint forEach_key (prev : object) (obj : value) (keys : list string)
  : option (completion object) :=
  match keys with
  | [] => Some (Normal prev)
  | key :: keys' =>
      match merge_key prev obj key with
      | Some (Normal prev') => forEach_key prev' obj keys'
      | other => other
      end
  end.

(** [objects.reduce((prev, obj) => .., prev)] *)
Fixpoint reduce_objects (prev : object) (objects : list value)
  : option (completion object) :=
  match objects with
  | [] => Some (Normal prev)
  | obj :: rest =>
      match Object_keys obj with
      | Throw e => Some (Throw e)
      | Normal keys =>
          match forEach_key prev obj keys with
          | Some (Normal prev') => reduce_objects prev' rest
          | other => other
          end
      end
  end.

End MergeBody.

(** [mergeDeep(...objects)] on a call stack with room for [fuel] nested calls
    of [mergeDeep]: [None] when a call would nest deeper, which is where an
    engine throws its RangeError. *)
Fixpoint mergeDeep_fuel (fuel : nat) (objects : list value) : option (completion value) :=
  match fuel with
  | O => None
  | S fuel' =>
      match reduce_objects (mergeDeep_fuel fuel') (plain []) objects with
      | Some (Normal prev) => Some (Normal (to_value prev))
      | Some (Throw e) => Some (Throw e)
      | None => None
      end
  end.

(** The nesting depth of a value, the prototype of an object counted as one
    of its parts. *)
Fixpoint depth (v : value) : nat :=
  match v with
  | VArr items named =>
      S (Nat.max (list_max (map depth items))
                 (list_max (map (fun kv => match kv with (_, x) => depth x end) named)))
  | VObj fields =>
      S (list_max (map (fun kv => match kv with (_, x) => depth x end) fields))
  | VProto p fields =>
      S (Nat.max (depth p)
                 (list_max (map (fun kv => match kv with (_, x) => depth x end) fields)))
  | _ => 0
  end.

Definition snd_depth (kv : string * value) : nat :=
  match kv with (_, x) => depth x end.

(** Every value stored in [o] is nested less than [b] levels deep. *)
Definition below (b : nat) (o : props) : Prop :=
  Forall (fun kv => snd_depth kv < b) o.

(** [mergeDeep(...objects)] on an engine whose call stack does not run out.
    The call stack is not part of this model: the calls of [mergeDeep] nest
    no deeper than its arguments are nested ([mergeDeep_fuel_enough] below),
    so the fuel given here suffices and the last case is never taken; an
    engine, whose stack is bounded, throws a RangeError on arguments nested
    deep enough (some thousand levels), which [mergeDeep_fuel] with the
    engine's bound for fuel describes and this function does not. *)
Definition mergeDeep (objects : list value) : completion value :=
  match mergeDeep_fuel (S (list_max (map depth objects))) objects with
  | Some c => c
  | None => Throw RangeError
  end.

(** [{a: {a: .. {}}}], nested [n] levels deep. *)
Fixpoint nested (n : nat) : value :=
  match n with
  | O => VObj []
  | S n' => VObj [("a", nested n')]
  end.

(** What [mergeDeep] stores under a key that holds [pVal] so far and [oVal]
    in the object being merged: the three cases of the [forEach] body. *)
Definition merge_values (pVal oVal : value) : completion value :=
  if Array_isArray pVal && Array_isArray oVal then
    Normal (VArr (concat_spread (elements pVal) (elements oVal)) [])
  else if isObject pVal && isObject oVal then mergeDeep [pVal; oVal]
  else Normal oVal.

(** ** The line mapper given to [split] *)

(** [this.emit(name, line, reason)] *)
Record event : Type := { ev_name : string; ev_line : string; ev_reason : string }.

(** One call of the mapper: the events it emitted, the lines it wrote with
    [console.log], and how it ended.  [Normal None] is a plain [return]:
    nothing goes downstream; [Normal (Some doc)] hands [doc] downstream;
    [Throw e] is an exception leaving the mapper (what the stream around it
    does with the exception is not part of this model). *)
Record run : Type := {
  emitted : list event;
  console : list string;
  returned : completion (option value)
}.

Definition ignored (line reason : string) : run :=
  {| emitted := [ {| ev_name := "unknown"; ev_line := line; ev_reason := reason |} ];
     console := [];
     returned := Normal None |}.

(** A run that only hands [doc] downstream. *)
Definition forwarded (doc : value) : run :=
  {| emitted := []; console := []; returned := Normal (Some doc) |}.

(** A run that only writes [line] with [console.log]. *)
Definition logged (line : string) : run :=
  {| emitted := []; console := [line]; returned := Normal None |}.

Definition silent (r : completion value) : run :=
  {| emitted := []; console := [];
     returned := doc <- r ;; Normal (Some doc) |}.

(** [lib.js] *)
Module Lib.
Section Mapper.
Context {rt : Runtime}.

Definition mapper (opts : options) (now : Z) (line : string) : run :=
  match JSON_parse line with
  | None => {| emitted := []; console := [line]; returned := Normal None |}
  | Some value =>
      match value with
      | VBool _ => ignored line "Boolean value ignored"
      | VNull => ignored line "Null value ignored"
      | _ =>
          if negb (is_object_type value) then
            silent (ts <- setDateTimeString now value ;;
                    Normal (VObj [("data", value); ("@timestamp", VStr ts)]))
          else
            match get value "@timestamp" with
            | VUndefined =>
                silent (ts <- setDateTimeString now value ;;
                        Normal (set value "@timestamp" (VStr ts)))
            | _ => silent (Normal value)
            end
      end
  end.

End Mapper.
End Lib.

(** The cli variant. *)
Module Cli.
Section Mapper.
Context {rt : Runtime}.

(** The object branch up to the call of [mergeDeep]. *)
Definition normalize (now : Z) (parsed : value) : completion value :=
  let value := set parsed "message" (js_or (get parsed "msg") (VStr "-")) in
  let value := if truthy (get value "msg") then delete value "msg" else value in
  ts <- setDateTimeString now value ;;
  let value := set value "@timestamp" (VStr ts) in
  let value := if truthy (get value "time") then delete value "time" else value in
  Normal value.

Definition mapper (opts : options) (now : Z) (line : string) : run :=
  match JSON_parse line with
  | None => {| emitted := []; console := [line]; returned := Normal None |}
  | Some value =>
      match value with
      | VBool _ => ignored line "Boolean value ignored"
      | VNull => ignored line "Null value ignored"
      | _ =>
          silent (value <- (if negb (is_object_type value) then
                              ts <- setDateTimeString now value ;;
                              Normal (VObj [("data", value); ("@timestamp", VStr ts)])
                            else normalize now value) ;;
                  mergeDeep [value; additionalObject opts])
      end
  end.

End Mapper.
End Cli.

(** ** A runtime to compute with

    The examples need a [Runtime].  This one parses the JSON grammar (numbers
    are rounded to the nearest double; an escape above [\u00ff] is outside
    the string model and refused) and the single date format that
    [toISOString] writes, [YYYY-MM-DDTHH:mm:ss.sssZ], which every engine's
    [Date.parse] reads. *)

(** The double quote. *)
Definition dquote : ascii := ascii_of_nat 34.

(** [qq s] is [s] with a double quote for every apostrophe: the lines of the
    examples are written with apostrophes. *)
Fixpoint qq (s : string) : string :=
  match s with
  | EmptyString => EmptyString
  | String c s' => String (if Ascii.eqb c "'" then dquote else c) (qq s')
  end.

Definition option_bind {A B : Type} (o : option A) (k : A -> option B) : option B :=
  match o with
  | Some a => k a
  | None => None
  end.

Definition digit_of (c : ascii) : option Z :=
  let n := nat_of_ascii c in
  if ((48 <=? n) && (n <=? 57))%nat then Some (Z.of_nat (n - 48)) else None.

Definition digits_to_Z (ds : list Z) : Z :=
  fold_left (fun acc d => (10 * acc + d)%Z) ds 0%Z.

Fixpoint all_digits (l : list ascii) : option (list Z) :=
  match l with
  | [] => Some []
  | c :: l' =>
      option_bind (digit_of c) (fun d =>
      option_bind (all_digits l') (fun ds => Some (d :: ds)))
  end.

(** The number written in the [len] characters of [s] from [pos] on. *)
Definition number_at (s : string) (pos len : nat) : option Z :=
  option_bind (all_digits (list_ascii_of_string (substring pos len s)))
    (fun ds => Some (digits_to_Z ds)).

Definition char_at (s : string) (pos : nat) (c : ascii) : bool :=
  match String.get pos s with
  | Some c' => Ascii.eqb c c'
  | None => false
  end.

Definition leap_year (y : Z) : bool :=
  ((y mod 4 =? 0) && (negb (y mod 100 =? 0) || (y mod 400 =? 0)))%Z.

Definition days_in_month (y m : Z) : Z :=
  if (m =? 2)%Z then (if leap_year y then 29 else 28)%Z
  else if ((m =? 4) || (m =? 6) || (m =? 9) || (m =? 11))%Z then 30%Z
  else 31%Z.

Definition iso_parse (s : string) : option Z :=
  if ((String.length s =? 24)%nat
      && char_at s 4 "-" && char_at s 7 "-" && char_at s 10 "T"
      && char_at s 13 ":" && char_at s 16 ":" && char_at s 19 "."
      && char_at s 23 "Z")
  then
    option_bind (number_at s 0 4) (fun y =>
    option_bind (number_at s 5 2) (fun mo =>
    option_bind (number_at s 8 2) (fun d =>
    option_bind (number_at s 11 2) (fun h =>
    option_bind (number_at s 14 2) (fun mi =>
    option_bind (number_at s 17 2) (fun sec =>
    option_bind (number_at s 20 3) (fun ms =>
    if ((1 <=? mo) && (mo <=? 12) && (1 <=? d) && (d <=? days_in_month y mo)
        && (h <=? 23) && (mi <=? 59) && (sec <=? 59))%Z
    then Some (days_from_civil y mo d * msPerDay
               + h * 3600000 + mi * 60000 + sec * 1000 + ms)%Z
    else None)))))))
  else None.

Definition is_ws (c : ascii) : bool :=
  let n := nat_of_ascii c in
  ((n =? 32) || (n =? 9) || (n =? 10) || (n =? 13))%nat.

Fixpoint skip_ws (l : list ascii) : list ascii :=
  match l with
  | c :: l' => if is_ws c then skip_ws l' else l
  | [] => []
  end.

(** The rest of [l] after the text [p], when [l] starts with it. *)
Fixpoint after (p : list ascii) (l : list ascii) : option (list ascii) :=
  match p, l with
  | [], _ => Some l
  | a :: p', b :: l' => if Ascii.eqb a b then after p' l' else None
  | _ :: _, [] => None
  end.

Fixpoint take_digits (l : list ascii) : list Z * list ascii :=
  match l with
  | c :: l' =>
      match digit_of c with
      | Some d => let '(ds, r) := take_digits l' in (d :: ds, r)
      | None => ([], l)
      end
  | [] => ([], [])
  end.

(** The double nearest to [m * 10 ^ e], ties to even.  A negative exponent
    divides with a sticky bit below sixty-four quotient bits. *)
Definition decimal_to_float (negative : bool) (m e : Z) : float :=
  if (m =? 0)%Z then (if negative then (-0)%float else 0%float)
  else
    let sf :=
      if (0 <=? e)%Z then binary_normalize prec emax (m * 10 ^ e) 0 false
      else
        let den := (10 ^ (- e))%Z in
        let shift := Z.max 0 (Z.log2 den + 66 - Z.log2 m) in
        let num := (m * 2 ^ shift)%Z in
        let sticky := if (num mod den =? 0)%Z then 0%Z else 1%Z in
        binary_normalize prec emax (2 * (num / den) + sticky) (- shift - 1) false in
    if negative then PrimFloat.opp (SF2Prim sf) else SF2Prim sf.

Definition parse_number (l : list ascii) : option (value * list ascii) :=
  let '(negative, l1) :=
    match l with
    | c :: r => if Ascii.eqb c "-" then (true, r) else (false, l)
    | [] => (false, l)
    end in
  let '(ids, l2) := take_digits l1 in
  let int_ok :=
    match ids with
    | [] => false
    | d :: more => negb (d =? 0)%Z || match more with [] => true | _ => false end
    end in
  if negb int_ok then None else
  let frac :=
    match l2 with
    | c :: r =>
        if Ascii.eqb c "." then
          match take_digits r with
          | ([], _) => None
          | (fds, l3) => Some (fds, l3)
          end
        else Some ([], l2)
    | [] => Some ([], l2)
    end in
  option_bind frac (fun '(fds, l3) =>
  let expo :=
    match l3 with
    | c :: r =>
        if Ascii.eqb c "e" || Ascii.eqb c "E" then
          let '(eneg, r1) :=
            match r with
            | sgn :: r' =>
                if Ascii.eqb sgn "-" then (true, r')
                else if Ascii.eqb sgn "+" then (false, r')
                else (false, r)
            | [] => (false, r)
            end in
          match take_digits r1 with
          | ([], _) => None
          | (eds, l4) => Some (if eneg then (- digits_to_Z eds)%Z else digits_to_Z eds, l4)
          end
        else Some (0%Z, l3)
    | [] => Some (0%Z, l3)
    end in
  option_bind expo (fun '(ex, l4) =>
  Some (VNum (decimal_to_float negative (digits_to_Z (ids ++ fds))
                               (ex - Z.of_nat (List.length fds))), l4))).

Definition hex_of (c : ascii) : option Z :=
  let n := nat_of_ascii c in
  if ((48 <=? n) && (n <=? 57))%nat then Some (Z.of_nat (n - 48))
  else if ((65 <=? n) && (n <=? 70))%nat then Some (Z.of_nat (n - 55))
  else if ((97 <=? n) && (n <=? 102))%nat then Some (Z.of_nat (n - 87))
  else None.

Definition simple_escape (c : ascii) : option ascii :=
  if Ascii.eqb c dquote then Some c
  else if Ascii.eqb c "\" then Some c
  else if Ascii.eqb c "/" then Some c
  else if Ascii.eqb c "b" then Some (ascii_of_nat 8)
  else if Ascii.eqb c "f" then Some (ascii_of_nat 12)
  else if Ascii.eqb c "n" then Some (ascii_of_nat 10)
  else if Ascii.eqb c "r" then Some (ascii_of_nat 13)
  else if Ascii.eqb c "t" then Some (ascii_of_nat 9)
  else None.

Definition cons_char (c : ascii) (r : option (string * list ascii)) : option (string * list ascii) :=
  match r with
  | Some (s, rest) => Some (String c s, rest)
  | None => None
  end.

(** A string literal after its opening quote. *)
Fixpoint parse_string_body (l : list ascii) : option (string * list ascii) :=
  match l with
  | [] => None
  | c :: r =>
      if Ascii.eqb c dquote then Some ("", r)
      else if Ascii.eqb c "\" then
        match r with
        | [] => None
        | e :: r' =>
            match simple_escape e with
            | Some ch => cons_char ch (parse_string_body r')
            | None =>
                if Ascii.eqb e "u" then
                  match r' with
                  | h1 :: h2 :: h3 :: h4 :: r'' =>
                      match hex_of h1, hex_of h2, hex_of h3, hex_of h4 with
                      | Some a, Some b, Some c', Some d =>
                          let code := (((a * 16 + b) * 16 + c') * 16 + d)%Z in
                          if (code <? 256)%Z
                          then cons_char (ascii_of_nat (Z.to_nat code)) (parse_string_body r'')
                          else None
                      | _, _, _, _ => None
                      end
                  | _ => None
                  end
                else None
            end
        end
      else if (nat_of_ascii c <? 32)%nat then None
      else cons_char c (parse_string_body r)
  end.

Definition chars (s : string) : list ascii := list_ascii_of_string s.

Fixpoint parse_value (fuel : nat) (l : list ascii) : option (value * list ascii) :=
  match fuel with
  | O => None
  | S fuel' =>
      let l := skip_ws l in
      match after (chars "{") l with
      | Some r =>
          match after (chars "}") (skip_ws r) with
          | Some r' => Some (VObj [], r')
          | None => parse_members fuel' r []
          end
      | None =>
      match after (chars "[") l with
      | Some r =>
          match after (chars "]") (skip_ws r) with
          | Some r' => Some (VArr [] [], r')
          | None => parse_elements fuel' r []
          end
      | None =>
      match after [dquote] l with
      | Some r =>
          match parse_string_body r with
          | Some (s, r') => Some (VStr s, r')
          | None => None
          end
      | None =>
      match after (chars "true") l with
      | Some r => Some (VBool true, r)
      | None =>
      match after (chars "false") l with
      | Some r => Some (VBool false, r)
      | None =>
      match after (chars "null") l with
      | Some r => Some (VNull, r)
      | None => parse_number l
      end end end end end end
  end
with parse_elements (fuel : nat) (l : list ascii) (acc : list value)
  : option (value * list ascii) :=
  match fuel with
  | O => None
  | S fuel' =>
      match parse_value fuel' l with
      | Some (v, r) =>
          let r := skip_ws r in
          match after (chars ",") r with
          | Some r' => parse_elements fuel' r' (acc ++ [v])
          | None =>
              match after (chars "]") r with
              | Some r' => Some (VArr (acc ++ [v]) [], r')
              | None => None
              end
          end
      | None => None
      end
  end
with parse_members (fuel : nat) (l : list ascii) (acc : props)
  : option (value * list ascii) :=
  match fuel with
  | O => None
  | S fuel' =>
      match after [dquote] (skip_ws l) with
      | None => None
      | Some r =>
          match parse_string_body r with
          | None => None
          | Some (k, r1) =>
              match after (chars ":") (skip_ws r1) with
              | None => None
              | Some r2 =>
                  match parse_value fuel' r2 with
                  | None => None
                  | Some (v, r3) =>
                      let r3 := skip_ws r3 in
                      match after (chars ",") r3 with
                      | Some r4 => parse_members fuel' r4 (set_prop acc k v)
                      | None =>
                          match after (chars "}") r3 with
                          | Some r4 => Some (VObj (set_prop acc k v), r4)
                          | None => None
                          end
                      end
                  end
              end
          end
      end
  end.

Definition json_parse (line : string) : option value :=
  match parse_value (2 * String.length line + 2) (chars line) with
  | Some (v, rest) =>
      match skip_ws rest with
      | [] => Some v
      | _ :: _ => None
      end
  | None => None
  end.

Definition sample_runtime : Runtime :=
  {| JSON_parse := json_parse; Date_parse := iso_parse |}.

(** The line of the specification's scenario. *)
Definition hello_line : string :=
  qq "{'msg':'hello','time':'2024-01-01T00:00:00.000Z'}".

(** [pinoElasticSearch()] called without options: [opts = {}]. *)
Definition no_options : options :=
  {| node := VUndefined; auth := VUndefined; index := IndexUnset;
     esVersion := None; es_version := None;
     opType := VUndefined; op_type := VUndefined;
     additionalObject := VUndefined; rejectUnauthorized := VUndefined;
     caFingerprint := VUndefined; Connection := None; ConnectionPool := None |}.

(** The options the entry point builds when the environment sets the index
    to [template] and no [LOG_ES_VAR_*] variable: [additionalObject] is [{}]. *)
Definition cli_options (template : string) : options :=
  {| node := VStr "http://localhost:9200";
     auth := VObj [("username", VStr "elastic"); ("password", VStr "changeme")];
     index := IndexTemplate template;
     esVersion := None; es_version := None;
     opType := VUndefined; op_type := VUndefined;
     additionalObject := VObj []; rejectUnauthorized := VBool false;
     caFingerprint := VUndefined; Connection := None; ConnectionPool := None |}.

Definition with_opType (opts : options) (t : value) : options :=
  {| node := node opts; auth := auth opts; index := index opts;
     esVersion := esVersion opts; es_version := es_version opts;
     opType := t; op_type := op_type opts;
     additionalObject := additionalObject opts;
     rejectUnauthorized := rejectUnauthorized opts;
     caFingerprint := caFingerprint opts; Connection := Connection opts;
     ConnectionPool := ConnectionPool opts |}.

Definition with_rejectUnauthorized (opts : options) (flag : value) : options :=
  {| node := node opts; auth := auth opts; index := index opts;
     esVersion := esVersion opts; es_version := es_version opts;
     opType := opType opts; op_type := op_type opts;
     additionalObject := additionalObject opts;
     rejectUnauthorized := flag;
     caFingerprint := caFingerprint opts; Connection := Connection opts;
     ConnectionPool := ConnectionPool opts |}.

Definition with_additionalObject (opts : options) (fields : value) : options :=
  {| node := node opts; auth := auth opts; index := index opts;
     esVersion := esVersion opts; es_version := es_version opts;
     opType := opType opts; op_type := op_type opts;
     additionalObject := fields;
     rejectUnauthorized := rejectUnauthorized opts;
     caFingerprint := caFingerprint opts; Connection := Connection opts;
     ConnectionPool := ConnectionPool opts |}.

(** A value other than [null] and [undefined]: [Object.keys] accepts it. *)
Definition not_nullish (v : value) : bool :=
  match v with
  | VUndefined | VNull => false
  | _ => true
  end.

(** A decoded value that the mapper turns into a document: anything but a
    boolean and [null]. *)
Definition document_input (v : value) : bool :=
  match v with
  | VBool _ | VNull => false
  | _ => true
  end.

(** A key that is not written like an array index. *)
Definition named_key (k : string) : bool :=
  match k with
  | String c _ => negb ((48 <=? nat_of_ascii c) && (nat_of_ascii c <=? 57))%nat
  | EmptyString => true
  end.

(** The decoded object once [message] is set and a truthy [msg] removed:
    the value [setDateTimeString] is applied to in the cli variant. *)
Definition with_message (parsed : value) : value :=
  let value := set parsed "message" (js_or (get parsed "msg") (VStr "-")) in
  if truthy (get value "msg") then delete value "msg" else value.

(** What the object branch of the cli variant hands to [mergeDeep], given
    the timestamp [ts] that [setDateTimeString] returned. *)
Definition normalized (parsed : value) (ts : string) : value :=
  let value := set (with_message parsed) "@timestamp" (VStr ts) in
  if truthy (get value "time") then delete value "time" else value.

Section Dateable.
Context {rt : Runtime}.

(** What [setDateTimeString] needs of a decoded object or array to return:
    no property of it shadows [hasOwnProperty] (on a decoded value, an own
    one), and a [time] that passes the guard denotes a date. *)
Definition dateable (v : value) : bool :=
  negb (in_chain v "hasOwnProperty") && has_builtins v &&
  (negb (time_usable (get v "time")) ||
   match new_Date (get v "time") with Some _ => true | None => false end).

End Dateable.

(** ** The entry point: options from the environment *)

(** [process.env]: the variables, in the order [Object.keys] lists them. *)
Definition environment : Type := list (string * string).

(** [process.env[name]]: [None] for [undefined]. *)
Fixpoint lookup_env (env : environment) (name : string) : option string :=
  match env with
  | [] => None
  | (n, v) :: env' => if name =? n then Some v else lookup_env env' name
  end.

(** [process.env[name]] as a value. *)
Definition getenv (env : environment) (name : string) : value :=
  match lookup_env env name with
  | Some s => VStr s
  | None => VUndefined
  end.

(** [process.env.NAME || default] *)
Definition env_or (env : environment) (name default : string) : string :=
  match lookup_env env name with
  | Some s => if s =? "" then default else s
  | None => default
  end.

(** [Object.keys(process.env)] *)
Definition env_keys (env : environment) : list string :=
  nodup string_dec (map fst env).

(** What the host supplies besides the [Runtime]: the upper-casing of the
    default locale and [parseInt]. *)
Class Host : Type := {
  toLocaleUpperCase : string -> string;
  parseInt : string -> float
}.

(** [toLowerCase] on a code unit below 256: the letters A to Z and the
    capital letters from U+00C0 to U+00DE (U+00D7, the multiplication sign,
    apart) move up by 32. *)
Definition lower_char (c : ascii) : ascii :=
  let n := nat_of_ascii c in
  if (((65 <=? n) && (n <=? 90))
      || ((192 <=? n) && (n <=? 222) && negb (n =? 215)))%nat
  then ascii_of_nat (n + 32) else c.

Fixpoint toLowerCase (s : string) : string :=
  match s with
  | EmptyString => EmptyString
  | String c s' => String (lower_char c) (toLowerCase s')
  end.

(** [s.split(sep)] for a one-character separator. *)
Fixpoint split_on (sep : ascii) (s : string) : list string :=
  match s with
  | EmptyString => [EmptyString]
  | String c s' =>
      if Ascii.eqb c sep then EmptyString :: split_on sep s'
      else match split_on sep s' with
           | p :: ps => String c p :: ps
           | [] => [String c EmptyString]
           end
  end.

(** [processKey(f, value)] with a bound on the depth of the recursion:
    [parts.slice(0, parts.length - 1).join("_")] is the next key and
    [{ [parts[parts.length - 1]]: value }] the next value. *)
Fixpoint processKey_fuel (fuel : nat) (f : string) (val : value) : option value :=
  match fuel with
  | O => None
  | S fuel' =>
      let parts := if f =? "" then [] else split_on "_" f in
      match parts with
      | _ :: _ =>
          processKey_fuel fuel' (String.concat "_" (removelast parts))
                          (VObj [(last parts "", val)])
      | [] => if f =? "" then Some val else Some (VObj [(f, val)])
      end
  end.

(** [processKey(f, value)].  The recursion ends ([processKey_path] below);
    the last case is the engine's RangeError on a stack overflow. *)
Definition processKey (f : string) (val : value) : completion value :=
  match processKey_fuel (String.length f + 2) f val with
  | Some r => Normal r
  | None => Throw RangeError
  end.

(** The object [{p1: {p2: .. {pn: leaf}}}] of a key path. *)
Fixpoint path_object (path : list string) (leaf : value) : value :=
  match path with
  | [] => leaf
  | p :: path' => VObj [(p, path_object path' leaf)]
  end.

(** The key path [processKey] follows for [f]: the parts between the
    underscores, without the first one when that is empty. *)
Definition key_path (f : string) : list string :=
  if f =? "" then []
  else match split_on "_" f with
       | EmptyString :: rest => rest
       | parts => parts
       end.

(** The separator does not occur in [s]. *)
Definition no_sep (sep : ascii) (s : string) : Prop :=
  ~ In sep (list_ascii_of_string s).

Definition drop_empty_head (parts : list string) : list string :=
  match parts with
  | EmptyString :: rest => rest
  | _ => parts
  end.

(** [m] is a mapping that holds, along [path], mappings only. *)
Fixpoint has_path (path : list string) (m : value) : Prop :=
  match m with
  | VObj l =>
      match path with
      | [] => True
      | k :: path' => exists x, lookup k l = Some x /\ has_path path' x
      end
  | _ => False
  end.

(** [m] is a mapping that holds mappings only as far as it follows [path]. *)
Fixpoint along (path : list string) (m : value) : Prop :=
  match m with
  | VObj l =>
      match path with
      | [] => True
      | k :: path' => lookup k l = None \/ exists x, lookup k l = Some x /\ along path' x
      end
  | _ => False
  end.

(** [v?.k] *)
Definition optional_get (v : value) (k : string) : value :=
  match v with
  | VUndefined | VNull => VUndefined
  | _ => get v k
  end.

Section EntryPoint.
Context {host : Host}.

(** [Object.keys(process.env).filter((key) => key.startsWith("LOG_ES_VAR_"))
      .map(s => s.toLowerCase())] *)
Definition additionalFields (env : environment) : list string :=
  map toLowerCase (filter (prefix "LOG_ES_VAR_") (env_keys env)).

(** The callback of [additionalFields.reduce]. *)
Definition add_field (env : environment) (obj : completion value) (field : string)
  : completion value :=
  obj <- obj ;;
  nested <- processKey field (getenv env (toLocaleUpperCase field)) ;;
  mergeDeep [obj; nested].

(** [additionalFields.reduce(.., {})] *)
Definition merged_fields (env : environment) : completion value :=
  fold_left (add_field env) (additionalFields env) (Normal (VObj [])).

(** [additionalObject?.log?.es?.var ? additionalObject.log.es.var : {}] *)
Definition additionalObject_of (merged : value) : value :=
  let var := optional_get (optional_get (optional_get merged "log") "es") "var" in
  if truthy var then var else VObj [].

(** [process.env.NAME ? parseInt(process.env.NAME) : undefined] *)
Definition env_int (env : environment) (name : string) : value :=
  match lookup_env env name with
  | Some s => if s =? "" then VUndefined else VNum (parseInt s)
  | None => VUndefined
  end.

(** The options the entry point of the cli variant passes to [start]. *)
Definition cli_start_options (env : environment) : completion options :=
  merged <- merged_fields env ;;
  Normal {| node := VStr (env_or env "LOG_ES_HOST" "http://localhost:9200");
            auth := VObj [("username", VStr (env_or env "LOG_ES_USER" "elastic"));
                          ("password", VStr (env_or env "LOG_ES_PASS" "changeme"))];
            index := IndexTemplate (env_or env "LOG_ES_INDEX" "logs-apm-%{DATE}");
            esVersion := None; es_version := None;
            opType := VUndefined; op_type := VUndefined;
            additionalObject := additionalObject_of merged;
            rejectUnauthorized :=
              rejectUnauthorized_of_env (lookup_env env "LOG_ES_REJECT_UNAUTHORIZED");
            caFingerprint := VUndefined; Connection := None; ConnectionPool := None |}.

(** The options the entry point of [lib.js] passes to [start]. *)
Definition lib_start_options (env : environment) : options :=
  {| node := VStr (env_or env "LOG_ES_HOST" "http://localhost:9200");
     auth := VObj [("username", VStr (env_or env "LOG_ES_USER" "elastic"));
                   ("password", VStr (env_or env "LOG_ES_PASS" "changeme"))];
     index := IndexTemplate (env_or env "LOG_ES_INDEX" "DJP-%{DATE}");
     esVersion := None; es_version := None;
     opType := VUndefined; op_type := VUndefined;
     additionalObject := VUndefined;
     rejectUnauthorized :=
       rejectUnauthorized_of_env (lookup_env env "LOG_ES_REJECT_UNAUTHORIZED");
     caFingerprint := VUndefined; Connection := None; ConnectionPool := None |}.

End EntryPoint.

(** ** initializeBulkHandler: the flush thresholds *)

(** The four fields of [opts] behind the thresholds; [flush_bytes] and
    [flush_interval] are the spellings ['flush-bytes'] and
    ['flush-interval']. *)
Record flush_options : Type := {
  flushBytes : value;
  flush_bytes : value;
  flushInterval : value;
  flush_interval : value
}.

(** [opts.flushBytes || opts['flush-bytes'] || 1000] *)
Definition bulk_flushBytes (fo : flush_options) : value :=
  js_or (js_or (flushBytes fo) (flush_bytes fo)) (VNum 1000%float).

(** [opts.flushInterval || opts['flush-interval'] || 30000] *)
Definition bulk_flushInterval (fo : flush_options) : value :=
  js_or (js_or (flushInterval fo) (flush_interval fo)) (VNum 30000%float).

(** The thresholds of the options either entry point builds. *)
Definition start_flush_options {host : Host} (env : environment) : flush_options :=
  {| flushBytes := env_int env "LOG_ES_FLUSH_BYTES";
     flush_bytes := VUndefined;
     flushInterval := env_int env "LOG_ES_FLUSH_INTERVAL";
     flush_interval := VUndefined |}.

(** [refreshOnCompletion: getIndexName()] *)
Definition refreshOnCompletion (opts : options) (now : Z) : completion value :=
  getIndexName opts now VUndefined.

(** A host to compute with: upper-casing of the letters a to z, and a
    [parseInt] that reads an unsigned decimal numeral ([NaN] for a text that
    does not start with a digit). *)
Definition upper_char (c : ascii) : ascii :=
  let n := nat_of_ascii c in
  if ((97 <=? n) && (n <=? 122))%nat then ascii_of_nat (n - 32) else c.

Fixpoint ascii_upper (s : string) : string :=
  match s with
  | EmptyString => EmptyString
  | String c s' => String (upper_char c) (ascii_upper s')
  end.

Definition decimal_parseInt (s : string) : float :=
  match take_digits (list_ascii_of_string s) with
  | ([], _) => PrimFloat.nan
  | (ds, _) => decimal_to_float false (digits_to_Z ds) 0
  end.

Definition sample_host : Host :=
  {| toLocaleUpperCase := ascii_upper; parseInt := decimal_parseInt |}.

(** The options [cli_start_options] yields on the sample host ([no_options]
    in the case, which does not arise, that it throws). *)
Definition cli_options_of_env (env : environment) : options :=
  match @cli_start_options sample_host env with
  | Normal opts => opts
  | Throw _ => no_options
  end.

(** A value in which no object owns a property [__proto__] and none has a
    replaced prototype: what [JSON.parse] returns from a text without that
    key. *)
Fixpoint proto_free (v : value) : bool :=
  match v with
  | VProto _ _ => false
  | VObj fields =>
      forallb (fun kv => match kv with
                         | (k, x) => negb (k =? "__proto__") && proto_free x
                         end) fields
  | VArr items named =>
      forallb proto_free items &&
      forallb (fun kv => match kv with
                         | (k, x) => negb (k =? "__proto__") && proto_free x
                         end) named
  | _ => true
  end.

Definition entry_free (kv : string * value) : bool :=
  match kv with (k, x) => negb (k =? "__proto__") && proto_free x end.

(** No character of [s] is a dollar: as a replacement text of
    [String.prototype.replace], [s] stands for itself. *)
Definition dollar_free (s : string) : Prop :=
  forall c, In c (list_ascii_of_string s) -> c <> "$"%char.

(* ===================================================================== *)
(** * Properties *)

(** ** Own properties *)

Lemma lookup_set_prop_same (o : props) (k : string) (v : value) :
  lookup k (set_prop o k v) = Some v.
Proof.
  induction o as [|[k' v'] o IH]; simpl.
  - now rewrite String.eqb_refl.
  - destruct (k =? k') eqn:E; simpl.
    + now rewrite String.eqb_refl.
    + now rewrite E.
Qed.

Lemma lookup_set_prop_other (o : props) (k k' : string) (v : value) :
  k <> k' -> lookup k (set_prop o k' v) = lookup k o.
Proof.
  intros Hne. induction o as [|[k0 v0] o IH]; simpl.
  - destruct (k =? k') eqn:E; [apply String.eqb_eq in E; contradiction | reflexivity].
  - destruct (k' =? k0) eqn:E; simpl.
    + apply String.eqb_eq in E. subst k0.
      destruct (k =? k') eqn:E'; [apply String.eqb_eq in E'; contradiction | reflexivity].
    + now rewrite IH.
Qed.

Lemma lookup_delete_prop_same (o : props) (k : string) :
  lookup k (delete_prop o k) = None.
Proof.
  induction o as [|[k' v'] o IH]; simpl; [reflexivity|].
  destruct (k =? k') eqn:E; simpl; [exact IH | now rewrite E].
Qed.

Lemma lookup_delete_prop_other (o : props) (k k' : string) :
  k <> k' -> lookup k (delete_prop o k') = lookup k o.
Proof.
  intros Hne. induction o as [|[k0 v0] o IH]; simpl; [reflexivity|].
  destruct (k' =? k0) eqn:E; simpl.
  - apply String.eqb_eq in E. subst k0.
    destruct (k =? k') eqn:E'; [apply String.eqb_eq in E'; contradiction | exact IH].
  - now rewrite IH.
Qed.

Lemma lookup_app (k : string) (o1 o2 : props) :
  lookup k (o1 ++ o2) =
  match lookup k o1 with Some v => Some v | None => lookup k o2 end.
Proof.
  induction o1 as [|[k' v'] o1 IH]; simpl; [reflexivity|].
  now destruct (k =? k').
Qed.

Lemma lookup_None_not_In (k : string) (o : props) :
  lookup k o = None <-> ~ In k (map fst o).
Proof.
  induction o as [|[k' v'] o IH]; simpl.
  - tauto.
  - destruct (k =? k') eqn:E.
    + apply String.eqb_eq in E. subst. split; [discriminate | intros H; exfalso; apply H; now left].
    + apply String.eqb_neq in E. rewrite IH. split.
      * intros H [H'|H']; [congruence | contradiction].
      * tauto.
Qed.

Lemma decimal_fuel_digit (fuel n : nat) (acc : string) :
  (0 < fuel)%nat ->
  exists d rest, (d < 10)%nat /\ decimal_fuel fuel n acc = String (digit_char d) rest.
Proof.
  revert n acc. induction fuel as [|fuel IH]; intros n acc Hpos; [lia|].
  simpl. destruct (n <? 10)%nat.
  - exists (n mod 10)%nat, acc. split; [apply Nat.mod_upper_bound; lia | reflexivity].
  - destruct fuel as [|fuel'].
    + exists (n mod 10)%nat, acc. split; [apply Nat.mod_upper_bound; lia | reflexivity].
    + apply IH. lia.
Qed.

Lemma named_key_not_index (k : string) (n : nat) :
  named_key k = true -> (k =? index_key n) = false.
Proof.
  intros Hk. unfold index_key.
  destruct (decimal_fuel_digit (S n) n "") as (d & rest & Hd & ->); [lia|].
  destruct k as [|c k']; [reflexivity|].
  cbn [String.eqb]. destruct (Ascii.eqb c (digit_char d)) eqn:E; [|reflexivity].
  apply Ascii.eqb_eq in E. subst c. exfalso.
  cbn [named_key] in Hk. unfold digit_char in Hk.
  rewrite nat_ascii_embedding in Hk by lia.
  apply negb_true_iff, andb_false_iff in Hk.
  destruct Hk as [Hk|Hk]; [apply Nat.leb_gt in Hk | apply Nat.leb_gt in Hk]; lia.
Qed.

Lemma lookup_indexed_named {A : Type} (wrap : A -> value) (k : string) (i : nat) (l : list A) :
  named_key k = true -> lookup k (indexed wrap i l) = None.
Proof.
  intros Hk. revert i. induction l as [|x l IH]; intros i; simpl; [reflexivity|].
  now rewrite named_key_not_index, IH.
Qed.

(** Reads after a write or a delete, on an object or an array. *)

Lemma get_set_other (v : value) (k k' : string) (x : value) :
  k <> k' -> get (set v k' x) k = get v k.
Proof.
  intros Hne. destruct v; cbn [get set own_entries]; try reflexivity.
  - now rewrite !lookup_app, lookup_set_prop_other.
  - now rewrite lookup_set_prop_other.
  - now rewrite lookup_set_prop_other.
Qed.

Lemma has_key_set_other (v : value) (k k' : string) (x : value) :
  k <> k' -> has_key (set v k' x) k = has_key v k.
Proof.
  intros Hne. unfold has_key. destruct v; cbn [set own_entries]; try reflexivity.
  - now rewrite !lookup_app, lookup_set_prop_other.
  - now rewrite lookup_set_prop_other.
  - now rewrite lookup_set_prop_other.
Qed.

Lemma get_delete_other (v : value) (k k' : string) :
  k <> k' -> get (delete v k') k = get v k.
Proof.
  intros Hne. destruct v; cbn [get delete own_entries]; try reflexivity.
  - now rewrite !lookup_app, lookup_delete_prop_other.
  - now rewrite lookup_delete_prop_other.
  - now rewrite lookup_delete_prop_other.
Qed.

Lemma has_key_delete_other (v : value) (k k' : string) :
  k <> k' -> has_key (delete v k') k = has_key v k.
Proof.
  intros Hne. unfold has_key. destruct v; cbn [delete own_entries]; try reflexivity.
  - now rewrite !lookup_app, lookup_delete_prop_other.
  - now rewrite lookup_delete_prop_other.
  - now rewrite lookup_delete_prop_other.
Qed.

Lemma get_set_same (v : value) (k : string) (x : value) :
  is_object_type v = true -> v <> VNull -> named_key k = true ->
  get (set v k x) k = x.
Proof.
  intros Hobj Hnull Hk.
  destruct v; cbn [get set own_entries]; try discriminate; try congruence.
  - now rewrite lookup_app, lookup_indexed_named, lookup_set_prop_same.
  - now rewrite lookup_set_prop_same.
  - now rewrite lookup_set_prop_same.
Qed.

Lemma has_key_delete_same (v : value) (k : string) :
  is_object_type v = true -> named_key k = true ->
  has_key (delete v k) k = false.
Proof.
  intros Hobj Hk. unfold has_key.
  destruct v; cbn [delete own_entries]; try discriminate; try reflexivity.
  - now rewrite lookup_app, lookup_indexed_named, lookup_delete_prop_same.
  - now rewrite lookup_delete_prop_same.
  - now rewrite lookup_delete_prop_same.
Qed.

(** A value with its own prototype reads what it owns; so does any value
    under a key it owns. *)
Lemma get_standard (v : value) (k : string) :
  standard v = true ->
  get v k = match lookup k (own_entries v) with Some x => x | None => VUndefined end.
Proof. destruct v; try discriminate; reflexivity. Qed.

Lemma get_own (v : value) (k : string) (x : value) :
  lookup k (own_entries v) = Some x -> get v k = x.
Proof. destruct v; cbn [get own_entries]; intros ->; reflexivity. Qed.

Lemma in_chain_set_other (v : value) (k k' : string) (x : value) :
  k <> k' -> in_chain (set v k' x) k = in_chain v k.
Proof.
  intros Hne. destruct v; cbn [in_chain set]; try reflexivity;
    unfold has_key; cbn [own_entries];
    rewrite ?lookup_app, lookup_set_prop_other by assumption; reflexivity.
Qed.

Lemma in_chain_delete_other (v : value) (k k' : string) :
  k <> k' -> in_chain (delete v k') k = in_chain v k.
Proof.
  intros Hne. destruct v; cbn [in_chain delete]; try reflexivity;
    unfold has_key; cbn [own_entries];
    rewrite ?lookup_app, lookup_delete_prop_other by assumption; reflexivity.
Qed.

Lemma has_builtins_set (v : value) (k : string) (x : value) :
  has_builtins (set v k x) = has_builtins v.
Proof. now destruct v. Qed.

Lemma has_builtins_delete (v : value) (k : string) :
  has_builtins (delete v k) = has_builtins v.
Proof. now destruct v. Qed.

Lemma in_chain_own (v : value) (k : string) :
  has_key v k = true -> in_chain v k = true.
Proof.
  unfold has_key. destruct v; cbn [in_chain own_entries]; try (intros H; exact H).
  now destruct (lookup k fields).
Qed.

(** ** setDateTimeString *)

Section TimestampFacts.
Context {rt : Runtime}.

Lemma setDateTimeString_scalar (now : Z) (v : value) :
  is_object_type v = false -> setDateTimeString now v = Normal (iso_string now).
Proof. intros H. unfold setDateTimeString. now rewrite H. Qed.

Lemma get_absent (v : value) (k : string) :
  standard v = true -> has_key v k = false -> get v k = VUndefined.
Proof.
  intros Hs. rewrite (get_standard v k Hs). unfold has_key.
  now destruct (lookup k (own_entries v)).
Qed.

(** On an object or an array on which the method is the built-in one, the
    function looks at an own [time] only. *)
Lemma setDateTimeString_own_time (now : Z) (v : value) :
  is_object_type v = true -> v <> VNull ->
  in_chain v "hasOwnProperty" = false -> has_builtins v = true ->
  setDateTimeString now v =
  if has_key v "time" && time_usable (get v "time")
  then toISOString (new_Date (get v "time"))
  else Normal (iso_string now).
Proof.
  intros Hobj Hnull Hshadow Hb. unfold setDateTimeString. rewrite Hobj.
  assert (Hcall : call_hasOwnProperty v "time" = Normal (has_key v "time")).
  { unfold call_hasOwnProperty, hasOwnProperty. rewrite Hshadow, Hb.
    destruct v; try discriminate; try congruence;
      now rewrite ?orb_false_r. }
  rewrite Hcall. cbn [bind].
  destruct (has_key v "time"); cbn [andb]; reflexivity.
Qed.

(** On a decoded object or array that leaves [hasOwnProperty] alone the
    function is the two-way choice of its guard. *)
Lemma setDateTimeString_object (now : Z) (v : value) :
  is_object_type v = true -> v <> VNull -> standard v = true ->
  has_key v "hasOwnProperty" = false ->
  setDateTimeString now v =
  if time_usable (get v "time") then toISOString (new_Date (get v "time"))
  else Normal (iso_string now).
Proof.
  intros Hobj Hnull Hs Hshadow.
  rewrite setDateTimeString_own_time; try assumption.
  - destruct (has_key v "time") eqn:Hk; [reflexivity|].
    now rewrite (get_absent _ _ Hs Hk).
  - destruct v; try discriminate; exact Hshadow.
  - destruct v; try discriminate; try reflexivity. congruence.
Qed.

Lemma setDateTimeString_dateable (now : Z) (v : value) :
  is_object_type v = true -> v <> VNull -> dateable v = true ->
  exists ts, setDateTimeString now v = Normal ts.
Proof.
  intros Hobj Hnull Hd. unfold dateable in Hd.
  apply andb_true_iff in Hd. destruct Hd as [Hd Htime].
  apply andb_true_iff in Hd. destruct Hd as [Hshadow Hb].
  apply negb_true_iff in Hshadow.
  rewrite setDateTimeString_own_time by assumption.
  destruct (has_key v "time" && time_usable (get v "time")) eqn:E; [|eauto].
  apply andb_true_iff in E. destruct E as [_ E]. rewrite E in Htime.
  cbn [negb orb] in Htime.
  destruct (new_Date (get v "time")) as [t|]; [cbn; eauto | discriminate].
Qed.

End TimestampFacts.

(** ** mergeDeep *)

Lemma set_prop_fresh (o : props) (k : string) (v : value) :
  lookup k o = None -> set_prop o k v = o ++ [(k, v)].
Proof.
  induction o as [|[k' v'] o IH]; simpl; [reflexivity|].
  destruct (k =? k'); [discriminate|]. intros H. now rewrite IH.
Qed.

Lemma lookup_copy (f : string -> value) (k : string) (keys : list string) :
  lookup k (map (fun key => (key, f key)) keys) =
  if in_dec string_dec k keys then Some (f k) else None.
Proof.
  induction keys as [|key keys IH]; simpl; [reflexivity|].
  destruct (k =? key) eqn:E.
  - apply String.eqb_eq in E. subst key.
    destruct (string_dec k k); [reflexivity | congruence].
  - apply String.eqb_neq in E. rewrite IH.
    destruct (string_dec key k); [congruence|].
    now destruct (in_dec string_dec k keys).
Qed.

Lemma NoDup_set_prop (o : props) (k : string) (v : value) :
  NoDup (map fst o) -> NoDup (map fst (set_prop o k v)).
Proof.
  induction o as [|[k' v'] o IH]; cbn [set_prop map fst]; intros H.
  - repeat constructor. intros [].
  - destruct (k =? k') eqn:E.
    + apply String.eqb_eq in E. subst k'. exact H.
    + cbn [map fst]. inversion H as [|? ? Hnotin Hnd]; subst.
      constructor; [|now apply IH].
      intros Hin. apply Hnotin.
      destruct (in_dec string_dec k' (map fst o)) as [Hi|Hn]; [exact Hi|].
      apply lookup_None_not_In in Hn.
      assert (Hl : lookup k' (set_prop o k v) = None).
      { rewrite lookup_set_prop_other; [exact Hn|].
        intros ->. now rewrite String.eqb_refl in E. }
      apply lookup_None_not_In in Hl. contradiction.
Qed.

(** *** The accumulator *)

Lemma is_accessor_other (prev : object) (key : string) :
  key <> "__proto__" -> is_accessor prev key = false.
Proof. intros H. unfold is_accessor. apply String.eqb_neq in H. now rewrite H. Qed.

Lemma accumulator_get_plain (o : props) (key : string) :
  key <> "__proto__" -> accumulator_get (plain o) key = get (VObj o) key.
Proof. intros H. unfold accumulator_get. now rewrite is_accessor_other. Qed.

Lemma accumulator_set_plain (o : props) (key : string) (x : value) :
  key <> "__proto__" -> accumulator_set (plain o) key x = plain (set_prop o key x).
Proof. intros H. unfold accumulator_set. now rewrite is_accessor_other. Qed.

(** A write leaves the own properties under other keys as they were. *)
Lemma accumulator_set_other (prev : object) (key : string) (x : value) (k : string) :
  k <> key -> lookup k (own (accumulator_set prev key x)) = lookup k (own prev).
Proof.
  intros Hne. unfold accumulator_set.
  destruct (is_accessor prev key); [now destruct (is_object_type x)|].
  cbn [own]. now apply lookup_set_prop_other.
Qed.

Lemma accumulator_set_same (prev : object) (key : string) (x : value) :
  key <> "__proto__" -> lookup key (own (accumulator_set prev key x)) = Some x.
Proof.
  intros H. unfold accumulator_set. rewrite is_accessor_other by exact H.
  cbn [own]. apply lookup_set_prop_same.
Qed.

Lemma accumulator_set_proto (prev : object) (key : string) (x : value) :
  key <> "__proto__" -> proto (accumulator_set prev key x) = proto prev.
Proof. intros H. unfold accumulator_set. now rewrite is_accessor_other. Qed.

Lemma accumulator_set_NoDup (prev : object) (key : string) (x : value) :
  NoDup (map fst (own prev)) -> NoDup (map fst (own (accumulator_set prev key x))).
Proof.
  intros H. unfold accumulator_set.
  destruct (is_accessor prev key); [now destruct (is_object_type x)|].
  cbn [own]. now apply NoDup_set_prop.
Qed.

Lemma to_value_object (prev : object) :
  isObject (to_value prev) = true /\ Array_isArray (to_value prev) = false /\
  own_entries (to_value prev) = own prev.
Proof. unfold to_value. destruct (proto prev); repeat split. Qed.

Lemma not_isObject_not_array (v : value) :
  isObject v = false -> Array_isArray v = false.
Proof. destruct v; try reflexivity. discriminate. Qed.

Section MergeFacts.
Variable recur : list value -> option (completion value).

Lemma merge_key_writes_key (prev : object) (obj : value) (key : string) (prev' : object) :
  merge_key recur prev obj key = Some (Normal prev') ->
  exists x, prev' = accumulator_set prev key x.
Proof.
  unfold merge_key.
  destruct (Array_isArray _ && Array_isArray _).
  - intros H. injection H as <-. eauto.
  - destruct (isObject _ && isObject _).
    + destruct (recur _) as [[merged|e]|]; try discriminate.
      intros H. injection H as <-. eauto.
    + intros H. injection H as <-. eauto.
Qed.

(** A value of [obj] that is neither an object nor an array is stored as it
    is, whatever the accumulator holds or inherits. *)
Lemma merge_key_scalar (prev : object) (obj : value) (key : string) :
  isObject (get obj key) = false ->
  merge_key recur prev obj key
  = Some (Normal (accumulator_set prev key (get obj key))).
Proof.
  intros H. unfold merge_key.
  now rewrite (not_isObject_not_array _ H), H, !andb_false_r.
Qed.

(** A key that [obj] does not have is left as it was. *)
Lemma forEach_key_other (obj : value) (k : string) (keys : list string) :
  forall prev prev',
  forEach_key recur prev obj keys = Some (Normal prev') ->
  ~ In k keys -> lookup k (own prev') = lookup k (own prev).
Proof.
  induction keys as [|key keys IH]; intros prev prev' Hrun Hnot; simpl in Hrun.
  - now injection Hrun as <-.
  - destruct (merge_key recur prev obj key) as [[p1|e]|] eqn:Hk; try discriminate.
    destruct (merge_key_writes_key _ _ _ _ Hk) as [x ->].
    rewrite (IH _ _ Hrun) by (intros Hin; apply Hnot; now right).
    apply accumulator_set_other. intros ->. apply Hnot. now left.
Qed.

(** The prototype of the accumulator changes under the key [__proto__]
    only. *)
Lemma forEach_key_proto (obj : value) (keys : list string) :
  forall prev prev',
  forEach_key recur prev obj keys = Some (Normal prev') ->
  ~ In "__proto__" keys -> proto prev' = proto prev.
Proof.
  induction keys as [|key keys IH]; intros prev prev' Hrun Hnot; simpl in Hrun.
  - now injection Hrun as <-.
  - destruct (merge_key recur prev obj key) as [[p1|e]|] eqn:Hk; try discriminate.
    destruct (merge_key_writes_key _ _ _ _ Hk) as [x ->].
    rewrite (IH _ _ Hrun) by (intros Hin; apply Hnot; now right).
    apply accumulator_set_proto. intros ->. apply Hnot. now left.
Qed.

Lemma forEach_key_NoDup (obj : value) (keys : list string) :
  forall prev prev',
  forEach_key recur prev obj keys = Some (Normal prev') ->
  NoDup (map fst (own prev)) -> NoDup (map fst (own prev')).
Proof.
  induction keys as [|key keys IH]; intros prev prev' Hrun Hnd; simpl in Hrun.
  - now injection Hrun as <-.
  - destruct (merge_key recur prev obj key) as [[p1|e]|] eqn:Hk; try discriminate.
    destruct (merge_key_writes_key _ _ _ _ Hk) as [x ->].
    apply (IH _ _ Hrun). now apply accumulator_set_NoDup.
Qed.

Lemma reduce_objects_NoDup (objects : list value) :
  forall prev prev',
  reduce_objects recur prev objects = Some (Normal prev') ->
  NoDup (map fst (own prev)) -> NoDup (map fst (own prev')).
Proof.
  induction objects as [|obj objects IH]; intros prev prev' Hrun Hnd; simpl in Hrun.
  - now injection Hrun as <-.
  - destruct (Object_keys obj) as [keys|e]; [|discriminate].
    destruct (forEach_key recur prev obj keys) as [[p1|e]|] eqn:Hk; try discriminate.
    apply (IH _ _ Hrun). now apply (forEach_key_NoDup _ _ _ _ Hk).
Qed.

(** A scalar value of [obj] under a key other than [__proto__] is what the
    accumulator owns there afterwards. *)
Lemma forEach_key_scalar (obj : value) (k : string) (keys : list string) :
  forall prev prev',
  NoDup keys -> In k keys -> k <> "__proto__" -> isObject (get obj k) = false ->
  forEach_key recur prev obj keys = Some (Normal prev') ->
  lookup k (own prev') = Some (get obj k).
Proof.
  induction keys as [|key keys IH]; intros prev prev' Hnd Hin Hk Hs Hrun; [contradiction|].
  simpl in Hrun.
  inversion Hnd as [|? ? Hnotin Hnd']; subst.
  destruct (string_dec key k) as [->|Hne].
  - rewrite (merge_key_scalar _ _ _ Hs) in Hrun.
    rewrite (forEach_key_other _ k _ _ _ Hrun Hnotin).
    now apply accumulator_set_same.
  - destruct (merge_key recur prev obj key) as [[p1|e]|] eqn:Hm; try discriminate.
    destruct Hin as [Heq|Hin]; [contradiction|].
    now apply (IH p1 prev').
Qed.

(** Keys that [prev] does not have yet are copied, one after the other, as
    long as none is [__proto__]. *)
Lemma forEach_key_fresh (obj : value) (keys : list string) :
  forall prev,
  NoDup keys -> ~ In "__proto__" keys -> (forall k, In k keys -> lookup k prev = None) ->
  forEach_key recur (plain prev) obj keys =
  Some (Normal (plain (prev ++ map (fun key => (key, get obj key)) keys))).
Proof.
  induction keys as [|key keys IH]; intros prev Hnd Hproto Hfresh; simpl.
  - now rewrite app_nil_r.
  - assert (Hkey : key <> "__proto__") by (intros ->; apply Hproto; now left).
    assert (Hp : lookup key prev = None) by (apply Hfresh; now left).
    assert (Hg : get (VObj prev) key = VUndefined)
      by (cbn [get own_entries]; now rewrite Hp).
    unfold merge_key. rewrite (accumulator_get_plain _ _ Hkey), Hg.
    cbn [Array_isArray isObject truthy andb].
    rewrite (accumulator_set_plain _ _ _ Hkey), (set_prop_fresh _ _ _ Hp).
    inversion Hnd as [|? ? Hnotin Hnd']; subst.
    rewrite IH; [now rewrite <- app_assoc | assumption | |].
    + intros Hin. apply Hproto. now right.
    + intros k Hin. rewrite lookup_app, (Hfresh k) by now right.
      simpl. destruct (k =? key) eqn:E; [|reflexivity].
      apply String.eqb_eq in E. subst. contradiction.
Qed.

End MergeFacts.

(** *** The recursion of mergeDeep is bounded by the nesting of its arguments *)

Lemma items_below (items : list value) (named : props) (b : nat) :
  depth (VArr items named) <= b -> Forall (fun x => depth x < b) items.
Proof.
  cbn [depth]. intros H.
  assert (Hm : list_max (map depth items) <= pred b) by lia.
  apply list_max_le in Hm. rewrite Forall_map in Hm.
  eapply Forall_impl; [|exact Hm]. cbv beta. intros; lia.
Qed.

Lemma named_below (items : list value) (named : props) (b : nat) :
  depth (VArr items named) <= b -> below b named.
Proof.
  cbn [depth]. intros H.
  assert (Hm : list_max (map snd_depth named) <= pred b) by (unfold snd_depth; lia).
  apply list_max_le in Hm. rewrite Forall_map in Hm.
  eapply Forall_impl; [|exact Hm]. cbv beta. intros; lia.
Qed.

Lemma fields_below (fields : props) (b : nat) :
  depth (VObj fields) <= b -> below b fields.
Proof.
  cbn [depth]. intros H.
  assert (Hm : list_max (map snd_depth fields) <= pred b) by (unfold snd_depth; lia).
  apply list_max_le in Hm. rewrite Forall_map in Hm.
  eapply Forall_impl; [|exact Hm]. cbv beta. intros; lia.
Qed.

Lemma proto_below (p : value) (fields : props) (b : nat) :
  depth (VProto p fields) <= b -> depth p < b /\ below b fields.
Proof.
  cbn [depth]. intros H. split; [lia|].
  assert (Hm : list_max (map snd_depth fields) <= pred b) by (unfold snd_depth; lia).
  apply list_max_le in Hm. rewrite Forall_map in Hm.
  eapply Forall_impl; [|exact Hm]. cbv beta. intros; lia.
Qed.

Lemma below_depth_VProto (p : value) (fields : props) (b : nat) :
  depth p < b -> below b fields -> depth (VProto p fields) <= b.
Proof.
  intros Hp H. cbn [depth].
  assert (Hm : list_max (map snd_depth fields) <= pred b).
  { apply list_max_le. rewrite Forall_map.
    eapply Forall_impl; [|exact H]. cbv beta. intros; lia. }
  unfold snd_depth in Hm. lia.
Qed.

Lemma below_depth_VObj (fields : props) (b : nat) :
  0 < b -> below b fields -> depth (VObj fields) <= b.
Proof.
  intros Hpos H. cbn [depth].
  assert (Hm : list_max (map snd_depth fields) <= pred b).
  { apply list_max_le. rewrite Forall_map.
    eapply Forall_impl; [|exact H]. cbv beta. intros; lia. }
  unfold snd_depth in Hm. lia.
Qed.

Lemma below_depth_VArr (items : list value) (b : nat) :
  0 < b -> Forall (fun x => depth x < b) items -> depth (VArr items []) <= b.
Proof.
  intros Hpos H. cbn [depth map]. change (list_max []) with 0.
  assert (Hm : list_max (map depth items) <= pred b).
  { apply list_max_le. rewrite Forall_map.
    eapply Forall_impl; [|exact H]. cbv beta. intros; lia. }
  lia.
Qed.

Lemma below_lookup (b : nat) (o : props) (k : string) (v : value) :
  below b o -> lookup k o = Some v -> depth v < b.
Proof.
  intros H. induction H as [|[k' v'] o Hkv _ IH]; simpl; [discriminate|].
  destruct (k =? k'); [intros [= <-]; exact Hkv | exact IH].
Qed.

Lemma below_set_prop (b : nat) (o : props) (k : string) (v : value) :
  below b o -> depth v < b -> below b (set_prop o k v).
Proof.
  intros H Hv. induction H as [|[k' v'] o Hkv Ho IH]; simpl.
  - repeat constructor. exact Hv.
  - destruct (k =? k'); constructor; assumption.
Qed.

Lemma below_indexed {A : Type} (wrap : A -> value) (b : nat) (l : list A) :
  Forall (fun x => depth (wrap x) < b) l -> forall i, below b (indexed wrap i l).
Proof.
  induction 1 as [|x l Hx _ IH]; intros i; simpl; constructor;
    [exact Hx | apply IH].
Qed.

(** The own properties of a value are nested less deep than the value, a
    string's code units apart, which are not nested at all. *)
Lemma below_own_entries (v : value) (b : nat) :
  0 < b -> depth v <= b -> below b (own_entries v).
Proof.
  intros Hpos Hd. destruct v; cbn [own_entries]; try constructor.
  - apply below_indexed. apply Forall_forall. intros c _. exact Hpos.
  - apply Forall_app. split.
    + apply below_indexed. now apply items_below with (named := named).
    + now apply named_below with (items := items).
  - now apply fields_below.
  - now apply proto_below with (p := v).
Qed.

Lemma depth_get (v : value) (k : string) :
  forall b, 0 < b -> depth v <= b -> depth (get v k) < b.
Proof.
  assert (Hown : forall v b, 0 < b -> depth v <= b ->
            depth (match lookup k (own_entries v) with
                   | Some x => x
                   | None => VUndefined
                   end) < b).
  { intros w b Hpos Hd.
    destruct (lookup k (own_entries w)) eqn:E; [|exact Hpos].
    eapply below_lookup; [|exact E]. now apply below_own_entries. }
  induction v as [| |bb|n|s|items named|fields|p IH fields]; intros b Hpos Hd;
    try (now apply Hown).
  cbn [get]. destruct (lookup k fields) eqn:E.
  - eapply below_lookup; [|exact E]. now apply proto_below with (p := p).
  - apply IH; [exact Hpos|]. apply proto_below in Hd. lia.
Qed.

Lemma isObject_depth (v : value) : isObject v = true -> 0 < depth v.
Proof.
  unfold isObject. destruct v; cbn [is_object_type typeof depth];
    rewrite ?andb_false_r; try discriminate; lia.
Qed.

Lemma isObject_not_nullish (v : value) : isObject v = true -> not_nullish v = true.
Proof.
  unfold isObject. destruct v; cbn [truthy not_nullish andb];
    try discriminate; reflexivity.
Qed.

Lemma concat_spread_below (p o : list value) (b : nat) :
  Forall (fun x => depth x < b) p -> Forall (fun x => depth x < b) o ->
  Forall (fun x => depth x < b) (concat_spread p o).
Proof.
  intros Hp Ho. unfold concat_spread. apply Forall_app. split; [exact Hp|].
  induction Ho as [|e o He _ IH]; simpl; [constructor|].
  apply Forall_app. split; [|exact IH].
  destruct e; try (repeat constructor; exact He).
  eapply Forall_impl; [|apply items_below with (named := named) (b := pred b); lia].
  cbv beta. intros; lia.
Qed.


Lemma depth_to_value (prev : object) (b : nat) :
  0 < b -> below b (own prev) -> (forall p, proto prev = Some p -> depth p < b) ->
  depth (to_value prev) <= b.
Proof.
  intros Hpos Hown Hp. unfold to_value. destruct (proto prev) as [p|].
  - apply below_depth_VProto; [now apply Hp | exact Hown].
  - now apply below_depth_VObj.
Qed.

(** What the accumulator holds or inherits is nested less deep than its
    bound; the getter may return [Object.prototype] instead. *)
Lemma accumulator_get_depth (prev : object) (key : string) (b : nat) :
  0 < b -> below b (own prev) -> (forall p, proto prev = Some p -> depth p < b) ->
  depth (accumulator_get prev key) < b \/ accumulator_get prev key = Object_prototype.
Proof.
  intros Hpos Hown Hp. unfold accumulator_get.
  destruct (is_accessor prev key).
  - destruct (proto prev) as [p|]; [left; now apply Hp | now right].
  - left. apply depth_get; [exact Hpos|]. now apply depth_to_value.
Qed.

Lemma accumulator_set_below (prev : object) (key : string) (x : value) (b : nat) :
  below b (own prev) -> (forall p, proto prev = Some p -> depth p < b) -> depth x < b ->
  below b (own (accumulator_set prev key x)) /\
  (forall p, proto (accumulator_set prev key x) = Some p -> depth p < b).
Proof.
  intros Hown Hp Hx. unfold accumulator_set.
  destruct (is_accessor prev key).
  - destruct (is_object_type x); [|now split].
    cbn [own proto]. split; [exact Hown|]. now intros p [= <-].
  - cbn [own proto]. split; [now apply below_set_prop | exact Hp].
Qed.

Section MergeTotal.
Variable recur : list value -> option (completion value).
Variable b : nat.
Hypothesis recur_total :
  forall p o, isObject p = true -> isObject o = true ->
              depth p < b -> depth o < b ->
              exists r, recur [p; o] = Some (Normal r) /\ depth r < b.

Lemma merge_key_total (prev : object) (obj : value) (key : string) :
  0 < b -> below b (own prev) -> (forall p, proto prev = Some p -> depth p < b) ->
  depth (get obj key) < b ->
  exists prev', merge_key recur prev obj key = Some (Normal prev') /\
                below b (own prev') /\
                (forall p, proto prev' = Some p -> depth p < b).
Proof.
  intros Hpos Hown Hproto Ho.
  pose proof (accumulator_get_depth prev key b Hpos Hown Hproto) as Hp.
  unfold merge_key.
  destruct (Array_isArray (accumulator_get prev key) && Array_isArray (get obj key)) eqn:Ea.
  - eexists. split; [reflexivity|]. apply accumulator_set_below; try assumption.
    apply andb_true_iff in Ea. destruct Ea as [Ea1 Ea2].
    destruct Hp as [Hp|Hp]; [|rewrite Hp in Ea1; discriminate].
    destruct (accumulator_get prev key) as [| | | | |p np| |]; try discriminate.
    destruct (get obj key) as [| | | | |o no| |]; try discriminate.
    cbn [elements].
    assert (Hb : 0 < pred b) by (cbn [depth] in Hp; lia).
    assert (H : depth (VArr (concat_spread p o) []) <= pred b).
    { apply below_depth_VArr; [exact Hb|].
      apply concat_spread_below;
        [apply items_below with (named := np) | apply items_below with (named := no)];
        lia. }
    lia.
  - destruct (isObject (accumulator_get prev key) && isObject (get obj key)) eqn:Eo.
    + apply andb_true_iff in Eo. destruct Eo as [Eo1 Eo2].
      assert (Hp' : depth (accumulator_get prev key) < b).
      { destruct Hp as [Hp|Hp]; [exact Hp|]. rewrite Hp.
        apply isObject_depth in Eo2. cbn. lia. }
      destruct (recur_total _ _ Eo1 Eo2 Hp' Ho) as (r & -> & Hr).
      eexists. split; [reflexivity|]. now apply accumulator_set_below.
    + eexists. split; [reflexivity|]. now apply accumulator_set_below.
Qed.

Lemma forEach_key_total (obj : value) (keys : list string) :
  0 < b -> (forall k, depth (get obj k) < b) ->
  forall prev, below b (own prev) -> (forall p, proto prev = Some p -> depth p < b) ->
  exists prev', forEach_key recur prev obj keys = Some (Normal prev') /\
                below b (own prev') /\
                (forall p, proto prev' = Some p -> depth p < b).
Proof.
  intros Hpos Hobj. induction keys as [|key keys IH]; intros prev Hown Hproto; simpl.
  - eauto.
  - destruct (merge_key_total prev obj key Hpos Hown Hproto (Hobj key))
      as (p1 & -> & Hown1 & Hproto1).
    now apply IH.
Qed.

Lemma reduce_objects_total (objects : list value) :
  Forall (fun o => not_nullish o = true /\ depth o <= b) objects -> 0 < b ->
  forall prev, below b (own prev) -> (forall p, proto prev = Some p -> depth p < b) ->
  exists prev', reduce_objects recur prev objects = Some (Normal prev') /\
                below b (own prev') /\
                (forall p, proto prev' = Some p -> depth p < b).
Proof.
  intros Hall Hpos.
  induction Hall as [|obj objects [Hn Hd] _ IH]; intros prev Hown Hproto; simpl.
  - eauto.
  - assert (Hkeys : exists keys, Object_keys obj = Normal keys)
      by (destruct obj; try discriminate; cbn; eauto).
    destruct Hkeys as [keys ->].
    destruct (forEach_key_total obj keys Hpos) with (prev := prev)
      as (p1 & -> & Hown1 & Hproto1);
      [intros k; now apply depth_get | exact Hown | exact Hproto |].
    now apply IH.
Qed.

End MergeTotal.

Lemma mergeDeep_fuel_unfold (n : nat) (objects : list value) :
  mergeDeep_fuel (S n) objects =
  match reduce_objects (mergeDeep_fuel n) (plain []) objects with
  | Some (Normal prev) => Some (Normal (to_value prev))
  | Some (Throw e) => Some (Throw e)
  | None => None
  end.
Proof. reflexivity. Qed.

(** The calls nest as deep as the two arguments are nested under a common
    key: on two chains that are nested at least as deep as the stack has
    room, the recursion runs out of stack. *)
Lemma mergeDeep_fuel_overflows (limit n : nat) :
  limit <= n -> mergeDeep_fuel limit [nested n; nested n] = None.
Proof.
  revert n. induction limit as [|limit IH]; intros n Hn; [reflexivity|].
  destruct n as [|n]; [lia|].
  rewrite mergeDeep_fuel_unfold.
  assert (Hobj : isObject (nested n) = true) by now destruct n.
  assert (Harr : Array_isArray (nested n) = false) by now destruct n.
  cbn [nested reduce_objects Object_keys own_entries map fst nodup].
  change (if in_dec string_dec "a" [] then [] else ["a"]) with ["a"].
  cbn [forEach_key].
  unfold merge_key at 1. cbv zeta.
  change (accumulator_get (plain []) "a") with VUndefined.
  change (get (VObj [("a", nested n)]) "a") with (nested n).
  cbn [Array_isArray andb]. change (isObject VUndefined) with false. cbn [andb].
  change (accumulator_set (plain []) "a" (nested n)) with (plain [("a", nested n)]).
  cbn [forEach_key]. unfold merge_key. cbv zeta.
  change (accumulator_get (plain [("a", nested n)]) "a") with (nested n).
  change (get (VObj [("a", nested n)]) "a") with (nested n).
  rewrite Harr, Hobj. cbn [andb].
  rewrite IH by lia. reflexivity.
Qed.

Lemma mergeDeep_fuel_inv (n : nat) (objects : list value) (doc : value) :
  mergeDeep_fuel n objects = Some (Normal doc) ->
  exists m prev, n = S m /\
    reduce_objects (mergeDeep_fuel m) (plain []) objects = Some (Normal prev) /\
    doc = to_value prev.
Proof.
  destruct n as [|m]; [discriminate|]. rewrite mergeDeep_fuel_unfold.
  destruct (reduce_objects _ _ _) as [[prev|e]|] eqn:E; try discriminate.
  intros [= <-]. exists m, prev. auto.
Qed.

(** With room for one call more than the arguments are nested, [mergeDeep]
    returns, and what it returns is nested no deeper than they are (an
    object, so one level at least). *)
Lemma mergeDeep_fuel_enough (n : nat) :
  forall objects,
  Forall (fun o => not_nullish o = true /\ depth o <= n) objects ->
  exists prev, reduce_objects (mergeDeep_fuel n) (plain []) objects = Some (Normal prev) /\
               mergeDeep_fuel (S n) objects = Some (Normal (to_value prev)) /\
               depth (to_value prev) <= Nat.max n 1.
Proof.
  induction n as [|n IH]; intros objects Hall.
  - destruct (reduce_objects_total (mergeDeep_fuel 0) 1)
      with (objects := objects) (prev := plain [])
      as (r & Hr & Hown & Hproto).
    + intros p o Hp _ Hdp _. apply isObject_depth in Hp. lia.
    + eapply Forall_impl; [|exact Hall]. cbv beta. intros a [? ?]. split; [assumption | lia].
    + lia.
    + constructor.
    + discriminate.
    + exists r. split; [exact Hr|]. split.
      * now rewrite mergeDeep_fuel_unfold, Hr.
      * apply depth_to_value; [lia | exact Hown | exact Hproto].
  - destruct (reduce_objects_total (mergeDeep_fuel (S n)) (S n))
      with (objects := objects) (prev := plain [])
      as (r & Hr & Hown & Hproto).
    + intros p o Hp Ho Hdp Hdo.
      destruct (IH [p; o]) as (r & _ & Hr & Hd).
      * repeat constructor; try (now apply isObject_not_nullish); lia.
      * exists (to_value r). split; [exact Hr|]. apply isObject_depth in Hp. lia.
    + exact Hall.
    + lia.
    + constructor.
    + discriminate.
    + exists r. split; [exact Hr|]. split.
      * now rewrite mergeDeep_fuel_unfold, Hr.
      * apply Nat.le_trans with (S n); [|lia].
        apply depth_to_value; [lia | exact Hown | exact Hproto].
Qed.

Lemma depth_le_list_max (objects : list value) :
  Forall (fun o => depth o <= list_max (map depth objects)) objects.
Proof.
  assert (H : list_max (map depth objects) <= list_max (map depth objects)) by lia.
  apply list_max_le in H. now rewrite Forall_map in H.
Qed.

(** [mergeDeep] returns an object whenever none of its arguments is [null]
    or [undefined]. *)
Lemma mergeDeep_returns (objects : list value) :
  Forall (fun o => not_nullish o = true) objects ->
  exists prev,
    mergeDeep objects = Normal (to_value prev) /\
    reduce_objects (mergeDeep_fuel (list_max (map depth objects))) (plain []) objects
    = Some (Normal prev).
Proof.
  intros Hall.
  destruct (mergeDeep_fuel_enough (list_max (map depth objects)) objects)
    as (prev & Hr & Hf & _).
  - pose proof (depth_le_list_max objects) as Hd.
    rewrite Forall_forall in *. intros o Ho. split; auto.
  - exists prev. unfold mergeDeep. now rewrite Hf.
Qed.

Lemma Object_keys_not_nullish (v : value) :
  not_nullish v = true ->
  Object_keys v = Normal (nodup string_dec (map fst (own_entries v))).
Proof. destruct v; try discriminate; reflexivity. Qed.

Lemma lookup_keys_copy (v : value) (k : string) :
  lookup k (map (fun key => (key, get v key)) (nodup string_dec (map fst (own_entries v))))
  = lookup k (own_entries v).
Proof.
  rewrite lookup_copy.
  destruct (lookup k (own_entries v)) as [x|] eqn:E.
  - rewrite (get_own _ _ _ E).
    destruct (in_dec string_dec k (nodup string_dec (map fst (own_entries v)))) as [_|Hn];
      [reflexivity|].
    exfalso. apply Hn. apply nodup_In.
    destruct (in_dec string_dec k (map fst (own_entries v))) as [Hin|Hnot]; [exact Hin|].
    apply lookup_None_not_In in Hnot. congruence.
  - destruct (in_dec string_dec k (nodup string_dec (map fst (own_entries v)))) as [Hin|_];
      [|reflexivity].
    apply nodup_In in Hin. apply lookup_None_not_In in E. contradiction.
Qed.

Lemma has_key_In (v : value) (k : string) :
  has_key v k = true <-> In k (nodup string_dec (map fst (own_entries v))).
Proof.
  unfold has_key. rewrite nodup_In.
  destruct (lookup k (own_entries v)) eqn:E.
  - split; [intros _|reflexivity].
    destruct (in_dec string_dec k (map fst (own_entries v))) as [Hin|Hnot]; [exact Hin|].
    apply lookup_None_not_In in Hnot. congruence.
  - apply lookup_None_not_In in E. split; [discriminate | contradiction].
Qed.

Lemma has_key_not_In (v : value) (k : string) :
  has_key v k = false <-> ~ In k (nodup string_dec (map fst (own_entries v))).
Proof.
  rewrite <- has_key_In. destruct (has_key v k); split; congruence.
Qed.


(** *** More room on the stack changes nothing *)

Section MergeMonotone.
Variables recur1 recur2 : list value -> option (completion value).
Hypothesis recur_le : forall l c, recur1 l = Some c -> recur2 l = Some c.

Lemma merge_key_mono (prev : object) (obj : value) (key : string) (c : completion object) :
  merge_key recur1 prev obj key = Some c -> merge_key recur2 prev obj key = Some c.
Proof.
  unfold merge_key.
  destruct (Array_isArray _ && Array_isArray _); [easy|].
  destruct (isObject _ && isObject _); [|easy].
  destruct (recur1 _) as [c1|] eqn:E; [|discriminate].
  now rewrite (recur_le _ _ E).
Qed.

Lemma forEach_key_mono (obj : value) (keys : list string) :
  forall prev c,
  forEach_key recur1 prev obj keys = Some c -> forEach_key recur2 prev obj keys = Some c.
Proof.
  induction keys as [|key keys IH]; intros prev c; simpl; [easy|].
  destruct (merge_key recur1 prev obj key) as [c1|] eqn:E; [|discriminate].
  rewrite (merge_key_mono _ _ _ _ E). destruct c1; [apply IH | easy].
Qed.

Lemma reduce_objects_mono (objects : list value) :
  forall prev c,
  reduce_objects recur1 prev objects = Some c -> reduce_objects recur2 prev objects = Some c.
Proof.
  induction objects as [|obj objects IH]; intros prev c; simpl; [easy|].
  destruct (Object_keys obj) as [keys|e]; [|easy].
  destruct (forEach_key recur1 prev obj keys) as [c1|] eqn:E; [|discriminate].
  rewrite (forEach_key_mono _ _ _ _ E). destruct c1; [apply IH | easy].
Qed.

End MergeMonotone.

Lemma mergeDeep_fuel_S (n : nat) :
  forall objects c,
  mergeDeep_fuel n objects = Some c -> mergeDeep_fuel (S n) objects = Some c.
Proof.
  induction n as [|n IH]; intros objects c H; [discriminate|].
  rewrite mergeDeep_fuel_unfold in *.
  destruct (reduce_objects (mergeDeep_fuel n) (plain []) objects) as [c0|] eqn:E;
    [|discriminate].
  now rewrite (reduce_objects_mono (mergeDeep_fuel n) (mergeDeep_fuel (S n)) IH _ _ _ E).
Qed.

Lemma mergeDeep_fuel_le (n m : nat) (objects : list value) (c : completion value) :
  n <= m -> mergeDeep_fuel n objects = Some c -> mergeDeep_fuel m objects = Some c.
Proof.
  induction 1 as [|m _ IH]; [easy|]. intros H. now apply mergeDeep_fuel_S, IH.
Qed.

Lemma forEach_key_fuel_le (n m : nat) (obj : value) (keys : list string)
    (prev : object) (c : completion object) :
  n <= m -> forEach_key (mergeDeep_fuel n) prev obj keys = Some c ->
  forEach_key (mergeDeep_fuel m) prev obj keys = Some c.
Proof.
  intros Hle. apply forEach_key_mono. intros l c'. now apply mergeDeep_fuel_le.
Qed.

Lemma reduce_objects_Normal (recur : list value -> option (completion value))
    (objects : list value) :
  forall prev r,
  reduce_objects recur prev objects = Some (Normal r) ->
  Forall (fun o => not_nullish o = true) objects.
Proof.
  induction objects as [|obj objects IH]; intros prev r H; [constructor|].
  cbn [reduce_objects] in H.
  destruct obj; cbn [Object_keys] in H; try discriminate;
    (constructor; [reflexivity|]);
    (destruct (forEach_key _ _ _ _) as [[p1|e]|]; try discriminate; eapply IH; exact H).
Qed.

(** Whatever a run on a bounded stack returns is what [mergeDeep] returns. *)
Lemma mergeDeep_fuel_sound (n : nat) (objects : list value) (doc : value) :
  mergeDeep_fuel n objects = Some (Normal doc) -> mergeDeep objects = Normal doc.
Proof.
  intros H. unfold mergeDeep.
  destruct (mergeDeep_fuel (S (list_max (map depth objects))) objects) as [c|] eqn:E.
  - pose proof (mergeDeep_fuel_le _ (Nat.max n (S (list_max (map depth objects)))) _ _
                  (Nat.le_max_l _ _) H) as H1.
    pose proof (mergeDeep_fuel_le _ (Nat.max n (S (list_max (map depth objects)))) _ _
                  (Nat.le_max_r _ _) E) as H2.
    rewrite H1 in H2. now injection H2 as <-.
  - exfalso.
    assert (Hall : Forall (fun o => not_nullish o = true) objects).
    { destruct (mergeDeep_fuel_inv _ _ _ H) as (m & prev & -> & Hr & _).
      now apply reduce_objects_Normal with (1 := Hr). }
    destruct (mergeDeep_returns objects Hall) as (prev & Hm & Hr).
    rewrite mergeDeep_fuel_unfold, Hr in E. discriminate.
Qed.

Lemma mergeDeep_Normal (objects : list value) (doc : value) :
  mergeDeep objects = Normal doc ->
  exists prev, doc = to_value prev /\ NoDup (map fst (own prev)) /\
               reduce_objects (mergeDeep_fuel (list_max (map depth objects))) (plain []) objects
               = Some (Normal prev).
Proof.
  unfold mergeDeep. rewrite mergeDeep_fuel_unfold.
  destruct (reduce_objects _ _ objects) as [[prev|e]|] eqn:E; try discriminate.
  intros H. injection H as <-. exists prev. split; [reflexivity|]. split; [|reflexivity].
  apply (reduce_objects_NoDup _ _ _ _ E). constructor.
Qed.

(** *** What merging keeps *)

Lemma mergeDeep_two (a b : value) :
  not_nullish a = true -> not_nullish b = true ->
  exists p1 prev n,
    mergeDeep [a; b] = Normal (to_value prev) /\
    forEach_key (mergeDeep_fuel n) (plain []) a
      (nodup string_dec (map fst (own_entries a))) = Some (Normal p1) /\
    forEach_key (mergeDeep_fuel n) p1 b
      (nodup string_dec (map fst (own_entries b))) = Some (Normal prev).
Proof.
  intros Ha Hb.
  destruct (mergeDeep_returns [a; b]) as (prev & Hm & Hr); [repeat constructor; assumption|].
  cbn [reduce_objects] in Hr.
  rewrite (Object_keys_not_nullish a Ha), (Object_keys_not_nullish b Hb) in Hr.
  destruct (forEach_key _ _ a _) as [[p1|e]|] eqn:E1; try discriminate.
  destruct (forEach_key _ _ b _) as [[p2|e]|] eqn:E2; try discriminate.
  injection Hr as <-. exists p1, p2. eauto.
Qed.

(** Merging [a] with [b] when [a] has no key [__proto__]: the properties of
    [a] are copied, then those of [b] merged in. *)
Lemma mergeDeep_first_copied (a b : value) :
  not_nullish a = true -> not_nullish b = true -> has_key a "__proto__" = false ->
  exists prev n,
    mergeDeep [a; b] = Normal (to_value prev) /\
    forEach_key (mergeDeep_fuel n)
      (plain (map (fun key => (key, get a key)) (nodup string_dec (map fst (own_entries a)))))
      b (nodup string_dec (map fst (own_entries b))) = Some (Normal prev).
Proof.
  intros Ha Hb Hp. destruct (mergeDeep_two a b Ha Hb) as (p1 & prev & n & Hm & E1 & E2).
  rewrite forEach_key_fresh in E1;
    [| apply NoDup_nodup | now apply has_key_not_In | reflexivity].
  cbn [app] in E1. injection E1 as <-. eauto.
Qed.

(** Enrichment leaves alone what the second object does not mention: merging
    [a], which has no key [__proto__], with [b] keeps, under every key that
    [b] does not have, exactly what [a] has there. *)
Lemma mergeDeep_keeps (a b : value) (k : string) :
  not_nullish a = true -> not_nullish b = true -> has_key a "__proto__" = false ->
  has_key b k = false ->
  exists prev, mergeDeep [a; b] = Normal (to_value prev) /\
               lookup k (own prev) = lookup k (own_entries a).
Proof.
  intros Ha Hb Hp Hk.
  destruct (mergeDeep_first_copied a b Ha Hb Hp) as (prev & n & Hm & Hrun).
  exists prev. split; [exact Hm|].
  rewrite (forEach_key_other _ _ k _ _ _ Hrun) by now apply has_key_not_In.
  apply lookup_keys_copy.
Qed.

(** The same under one key, whatever keys [a] has, for a value of [a] that is
    neither an object nor an array. *)
Lemma mergeDeep_keeps_scalar (a b : value) (k : string) :
  not_nullish a = true -> not_nullish b = true -> k <> "__proto__" ->
  has_key b k = false ->
  (forall x, lookup k (own_entries a) = Some x -> isObject x = false) ->
  exists prev, mergeDeep [a; b] = Normal (to_value prev) /\
               lookup k (own prev) = lookup k (own_entries a).
Proof.
  intros Ha Hb Hproto Hk Hscalar.
  destruct (mergeDeep_two a b Ha Hb) as (p1 & prev & n & Hm & E1 & E2).
  exists prev. split; [exact Hm|].
  rewrite (forEach_key_other _ _ k _ _ _ E2) by now apply has_key_not_In.
  destruct (lookup k (own_entries a)) as [x|] eqn:E.
  - assert (Hg : get a k = x) by now apply get_own.
    rewrite <- Hg.
    eapply forEach_key_scalar; [apply NoDup_nodup | | | | exact E1].
    + apply has_key_In. unfold has_key. now rewrite E.
    + exact Hproto.
    + rewrite Hg. now apply Hscalar.
  - rewrite (forEach_key_other _ _ k _ _ _ E1); [reflexivity|].
    apply has_key_not_In. unfold has_key. now rewrite E.
Qed.

(** What a document owns under a key is what it reads there. *)
Lemma to_value_get_own (prev : object) (k : string) (x : value) :
  lookup k (own prev) = Some x ->
  get (to_value prev) k = x /\ has_key (to_value prev) k = true.
Proof.
  intros H. destruct (to_value_object prev) as (_ & _ & Hown).
  split; [apply get_own; now rewrite Hown | unfold has_key; now rewrite Hown, H].
Qed.

Lemma to_value_has_key (prev : object) (k : string) :
  has_key (to_value prev) k = match lookup k (own prev) with Some _ => true | None => false end.
Proof.
  destruct (to_value_object prev) as (_ & _ & Hown). unfold has_key. now rewrite Hown.
Qed.

Lemma mergeDeep_nullish (v bad : value) :
  not_nullish v = true -> not_nullish bad = false ->
  mergeDeep [v; bad] = Throw TypeError.
Proof.
  intros Hv Hbad. unfold mergeDeep. rewrite mergeDeep_fuel_unfold.
  set (n := list_max (map depth [v; bad])).
  destruct (mergeDeep_fuel_enough n [v]) as (prev & Hr & _).
  { repeat constructor; [exact Hv|]. subst n. unfold list_max. cbn [map fold_right]. lia. }
  cbn [reduce_objects] in Hr |- *.
  destruct (Object_keys v) as [keys|e]; [|discriminate].
  destruct (forEach_key _ _ v keys) as [[p1|e]|]; try discriminate.
  now destruct bad.
Qed.


(** *** Merging two objects, key by key *)

Lemma merge_key_stores (n : nat) (prev : props) (obj : value) (key : string)
    (prev' : object) :
  key <> "__proto__" ->
  merge_key (mergeDeep_fuel n) (plain prev) obj key = Some (Normal prev') ->
  exists x, merge_values (get (VObj prev) key) (get obj key) = Normal x /\
            prev' = plain (set_prop prev key x).
Proof.
  intros Hkey. unfold merge_key, merge_values.
  rewrite (accumulator_get_plain _ _ Hkey).
  destruct (Array_isArray _ && Array_isArray _).
  - intros H. injection H as <-. rewrite accumulator_set_plain by exact Hkey. eauto.
  - destruct (isObject _ && isObject _).
    + destruct (mergeDeep_fuel n _) as [[merged|e]|] eqn:E; try discriminate.
      intros H. injection H as <-.
      rewrite (mergeDeep_fuel_sound _ _ _ E), accumulator_set_plain by exact Hkey. eauto.
    + intros H. injection H as <-. rewrite accumulator_set_plain by exact Hkey. eauto.
Qed.

Lemma forEach_key_stores (n : nat) (obj : value) (k : string) (keys : list string) :
  forall prev prev',
  NoDup keys -> ~ In "__proto__" keys -> In k keys ->
  forEach_key (mergeDeep_fuel n) (plain prev) obj keys = Some (Normal prev') ->
  exists x, merge_values (get (VObj prev) k) (get obj k) = Normal x /\
            lookup k (own prev') = Some x.
Proof.
  induction keys as [|key keys IH]; intros prev prev' Hnd Hproto Hin Hrun; [contradiction|].
  simpl in Hrun.
  destruct (merge_key (mergeDeep_fuel n) (plain prev) obj key) as [[p1|e]|] eqn:Hk;
    try discriminate.
  inversion Hnd as [|? ? Hnotin Hnd']; subst.
  assert (Hkey : key <> "__proto__") by (intros ->; apply Hproto; now left).
  destruct (merge_key_stores _ _ _ _ _ Hkey Hk) as (y & Hy & ->).
  destruct (string_dec key k) as [->|Hne].
  - exists y. split; [exact Hy|].
    rewrite (forEach_key_other _ _ k _ _ _ Hrun Hnotin).
    cbn [plain own]. apply lookup_set_prop_same.
  - destruct Hin as [Heq|Hin]; [contradiction|].
    destruct (IH _ prev' Hnd' (fun H => Hproto (or_intror H)) Hin Hrun) as (x & Hx & Hl).
    exists x. split; [|exact Hl].
    cbn [get own_entries] in Hx |- *.
    rewrite lookup_set_prop_other in Hx by congruence. exact Hx.
Qed.

(** The deep merge of two objects without a key [__proto__], one key at a
    time: the result is a plain object; a key the second does not have keeps
    what the first has; a key it has holds the [merge_values] of the two. *)
Lemma mergeDeep_by_key (a b : value) (k : string) :
  not_nullish a = true -> not_nullish b = true ->
  has_key a "__proto__" = false -> has_key b "__proto__" = false ->
  exists r,
    mergeDeep [a; b] = Normal (VObj r) /\ NoDup (map fst r) /\
    lookup "__proto__" r = None /\
    (has_key b k = false -> lookup k r = lookup k (own_entries a)) /\
    (has_key b k = true ->
     exists x, lookup k r = Some x /\
               merge_values
                 (match lookup k (own_entries a) with Some y => y | None => VUndefined end)
                 (get b k) = Normal x).
Proof.
  intros Ha Hb Hpa Hpb.
  destruct (mergeDeep_first_copied a b Ha Hb Hpa) as (prev & n & Hm & Hrun).
  pose proof (forEach_key_proto _ _ _ _ _ Hrun (proj1 (has_key_not_In b _) Hpb)) as Hproto.
  cbn [plain proto] in Hproto.
  assert (Hv : to_value prev = VObj (own prev)) by (unfold to_value; now rewrite Hproto).
  exists (own prev). rewrite <- Hv. split; [exact Hm|]. split; [|split; [|split]].
  - apply (forEach_key_NoDup _ _ _ _ _ Hrun). cbn [plain own].
    rewrite map_map. cbn [fst]. rewrite map_id. apply NoDup_nodup.
  - rewrite (forEach_key_other _ _ "__proto__" _ _ _ Hrun) by now apply has_key_not_In.
    cbn [plain own]. rewrite lookup_keys_copy.
    unfold has_key in Hpa. now destruct (lookup "__proto__" (own_entries a)).
  - intros Hk.
    rewrite (forEach_key_other _ _ k _ _ _ Hrun) by now apply has_key_not_In.
    apply lookup_keys_copy.
  - intros Hk.
    destruct (forEach_key_stores n b k _ _ _ (NoDup_nodup _ _)
                (proj1 (has_key_not_In b _) Hpb) (proj1 (has_key_In b k) Hk) Hrun)
      as (x & Hx & Hl).
    exists x. split; [exact Hl|].
    cbn [get own_entries] in Hx. now rewrite lookup_keys_copy in Hx.
Qed.

(** *** Values without the key [__proto__] are merged into such a value *)

Lemma lookup_free (o : props) (k : string) (x : value) :
  forallb entry_free o = true -> lookup k o = Some x ->
  proto_free x = true /\ k <> "__proto__".
Proof.
  induction o as [|[k' v'] o IH]; cbn [forallb lookup entry_free]; [discriminate|].
  intros H. apply andb_true_iff in H. destruct H as [H Ho].
  apply andb_true_iff in H. destruct H as [Hk Hv].
  destruct (k =? k') eqn:E.
  - apply String.eqb_eq in E. subst k'. intros [= <-]. split; [exact Hv|].
    intros ->. now rewrite String.eqb_refl in Hk.
  - now apply IH.
Qed.

Lemma set_prop_free (o : props) (k : string) (x : value) :
  forallb entry_free o = true -> k <> "__proto__" -> proto_free x = true ->
  forallb entry_free (set_prop o k x) = true.
Proof.
  intros Ho Hk Hx. apply String.eqb_neq in Hk.
  induction o as [|[k' v'] o IH]; cbn [set_prop forallb entry_free].
  - now rewrite Hk, Hx.
  - cbn [forallb] in Ho. apply andb_true_iff in Ho. destruct Ho as [H Ho].
    destruct (k =? k'); cbn [forallb entry_free].
    + now rewrite Hk, Hx, Ho.
    + change (negb (k' =? "__proto__") && proto_free v') with (entry_free (k', v')).
      now rewrite H, IH.
Qed.

Lemma keys_free (o : props) :
  forallb entry_free o = true -> lookup "__proto__" o = None.
Proof.
  intros H. destruct (lookup "__proto__" o) as [x|] eqn:E; [|reflexivity].
  destruct (lookup_free _ _ _ H E) as [_ Hne]. congruence.
Qed.

Lemma indexed_free {A : Type} (wrap : A -> value) (l : list A) :
  forallb (fun x => proto_free (wrap x)) l = true ->
  forall i, forallb entry_free (indexed wrap i l) = true.
Proof.
  induction l as [|x l IH]; cbn [forallb]; intros H i; [reflexivity|].
  apply andb_true_iff in H. destruct H as [Hx Hl].
  cbn [indexed forallb entry_free].
  rewrite Hx, (IH Hl), String.eqb_sym, named_key_not_index by reflexivity.
  reflexivity.
Qed.

Lemma own_entries_free (v : value) :
  proto_free v = true -> forallb entry_free (own_entries v) = true.
Proof.
  destruct v; cbn [own_entries proto_free]; try reflexivity; try discriminate.
  - intros _. apply indexed_free. now induction (list_ascii_of_string s).
  - intros H. apply andb_true_iff in H. destruct H as [Hi Hn].
    rewrite forallb_app. apply andb_true_iff. split; [now apply indexed_free | exact Hn].
  - intros H. exact H.
Qed.

Lemma proto_free_standard (v : value) :
  proto_free v = true -> standard v = true /\ has_key v "__proto__" = false.
Proof.
  intros H. split; [now destruct v|].
  unfold has_key. now rewrite (keys_free _ (own_entries_free v H)).
Qed.

Lemma get_free (v : value) (k : string) :
  proto_free v = true -> proto_free (get v k) = true.
Proof.
  intros H. rewrite get_standard by now apply proto_free_standard.
  destruct (lookup k (own_entries v)) as [x|] eqn:E; [|reflexivity].
  now apply (lookup_free _ _ _ (own_entries_free v H) E).
Qed.

Lemma concat_spread_free (p o : list value) :
  forallb proto_free p = true -> forallb proto_free o = true ->
  forallb proto_free (concat_spread p o) = true.
Proof.
  intros Hp Ho. unfold concat_spread. rewrite forallb_app, Hp. cbn [andb].
  induction o as [|e o IH]; [reflexivity|].
  cbn [forallb flat_map] in *. apply andb_true_iff in Ho. destruct Ho as [He Ho].
  rewrite forallb_app, (IH Ho), andb_true_r.
  destruct e; cbn [forallb]; rewrite ?He; try reflexivity.
  cbn [proto_free] in He. apply andb_true_iff in He. now destruct He.
Qed.

Section MergeFree.
Variable recur : list value -> option (completion value).
Hypothesis recur_free :
  forall p o doc, proto_free p = true -> proto_free o = true ->
                  recur [p; o] = Some (Normal doc) -> proto_free doc = true.

Lemma merge_key_free (prev : props) (obj : value) (key : string) (prev' : object) :
  forallb entry_free prev = true -> proto_free obj = true -> has_key obj key = true ->
  merge_key recur (plain prev) obj key = Some (Normal prev') ->
  exists o', prev' = plain o' /\ forallb entry_free o' = true.
Proof.
  intros Hprev Hobj Hin.
  assert (Hkey : key <> "__proto__").
  { intros ->. destruct (proto_free_standard obj Hobj) as [_ H]. congruence. }
  assert (Ho : proto_free (get obj key) = true) by now apply get_free.
  assert (Hp : proto_free (get (VObj prev) key) = true) by now apply get_free.
  unfold merge_key. rewrite (accumulator_get_plain _ _ Hkey).
  generalize dependent (get (VObj prev) key). generalize dependent (get obj key).
  intros oVal Ho pVal Hp.
  destruct (Array_isArray pVal && Array_isArray oVal) eqn:Ea.
  - intros [= <-]. rewrite accumulator_set_plain by exact Hkey.
    eexists. split; [reflexivity|]. apply set_prop_free; [exact Hprev | exact Hkey |].
    apply andb_true_iff in Ea. destruct Ea as [Ea1 Ea2].
    destruct pVal as [| | | | |p np| |]; try discriminate.
    destruct oVal as [| | | | |o no| |]; try discriminate.
    cbn [elements proto_free forallb]. rewrite andb_true_r.
    cbn [proto_free] in Hp, Ho.
    apply andb_true_iff in Hp. apply andb_true_iff in Ho.
    destruct Hp as [Hp _]. destruct Ho as [Ho _].
    now apply concat_spread_free.
  - destruct (isObject pVal && isObject oVal).
    + destruct (recur _) as [[merged|e]|] eqn:E; try discriminate.
      intros [= <-]. rewrite accumulator_set_plain by exact Hkey.
      eexists. split; [reflexivity|]. apply set_prop_free; [exact Hprev | exact Hkey |].
      now apply (recur_free _ _ _ Hp Ho E).
    + intros [= <-]. rewrite accumulator_set_plain by exact Hkey.
      eexists. split; [reflexivity|]. now apply set_prop_free.
Qed.

Lemma forEach_key_free (obj : value) (keys : list string) :
  proto_free obj = true -> (forall k, In k keys -> has_key obj k = true) ->
  forall prev prev',
  forallb entry_free prev = true ->
  forEach_key recur (plain prev) obj keys = Some (Normal prev') ->
  exists o', prev' = plain o' /\ forallb entry_free o' = true.
Proof.
  intros Hobj. induction keys as [|key keys IH]; intros Hkeys prev prev' Hprev Hrun;
    simpl in Hrun.
  - injection Hrun as <-. eauto.
  - destruct (merge_key recur (plain prev) obj key) as [[p1|e]|] eqn:Hk; try discriminate.
    destruct (merge_key_free _ _ _ _ Hprev Hobj (Hkeys key (or_introl eq_refl)) Hk)
      as (o1 & -> & Ho1).
    apply (IH (fun k H => Hkeys k (or_intror H)) o1 prev' Ho1 Hrun).
Qed.

Lemma reduce_objects_free (objects : list value) :
  forallb proto_free objects = true ->
  forall prev prev',
  forallb entry_free prev = true ->
  reduce_objects recur (plain prev) objects = Some (Normal prev') ->
  exists o', prev' = plain o' /\ forallb entry_free o' = true.
Proof.
  induction objects as [|obj objects IH]; intros Hall prev prev' Hprev Hrun;
    cbn [reduce_objects] in Hrun.
  - injection Hrun as <-. eauto.
  - cbn [forallb] in Hall. apply andb_true_iff in Hall. destruct Hall as [Hobj Hall].
    destruct (Object_keys obj) as [keys|e] eqn:Ek; [|discriminate].
    destruct (forEach_key recur (plain prev) obj keys) as [[p1|e]|] eqn:Hk; try discriminate.
    assert (Hn : not_nullish obj = true) by (destruct obj; try discriminate; reflexivity).
    rewrite (Object_keys_not_nullish obj Hn) in Ek. injection Ek as <-.
    destruct (forEach_key_free obj _ Hobj (fun k H => proj2 (has_key_In obj k) H)
                _ _ Hprev Hk) as (o1 & -> & Ho1).
    apply (IH Hall o1 prev' Ho1 Hrun).
Qed.

End MergeFree.

Lemma mergeDeep_fuel_free (n : nat) :
  forall objects doc,
  forallb proto_free objects = true ->
  mergeDeep_fuel n objects = Some (Normal doc) ->
  exists r, doc = VObj r /\ forallb entry_free r = true.
Proof.
  induction n as [|n IH]; intros objects doc Hall H; [discriminate|].
  destruct (mergeDeep_fuel_inv _ _ _ H) as (m & prev & [= <-] & Hr & ->).
  assert (Hrec : forall p o doc, proto_free p = true -> proto_free o = true ->
            mergeDeep_fuel n [p; o] = Some (Normal doc) -> proto_free doc = true).
  { intros p o doc Hp Ho Hrun.
    destruct (IH [p; o] doc) as (r & -> & Hr'); [|exact Hrun|exact Hr'].
    cbn [forallb]. now rewrite Hp, Ho. }
  destruct (reduce_objects_free (mergeDeep_fuel n) Hrec objects Hall [] prev eq_refl Hr)
    as (o' & -> & Ho').
  exists o'. split; [reflexivity | exact Ho'].
Qed.

Lemma mergeDeep_proto_free (objects : list value) (doc : value) :
  forallb proto_free objects = true -> mergeDeep objects = Normal doc ->
  proto_free doc = true /\ exists r, doc = VObj r.
Proof.
  intros Hall H. unfold mergeDeep in H.
  destruct (mergeDeep_fuel _ objects) as [[d|e]|] eqn:E; try discriminate.
  injection H as <-.
  destruct (mergeDeep_fuel_free _ _ _ Hall E) as (r & -> & Hr).
  split; [exact Hr | eauto].
Qed.

(** *** Copies, keys and composition *)

(** Copying the properties of an object, key by key, gives them back. *)
Lemma copy_own_properties (o : props) :
  NoDup (map fst o) ->
  map (fun key => (key, get (VObj o) key)) (nodup string_dec (map fst o)) = o.
Proof.
  intros Hnd. rewrite (nodup_fixed_point string_dec Hnd).
  induction o as [|[k v] o IH]; [reflexivity|].
  cbn [map fst] in *. inversion Hnd as [|? ? Hnotin Hnd']; subst.
  f_equal.
  - cbn [get own_entries lookup]. now rewrite String.eqb_refl.
  - rewrite <- (IH Hnd') at 2. apply map_ext_in. intros k' Hin.
    f_equal. cbn [get own_entries lookup].
    destruct (k' =? k) eqn:E; [|reflexivity].
    apply String.eqb_eq in E. subst. contradiction.
Qed.

Lemma mergeDeep_fuel_copy (n : nat) (o : props) (rest : list value) :
  NoDup (map fst o) -> lookup "__proto__" o = None ->
  reduce_objects (mergeDeep_fuel n) (plain []) (VObj o :: rest)
  = reduce_objects (mergeDeep_fuel n) (plain o) rest.
Proof.
  intros Hnd Hp. cbn [reduce_objects Object_keys own_entries].
  rewrite forEach_key_fresh; [| apply NoDup_nodup | | reflexivity].
  - cbn [app]. now rewrite copy_own_properties.
  - rewrite nodup_In. now apply lookup_None_not_In.
Qed.

(** Merging an object without [__proto__] with nothing, or with the empty
    object on either side, gives a copy of it. *)
Lemma mergeDeep_copies (o : props) :
  NoDup (map fst o) -> lookup "__proto__" o = None ->
  mergeDeep [VObj o] = Normal (VObj o) /\
  mergeDeep [VObj o; VObj []] = Normal (VObj o) /\
  mergeDeep [VObj []; VObj o] = Normal (VObj o).
Proof.
  intros Hnd Hp. unfold mergeDeep. rewrite !mergeDeep_fuel_unfold. repeat split.
  - now rewrite mergeDeep_fuel_copy.
  - now rewrite mergeDeep_fuel_copy.
  - rewrite mergeDeep_fuel_copy by (constructor || reflexivity).
    cbn [reduce_objects Object_keys own_entries].
    rewrite forEach_key_fresh; [| apply NoDup_nodup | | reflexivity].
    + cbn [app reduce_objects]. now rewrite copy_own_properties.
    + rewrite nodup_In. now apply lookup_None_not_In.
Qed.

(** The keys of the merge of two values are those of the first together with
    those of the second. *)
Lemma mergeDeep_has_key (a b : value) (k : string) :
  not_nullish a = true -> not_nullish b = true ->
  has_key a "__proto__" = false -> has_key b "__proto__" = false ->
  exists r, mergeDeep [a; b] = Normal (VObj r) /\ NoDup (map fst r) /\
            has_key (VObj r) k = has_key a k || has_key b k.
Proof.
  intros Ha Hb Hpa Hpb.
  destruct (mergeDeep_by_key a b k Ha Hb Hpa Hpb) as (r & Hm & Hnd & _ & Hout & Hin).
  exists r. split; [exact Hm|]. split; [exact Hnd|].
  unfold has_key at 1. cbn [own_entries].
  destruct (has_key b k) eqn:Hk.
  - destruct (Hin eq_refl) as (x & -> & _). now rewrite orb_true_r.
  - rewrite (Hout eq_refl), orb_false_r. reflexivity.
Qed.

Lemma reduce_objects_app (recur : list value -> option (completion value))
    (l1 l2 : list value) :
  forall prev,
  reduce_objects recur prev (l1 ++ l2) =
  match reduce_objects recur prev l1 with
  | Some (Normal p) => reduce_objects recur p l2
  | other => other
  end.
Proof.
  induction l1 as [|obj l1 IH]; intros prev; cbn [app reduce_objects]; [reflexivity|].
  destruct (Object_keys obj) as [keys|e]; [|reflexivity].
  destruct (forEach_key recur prev obj keys) as [[p1|e]|]; [apply IH | reflexivity | reflexivity].
Qed.

(** Objects without a key [__proto__] leave the accumulator its prototype. *)
Lemma reduce_objects_plain (recur : list value -> option (completion value))
    (objects : list value) :
  Forall (fun o => has_key o "__proto__" = false) objects ->
  forall prev prev',
  reduce_objects recur prev objects = Some (Normal prev') ->
  proto prev' = proto prev /\
  lookup "__proto__" (own prev') = lookup "__proto__" (own prev).
Proof.
  induction 1 as [|obj objects Hobj _ IH]; intros prev prev' Hrun;
    cbn [reduce_objects] in Hrun.
  - now injection Hrun as <-.
  - destruct (Object_keys obj) as [keys|e] eqn:Ek; [|discriminate].
    destruct (forEach_key recur prev obj keys) as [[p1|e]|] eqn:Hk; try discriminate.
    assert (Hn : not_nullish obj = true) by (destruct obj; try discriminate; reflexivity).
    rewrite (Object_keys_not_nullish obj Hn) in Ek. injection Ek as <-.
    destruct (IH _ _ Hrun) as [-> ->]. split.
    + apply (forEach_key_proto _ _ _ _ _ Hk). now apply has_key_not_In.
    + apply (forEach_key_other _ _ _ _ _ _ Hk). now apply has_key_not_In.
Qed.

Lemma mergeDeep_fuel_lift (objects : list value) (n : nat) :
  Forall (fun o => not_nullish o = true) objects ->
  list_max (map depth objects) <= n ->
  exists prev, mergeDeep objects = Normal (to_value prev) /\
               reduce_objects (mergeDeep_fuel n) (plain []) objects = Some (Normal prev).
Proof.
  intros Hall Hn. destruct (mergeDeep_returns objects Hall) as (prev & Hm & Hf).
  exists prev. split; [exact Hm|].
  apply reduce_objects_mono with (recur1 := mergeDeep_fuel (list_max (map depth objects)));
    [|exact Hf].
  intros l c. now apply mergeDeep_fuel_le.
Qed.

(** Merging one more object in is merging it into the merge of the others. *)
Lemma mergeDeep_then (objects : list value) (c : value) :
  Forall (fun o => not_nullish o = true) objects ->
  Forall (fun o => has_key o "__proto__" = false) objects ->
  not_nullish c = true ->
  exists m, mergeDeep objects = Normal m /\
            mergeDeep (objects ++ [c]) = mergeDeep [m; c].
Proof.
  intros Hall Hfree Hc.
  destruct (mergeDeep_returns objects Hall) as (prev & Hm & Hr).
  destruct (mergeDeep_Normal _ _ Hm) as (prev0 & Hv & Hnd & Hr0).
  rewrite Hr in Hr0. injection Hr0 as <-.
  destruct (reduce_objects_plain _ _ Hfree _ _ Hr) as [Hproto Hkey].
  cbn [plain proto own lookup] in Hproto, Hkey.
  assert (Hplain : to_value prev = VObj (own prev)) by (unfold to_value; now rewrite Hproto).
  assert (Hprev : prev = plain (own prev)) by (destruct prev; cbn in *; now subst).
  exists (VObj (own prev)). rewrite <- Hplain. split; [exact Hm|]. rewrite Hplain.
  set (N := Nat.max (list_max (map depth (objects ++ [c])))
                    (Nat.max (list_max (map depth objects))
                             (list_max (map depth [VObj (own prev); c])))).
  destruct (mergeDeep_fuel_lift (objects ++ [c]) N) as (r1 & Hm1 & Hf1);
    [apply Forall_app; split; [exact Hall | now repeat constructor] | subst N; lia |].
  destruct (mergeDeep_fuel_lift objects N) as (r2 & Hm2 & Hf2);
    [exact Hall | subst N; lia |].
  destruct (mergeDeep_fuel_lift [VObj (own prev); c] N) as (r3 & Hm3 & Hf3);
    [now repeat constructor | subst N; lia |].
  rewrite Hm in Hm2. rewrite Hm1, Hm3. do 2 f_equal.
  rewrite reduce_objects_app, Hf2 in Hf1.
  rewrite (mergeDeep_fuel_copy N (own prev) [c] Hnd Hkey) in Hf3.
  assert (Hr2 : r2 = prev).
  { destruct (mergeDeep_Normal _ _ Hm) as (p & _ & _ & Hp).
    assert (H2 : reduce_objects (mergeDeep_fuel N) (plain []) objects = Some (Normal prev)).
    { apply reduce_objects_mono with (recur1 := mergeDeep_fuel (list_max (map depth objects)));
        [|exact Hr].
      intros l c0. apply mergeDeep_fuel_le. subst N. lia. }
    congruence. }
  subst r2. rewrite Hprev in Hf1. congruence.
Qed.

(** ** The line mapper *)

Lemma isObject_cases (v : value) :
  isObject v = true ->
  (exists items named, v = VArr items named) \/ (exists o, v = VObj o) \/
  (exists p o, v = VProto p o).
Proof.
  unfold isObject. destruct v; cbn [truthy is_object_type typeof andb];
    rewrite ?andb_false_r; try discriminate; eauto 6.
Qed.

Lemma standard_set (v : value) (k : string) (x : value) :
  standard (set v k x) = standard v.
Proof. now destruct v. Qed.

Lemma standard_delete (v : value) (k : string) :
  standard (delete v k) = standard v.
Proof. now destruct v. Qed.

Lemma isObject_set (v : value) (k : string) (x : value) :
  isObject (set v k x) = isObject v.
Proof. now destruct v. Qed.

Lemma isObject_delete (v : value) (k : string) :
  isObject (delete v k) = isObject v.
Proof. now destruct v. Qed.

Lemma isObject_object_type (v : value) :
  isObject v = true -> is_object_type v = true /\ v <> VNull.
Proof.
  intros H. destruct (isObject_cases v H) as [(i & n & ->)|[(o & ->)|(p & o & ->)]];
    split; (reflexivity || discriminate).
Qed.

Section MapperFacts.
Context {rt : Runtime}.

Lemma normalize_unfold (now : Z) (parsed : value) :
  Cli.normalize now parsed =
  bind (setDateTimeString now (with_message parsed))
       (fun ts => Normal (normalized parsed ts)).
Proof. reflexivity. Qed.

Ltac other_keys :=
  repeat first
    [ rewrite get_set_other by discriminate
    | rewrite get_delete_other by discriminate
    | rewrite has_key_set_other by discriminate
    | rewrite has_key_delete_other by discriminate ].

Lemma isObject_with_message (parsed : value) :
  isObject (with_message parsed) = isObject parsed.
Proof.
  unfold with_message. cbv zeta.
  destruct (truthy _); now rewrite ?isObject_delete, ?isObject_set.
Qed.

Lemma standard_with_message (parsed : value) :
  standard (with_message parsed) = standard parsed.
Proof.
  unfold with_message. cbv zeta.
  destruct (truthy _); now rewrite ?standard_delete, ?standard_set.
Qed.

Lemma with_message_chain (parsed : value) (k : string) :
  k <> "message" -> k <> "msg" ->
  in_chain (with_message parsed) k = in_chain parsed k /\
  has_builtins (with_message parsed) = has_builtins parsed.
Proof.
  intros H1 H2. unfold with_message. cbv zeta.
  destruct (truthy _);
    rewrite ?in_chain_delete_other, ?in_chain_set_other,
            ?has_builtins_delete, ?has_builtins_set by assumption; now split.
Qed.

(** Setting [message] and removing [msg] touches no other key. *)
Lemma with_message_other (parsed : value) (k : string) :
  k <> "message" -> k <> "msg" ->
  get (with_message parsed) k = get parsed k /\
  has_key (with_message parsed) k = has_key parsed k.
Proof.
  intros H1 H2. unfold with_message. cbv zeta.
  destruct (truthy _);
    rewrite ?get_delete_other, ?has_key_delete_other, ?get_set_other, ?has_key_set_other
      by assumption; now split.
Qed.

Lemma with_message_message (parsed : value) :
  isObject parsed = true ->
  get (with_message parsed) "message" = js_or (get parsed "msg") (VStr "-").
Proof.
  intros Hobj. unfold with_message. cbv zeta.
  destruct (truthy _); other_keys;
    apply get_set_same; try reflexivity; now apply isObject_object_type.
Qed.

Lemma with_message_msg (parsed : value) :
  isObject parsed = true ->
  has_key (with_message parsed) "msg" =
  has_key parsed "msg" && negb (truthy (get parsed "msg")).
Proof.
  intros Hobj. unfold with_message. cbv zeta.
  rewrite get_set_other by discriminate.
  destruct (truthy (get parsed "msg")).
  - rewrite andb_false_r. apply has_key_delete_same; [|reflexivity].
    apply isObject_object_type. now rewrite isObject_set.
  - other_keys. now rewrite andb_true_r.
Qed.

(** The value [setDateTimeString] is applied to has the [time] and the
    [hasOwnProperty] of the decoded line. *)
Lemma normalize_timestamp (now : Z) (parsed : value) :
  isObject parsed = true -> standard parsed = true ->
  has_key parsed "hasOwnProperty" = false ->
  Cli.normalize now parsed =
  bind (if time_usable (get parsed "time")
        then toISOString (new_Date (get parsed "time"))
        else Normal (iso_string now))
       (fun ts => Normal (normalized parsed ts)).
Proof.
  intros Hobj Hs Hshadow. rewrite normalize_unfold. f_equal.
  destruct (with_message_other parsed "time") as [Hg _]; try discriminate.
  destruct (with_message_other parsed "hasOwnProperty") as [_ Hh]; try discriminate.
  rewrite setDateTimeString_object.
  - now rewrite Hg.
  - apply isObject_object_type. now rewrite isObject_with_message.
  - apply isObject_object_type. now rewrite isObject_with_message.
  - now rewrite standard_with_message.
  - now rewrite Hh.
Qed.

(** What [setDateTimeString] needs is the same before and after [message]
    is set. *)
Lemma dateable_with_message (parsed : value) :
  dateable (with_message parsed) = dateable parsed.
Proof.
  unfold dateable.
  destruct (with_message_other parsed "time") as [-> _]; try discriminate.
  destruct (with_message_chain parsed "hasOwnProperty") as [-> ->]; try discriminate.
  reflexivity.
Qed.

Lemma isObject_normalized (parsed : value) (ts : string) :
  isObject (normalized parsed ts) = isObject parsed.
Proof.
  unfold normalized. cbv zeta.
  destruct (truthy _);
    now rewrite ?isObject_delete, ?isObject_set, isObject_with_message.
Qed.

Lemma normalized_timestamp (parsed : value) (ts : string) :
  isObject parsed = true -> get (normalized parsed ts) "@timestamp" = VStr ts.
Proof.
  intros Hobj. unfold normalized. cbv zeta.
  destruct (truthy _); other_keys;
    apply get_set_same; try reflexivity;
    apply isObject_object_type; now rewrite isObject_with_message.
Qed.

Lemma normalized_time (parsed : value) (ts : string) :
  isObject parsed = true ->
  has_key (normalized parsed ts) "time" =
  has_key parsed "time" && negb (truthy (get parsed "time")).
Proof.
  intros Hobj. unfold normalized. cbv zeta.
  destruct (with_message_other parsed "time") as [Hg Hh]; try discriminate.
  rewrite get_set_other, Hg by discriminate.
  destruct (truthy (get parsed "time")).
  - rewrite andb_false_r. apply has_key_delete_same; [|reflexivity].
    apply isObject_object_type. now rewrite isObject_set, isObject_with_message.
  - other_keys. now rewrite Hh, andb_true_r.
Qed.

Lemma normalized_message (parsed : value) (ts : string) :
  isObject parsed = true ->
  get (normalized parsed ts) "message" = js_or (get parsed "msg") (VStr "-").
Proof.
  intros Hobj. unfold normalized. cbv zeta.
  destruct (truthy _); other_keys; now apply with_message_message.
Qed.

Lemma normalized_msg (parsed : value) (ts : string) :
  isObject parsed = true ->
  has_key (normalized parsed ts) "msg" =
  has_key parsed "msg" && negb (truthy (get parsed "msg")).
Proof.
  intros Hobj. unfold normalized. cbv zeta.
  destruct (truthy _); other_keys; now apply with_message_msg.
Qed.

End MapperFacts.

Section MapperOutcomes.
Context {rt : Runtime}.

Lemma silent_Normal (doc : value) : silent (Normal doc) = forwarded doc.
Proof. reflexivity. Qed.

Lemma Lib_mapper_unparseable (opts : options) (now : Z) (line : string) :
  JSON_parse line = None -> Lib.mapper opts now line = logged line.
Proof. intros H. unfold Lib.mapper. now rewrite H. Qed.

Lemma Cli_mapper_unparseable (opts : options) (now : Z) (line : string) :
  JSON_parse line = None -> Cli.mapper opts now line = logged line.
Proof. intros H. unfold Cli.mapper. now rewrite H. Qed.

Lemma mapper_boolean (opts : options) (now : Z) (line : string) (b : bool) :
  JSON_parse line = Some (VBool b) ->
  Lib.mapper opts now line = ignored line "Boolean value ignored" /\
  Cli.mapper opts now line = ignored line "Boolean value ignored".
Proof. intros H. unfold Lib.mapper, Cli.mapper. now rewrite H. Qed.

Lemma mapper_null (opts : options) (now : Z) (line : string) :
  JSON_parse line = Some VNull ->
  Lib.mapper opts now line = ignored line "Null value ignored" /\
  Cli.mapper opts now line = ignored line "Null value ignored".
Proof. intros H. unfold Lib.mapper, Cli.mapper. now rewrite H. Qed.

(** The object branch of the cli variant, before the merge. *)
Lemma Cli_mapper_object (opts : options) (now : Z) (line : string) (v : value) :
  JSON_parse line = Some v -> isObject v = true ->
  Cli.mapper opts now line =
  silent (bind (Cli.normalize now v)
               (fun value => mergeDeep [value; additionalObject opts])).
Proof.
  intros Hp Hobj. unfold Cli.mapper. rewrite Hp.
  destruct (isObject_cases v Hobj) as [(i & n & ->)|[(o & ->)|(p & o & ->)]]; reflexivity.
Qed.

Lemma Lib_mapper_document (opts : options) (now : Z) (line : string) (v : value) :
  JSON_parse line = Some v -> document_input v = true ->
  (isObject v = true -> dateable v = true) ->
  exists doc, Lib.mapper opts now line = forwarded doc.
Proof.
  intros Hp Hdoc Hsafe. unfold Lib.mapper. rewrite Hp.
  destruct v; try discriminate.
  - cbn [is_object_type typeof negb]. rewrite setDateTimeString_scalar by reflexivity.
    eexists. reflexivity.
  - cbn [is_object_type typeof negb]. rewrite setDateTimeString_scalar by reflexivity.
    eexists. reflexivity.
  - cbn [is_object_type typeof negb]. rewrite setDateTimeString_scalar by reflexivity.
    eexists. reflexivity.
  - cbn [is_object_type typeof negb].
    destruct (setDateTimeString_dateable now (VArr items named)) as [ts Hts];
      [reflexivity | discriminate | now apply Hsafe |].
    rewrite Hts. destruct (get _ "@timestamp"); eexists; reflexivity.
  - cbn [is_object_type typeof negb].
    destruct (setDateTimeString_dateable now (VObj fields)) as [ts Hts];
      [reflexivity | discriminate | now apply Hsafe |].
    rewrite Hts. destruct (get _ "@timestamp"); eexists; reflexivity.
  - cbn [is_object_type typeof negb].
    destruct (setDateTimeString_dateable now (VProto v fields)) as [ts Hts];
      [reflexivity | discriminate | now apply Hsafe |].
    rewrite Hts. destruct (get _ "@timestamp"); eexists; reflexivity.
Qed.

Lemma normalize_dateable (now : Z) (v : value) :
  isObject v = true -> dateable v = true ->
  exists ts, Cli.normalize now v = Normal (normalized v ts).
Proof.
  intros Hobj Hd. rewrite normalize_unfold.
  destruct (setDateTimeString_dateable now (with_message v)) as [ts ->].
  - apply isObject_object_type. now rewrite isObject_with_message.
  - apply isObject_object_type. now rewrite isObject_with_message.
  - now rewrite dateable_with_message.
  - eexists. reflexivity.
Qed.

Lemma Cli_mapper_document (opts : options) (now : Z) (line : string) (v : value) :
  JSON_parse line = Some v -> document_input v = true ->
  (isObject v = true -> dateable v = true) ->
  not_nullish (additionalObject opts) = true ->
  exists doc, Cli.mapper opts now line = forwarded doc.
Proof.
  intros Hp Hdoc Hsafe Hadd.
  assert (Hscalar : is_object_type v = false ->
          exists doc, silent (value <- (ts <- setDateTimeString now v ;;
                                        Normal (VObj [("data", v); ("@timestamp", VStr ts)])) ;;
                              mergeDeep [value; additionalObject opts]) = forwarded doc).
  { intros Hs. rewrite setDateTimeString_scalar by exact Hs. cbn [bind].
    destruct (mergeDeep_returns [VObj [("data", v); ("@timestamp", VStr (iso_string now))];
                                 additionalObject opts]) as (r & -> & _);
      [repeat constructor; assumption|].
    eexists. reflexivity. }
  assert (Hobject : isObject v = true -> exists doc, Cli.mapper opts now line = forwarded doc).
  { intros Hobj. rewrite (Cli_mapper_object opts now line v Hp Hobj).
    destruct (normalize_dateable now v Hobj (Hsafe Hobj)) as [ts ->]. cbn [bind].
    destruct (mergeDeep_returns [normalized v ts; additionalObject opts]) as (r & -> & _).
    - repeat constructor; [|assumption].
      apply isObject_not_nullish. now rewrite isObject_normalized.
    - eexists. reflexivity. }
  destruct v; try discriminate; try (apply Hobject; reflexivity);
    unfold Cli.mapper; rewrite Hp; apply Hscalar; reflexivity.
Qed.

End MapperOutcomes.

(* ===================================================================== *)
(** * The claims *)

(** C1, as amended.  For every input line the mapper of either variant ends
    in exactly one of three ways: an unparseable line is written with
    [console.log] and yields neither a document nor an event; a line decoding
    to a boolean or to [null] yields one [unknown] event and no document;
    any other line yields a document and nothing else.  This holds when any
    decoded object is one [setDateTimeString] can date ([dateable]) and, for
    the cli variant, when [opts.additionalObject] is neither [undefined] nor [null];
    the statement says nothing about the other lines. *)
Theorem mapper_outcomes {rt : Runtime} (opts : options) (now : Z) (line : string) :
  not_nullish (additionalObject opts) = true ->
  (forall v, JSON_parse line = Some v -> isObject v = true -> dateable v = true) ->
  match JSON_parse line with
  | None =>
      Lib.mapper opts now line = logged line /\
      Cli.mapper opts now line = logged line
  | Some (VBool _) =>
      Lib.mapper opts now line = ignored line "Boolean value ignored" /\
      Cli.mapper opts now line = ignored line "Boolean value ignored"
  | Some VNull =>
      Lib.mapper opts now line = ignored line "Null value ignored" /\
      Cli.mapper opts now line = ignored line "Null value ignored"
  | Some _ =>
      (exists doc, Lib.mapper opts now line = forwarded doc) /\
      (exists doc, Cli.mapper opts now line = forwarded doc)
  end.
Proof.
  intros Hadd Hsafe.
  destruct (JSON_parse line) as [v|] eqn:Hp.
  - assert (Hdoc : document_input v = true ->
                   (exists doc, Lib.mapper opts now line = forwarded doc) /\
                   (exists doc, Cli.mapper opts now line = forwarded doc)).
    { intros Hdoc. split.
      - apply Lib_mapper_document with (v := v); auto.
      - apply Cli_mapper_document with (v := v); auto. }
    destruct v; try (apply Hdoc; reflexivity).
    + now apply mapper_null.
    + now apply mapper_boolean with (b := b).
  - split; [now apply Lib_mapper_unparseable | now apply Cli_mapper_unparseable].
Qed.

Lemma mapper_outcomes_witness :
  (exists doc, @Lib.mapper sample_runtime (cli_options "logs-%{DATE}")
                 1704067200000 hello_line = forwarded doc) /\
  (exists doc, @Cli.mapper sample_runtime (cli_options "logs-%{DATE}")
                 1704067200000 hello_line = forwarded doc).
Proof.
  refine (@mapper_outcomes sample_runtime (cli_options "logs-%{DATE}")
            1704067200000 hello_line _ _).
  - reflexivity.
  - intros v Hv _. vm_compute in Hv. injection Hv as <-. vm_compute. reflexivity.
Defined.

(** C1 as stated fails: an unparseable line ends in neither a document nor an
    event, in both variants. *)
Lemma unparseable_line_yields_neither_document_nor_event :
  @JSON_parse sample_runtime "not json" = None /\
  returned (@Lib.mapper sample_runtime (cli_options "logs-%{DATE}") 0 "not json") = Normal None /\
  emitted (@Lib.mapper sample_runtime (cli_options "logs-%{DATE}") 0 "not json") = [] /\
  returned (@Cli.mapper sample_runtime (cli_options "logs-%{DATE}") 0 "not json") = Normal None /\
  emitted (@Cli.mapper sample_runtime (cli_options "logs-%{DATE}") 0 "not json") = [].
Proof. repeat split; vm_compute; reflexivity. Qed.

(** C2, as amended.  For every input line that [JSON.parse] rejects, the
    mapper of either variant forwards no document, emits no event (the
    [unknown] emission of the catch branch is commented out) and writes the
    raw line with [console.log]. *)
Theorem unparseable_line_is_only_logged {rt : Runtime}
    (opts : options) (now : Z) (line : string) :
  JSON_parse line = None ->
  Lib.mapper opts now line =
    {| emitted := []; console := [line]; returned := Normal None |} /\
  Cli.mapper opts now line =
    {| emitted := []; console := [line]; returned := Normal None |}.
Proof.
  intros Hp. split.
  - now apply Lib_mapper_unparseable.
  - now apply Cli_mapper_unparseable.
Qed.

Lemma unparseable_line_is_only_logged_witness :
  @Lib.mapper sample_runtime no_options 0 "{not json" =
    {| emitted := []; console := ["{not json"]; returned := Normal None |} /\
  @Cli.mapper sample_runtime no_options 0 "{not json" =
    {| emitted := []; console := ["{not json"]; returned := Normal None |}.
Proof.
  apply (@unparseable_line_is_only_logged sample_runtime no_options 0 "{not json").
  vm_compute. reflexivity.
Defined.

(** C2 as stated fails: on an unparseable line no event at all is emitted,
    so not one with the reason "invalid JSON". *)
Lemma unparseable_line_emits_no_anomaly :
  @JSON_parse sample_runtime "{not json" = None /\
  emitted (@Lib.mapper sample_runtime no_options 0 "{not json") = [] /\
  emitted (@Cli.mapper sample_runtime no_options 0 "{not json") = [] /\
  emitted (@Cli.mapper sample_runtime no_options 0 "{not json")
    <> [ {| ev_name := "unknown"; ev_line := "{not json"; ev_reason := "invalid JSON" |} ].
Proof. repeat split; try (vm_compute; reflexivity). vm_compute. discriminate. Qed.

(** C9.  For every input line decoding to [true] or [false], and for every
    line decoding to [null], the mapper of either variant emits exactly one
    [unknown] event carrying the line and the reason "Boolean value ignored",
    respectively "Null value ignored", writes nothing to the console and
    returns no document. *)
Theorem boolean_and_null_lines_are_anomalies {rt : Runtime}
    (opts : options) (now : Z) (line : string) (v : value) :
  JSON_parse line = Some v ->
  (forall b, v = VBool b ->
     Lib.mapper opts now line =
       {| emitted := [ {| ev_name := "unknown"; ev_line := line;
                          ev_reason := "Boolean value ignored" |} ];
          console := []; returned := Normal None |} /\
     Cli.mapper opts now line =
       {| emitted := [ {| ev_name := "unknown"; ev_line := line;
                          ev_reason := "Boolean value ignored" |} ];
          console := []; returned := Normal None |}) /\
  (v = VNull ->
     Lib.mapper opts now line =
       {| emitted := [ {| ev_name := "unknown"; ev_line := line;
                          ev_reason := "Null value ignored" |} ];
          console := []; returned := Normal None |} /\
     Cli.mapper opts now line =
       {| emitted := [ {| ev_name := "unknown"; ev_line := line;
                          ev_reason := "Null value ignored" |} ];
          console := []; returned := Normal None |}).
Proof.
  intros Hp. split.
  - intros b ->. exact (mapper_boolean opts now line b Hp).
  - intros ->. exact (mapper_null opts now line Hp).
Qed.

Lemma boolean_and_null_lines_are_anomalies_witness :
  (@Cli.mapper sample_runtime no_options 0 "false" =
     {| emitted := [ {| ev_name := "unknown"; ev_line := "false";
                        ev_reason := "Boolean value ignored" |} ];
        console := []; returned := Normal None |}) /\
  (@Cli.mapper sample_runtime no_options 0 " null" =
     {| emitted := [ {| ev_name := "unknown"; ev_line := " null";
                        ev_reason := "Null value ignored" |} ];
        console := []; returned := Normal None |}).
Proof.
  split.
  - exact (proj2 (proj1 (@boolean_and_null_lines_are_anomalies sample_runtime
                           no_options 0 "false" (VBool false) eq_refl)
                        false eq_refl)).
  - exact (proj2 (proj2 (@boolean_and_null_lines_are_anomalies sample_runtime
                           no_options 0 " null" VNull eq_refl)
                        eq_refl)).
Defined.

(** C10.  Whatever the options, the client options carry
    [tls.rejectUnauthorized = false]: the [rejectUnauthorized] option is not
    read, be it [true], absent, or what the entry point derives from
    [LOG_ES_REJECT_UNAUTHORIZED]. *)
Theorem tls_verification_is_always_disabled
    (opts : options) (flag : value) (env : option string) :
  co_tls_rejectUnauthorized (clientOpts opts) = false /\
  co_tls_rejectUnauthorized (clientOpts (with_rejectUnauthorized opts flag)) = false /\
  co_tls_rejectUnauthorized
    (clientOpts (with_rejectUnauthorized opts (rejectUnauthorized_of_env env))) = false /\
  clientOpts (with_rejectUnauthorized opts flag) = clientOpts opts.
Proof.
  repeat split.
Qed.

(** ** The per-document callback *)

(** C4, as amended.  When the operation type is ['create'], [onDocument]
    overwrites [@timestamp] with the document's effective timestamp ([time]
    if truthy, else [@timestamp]) and writes no other field: there is no
    renamed copy, every other key reads as before, and the former
    [@timestamp] survives exactly when it is the effective timestamp. *)
Theorem onDocument_create_overwrites_timestamp
    (opts : options) (now : Z) (doc doc' : value) (act : action) :
  opType_of opts = VStr "create" ->
  isObject doc = true ->
  onDocument opts now doc = Normal (doc', act) ->
  doc' = set doc "@timestamp" (js_or (get doc "time") (get doc "@timestamp")) /\
  get doc' "@timestamp" = js_or (get doc "time") (get doc "@timestamp") /\
  (forall k, k <> "@timestamp" ->
             get doc' k = get doc k /\ has_key doc' k = has_key doc k).
Proof.
  intros Hop Hobj Hrun.
  assert (Hdoc : doc' = set doc "@timestamp" (js_or (get doc "time") (get doc "@timestamp"))).
  { destruct (isObject_cases doc Hobj) as [(i & n & ->)|[(o & ->)|(p & o & ->)]];
      unfold onDocument in Hrun; rewrite Hop in Hrun;
      change ("create" =? "create") with true in Hrun; cbv iota in Hrun;
      cbn [assign bind] in Hrun;
      (destruct (getIndexName opts now _) as [name|e]; [|discriminate]);
      cbn [bind] in Hrun; now injection Hrun as <- _. }
  subst doc'. split; [reflexivity|]. split.
  - apply get_set_same; [| |reflexivity]; now apply isObject_object_type.
  - intros k Hk. split; [now apply get_set_other | now apply has_key_set_other].
Qed.

Lemma onDocument_create_overwrites_timestamp_witness :
  VObj [("time", VStr "2024-03-05T10:00:00.000Z");
        ("@timestamp", VStr "2024-03-05T10:00:00.000Z")]
  = set (VObj [("time", VStr "2024-03-05T10:00:00.000Z");
               ("@timestamp", VStr "2020-01-01T00:00:00.000Z")])
        "@timestamp"
        (js_or (get (VObj [("time", VStr "2024-03-05T10:00:00.000Z");
                           ("@timestamp", VStr "2020-01-01T00:00:00.000Z")]) "time")
               (get (VObj [("time", VStr "2024-03-05T10:00:00.000Z");
                           ("@timestamp", VStr "2020-01-01T00:00:00.000Z")]) "@timestamp")) /\
  get (VObj [("time", VStr "2024-03-05T10:00:00.000Z");
             ("@timestamp", VStr "2024-03-05T10:00:00.000Z")]) "@timestamp"
  = js_or (get (VObj [("time", VStr "2024-03-05T10:00:00.000Z");
                      ("@timestamp", VStr "2020-01-01T00:00:00.000Z")]) "time")
          (get (VObj [("time", VStr "2024-03-05T10:00:00.000Z");
                      ("@timestamp", VStr "2020-01-01T00:00:00.000Z")]) "@timestamp") /\
  (forall k, k <> "@timestamp" ->
     get (VObj [("time", VStr "2024-03-05T10:00:00.000Z");
                ("@timestamp", VStr "2024-03-05T10:00:00.000Z")]) k
     = get (VObj [("time", VStr "2024-03-05T10:00:00.000Z");
                  ("@timestamp", VStr "2020-01-01T00:00:00.000Z")]) k /\
     has_key (VObj [("time", VStr "2024-03-05T10:00:00.000Z");
                    ("@timestamp", VStr "2024-03-05T10:00:00.000Z")]) k
     = has_key (VObj [("time", VStr "2024-03-05T10:00:00.000Z");
                      ("@timestamp", VStr "2020-01-01T00:00:00.000Z")]) k).
Proof.
  apply (onDocument_create_overwrites_timestamp
           (with_opType (cli_options "logs-%{DATE}") (VStr "create")) 0
           (VObj [("time", VStr "2024-03-05T10:00:00.000Z");
                  ("@timestamp", VStr "2020-01-01T00:00:00.000Z")])
           (VObj [("time", VStr "2024-03-05T10:00:00.000Z");
                  ("@timestamp", VStr "2024-03-05T10:00:00.000Z")])
           {| create_index := VStr "logs-2024-03-05" |}).
  - reflexivity.
  - reflexivity.
  - vm_compute. reflexivity.
Defined.

(** C4 as stated fails: with ['create'], a document that has both [time] and
    [@timestamp] leaves the callback with [@timestamp] overwritten by [time]
    and with no further field, so its former [@timestamp] is lost. *)
Lemma onDocument_create_loses_timestamp :
  onDocument (with_opType (cli_options "logs-%{DATE}") (VStr "create")) 0
    (VObj [("time", VStr "2024-03-05T10:00:00.000Z");
           ("@timestamp", VStr "2020-01-01T00:00:00.000Z")])
  = Normal (VObj [("time", VStr "2024-03-05T10:00:00.000Z");
                  ("@timestamp", VStr "2024-03-05T10:00:00.000Z")],
            {| create_index := VStr "logs-2024-03-05" |}).
Proof. vm_compute. reflexivity. Qed.

(** ** setDateTimeString *)

(** C5, at its failing inputs.  When the [time] of an object passes the guard
    (a non-empty string, a non-negative number) but denotes no date,
    [setDateTimeString] returns neither the ISO form of [time] nor the
    current instant: [toISOString] throws its RangeError. *)
Theorem setDateTimeString_throws_on_invalid_date {rt : Runtime}
    (now : Z) (o : props) (t : value) :
  lookup "time" o = Some t ->
  has_key (VObj o) "hasOwnProperty" = false ->
  time_usable t = true ->
  new_Date t = None ->
  setDateTimeString now (VObj o) = Throw RangeError.
Proof.
  intros Ht Hshadow Husable Hdate.
  rewrite setDateTimeString_object;
    [| reflexivity | discriminate | reflexivity | exact Hshadow].
  assert (Hg : get (VObj o) "time" = t) by (cbn [get own_entries]; now rewrite Ht).
  rewrite Hg, Husable, Hdate. reflexivity.
Qed.

Lemma setDateTimeString_throws_on_invalid_date_witness :
  @setDateTimeString sample_runtime 1704067200000 (VObj [("time", VStr "not a date")])
  = Throw RangeError.
Proof.
  apply (@setDateTimeString_throws_on_invalid_date sample_runtime 1704067200000
           [("time", VStr "not a date")] (VStr "not a date"));
    vm_compute; reflexivity.
Defined.

(** The same with a number, whatever the engine's [Date.parse]: 1e16 is
    beyond the range of a time value. *)
Lemma setDateTimeString_throws_on_large_number {rt : Runtime} (now : Z) :
  setDateTimeString now (VObj [("time", VNum 1e16%float)]) = Throw RangeError.
Proof.
  apply setDateTimeString_throws_on_invalid_date with (t := VNum 1e16%float);
    vm_compute; reflexivity.
Qed.

(** Where the conversion succeeds the function is as C5 describes it: the
    ISO form of [time] exactly when the guard passes, the current instant in
    every other case. *)
Lemma setDateTimeString_by_cases {rt : Runtime} (now : Z) (v : value) :
  (is_object_type v = false -> setDateTimeString now v = Normal (iso_string now)) /\
  (isObject v = true -> standard v = true -> has_key v "hasOwnProperty" = false ->
   (time_usable (get v "time") = false ->
      setDateTimeString now v = Normal (iso_string now)) /\
   (forall tv, time_usable (get v "time") = true -> new_Date (get v "time") = Some tv ->
      setDateTimeString now v = Normal (iso_string tv))).
Proof.
  split; [apply setDateTimeString_scalar|].
  intros Hobj Hs Hshadow. destruct (isObject_object_type v Hobj) as [Ht Hn].
  rewrite setDateTimeString_object by assumption. split.
  - now intros ->.
  - now intros tv -> ->.
Qed.

(** ** getIndexName *)

(** C6, at its failing input.  With a template, a [null] timestamp, which
    supports no substring extraction, is not replaced by the empty string:
    reading [time.substring] throws a TypeError. *)
Theorem getIndexName_throws_on_null_timestamp
    (opts : options) (now : Z) (template : string) :
  index_of opts = inl template ->
  getIndexName opts now VNull = Throw TypeError.
Proof.
  intros Hidx. unfold getIndexName. rewrite Hidx. reflexivity.
Qed.

Lemma getIndexName_throws_on_null_timestamp_witness :
  getIndexName (cli_options "logs-%{DATE}") 0 VNull = Throw TypeError.
Proof.
  exact (getIndexName_throws_on_null_timestamp (cli_options "logs-%{DATE}") 0
           "logs-%{DATE}" eq_refl).
Defined.

(** The document that reaches the resolver with a [null] timestamp: in
    [lib.js] a line whose [@timestamp] is [null] is forwarded as it is. *)
Lemma null_timestamp_reaches_getIndexName :
  @Lib.mapper sample_runtime (cli_options "logs-%{DATE}") 0 (qq "{'@timestamp':null}")
  = forwarded (VObj [("@timestamp", VNull)]) /\
  onDocument (cli_options "logs-%{DATE}") 0 (VObj [("@timestamp", VNull)])
  = Throw TypeError.
Proof. split; vm_compute; reflexivity. Qed.

(** The example of the specification. *)
Lemma getIndexName_example (now : Z) :
  getIndexName (cli_options "logs-%{DATE}") now (VStr "2024-03-05T10:00:00.000Z")
  = Normal (VStr "logs-2024-03-05").
Proof. vm_compute. reflexivity. Qed.

(** A number has no [substring]: the placeholder becomes the empty string. *)
Lemma getIndexName_number (now : Z) (n : float) :
  getIndexName (cli_options "logs-%{DATE}") now (VNum n) = Normal (VStr "logs-").
Proof. reflexivity. Qed.

(** [replace] reads a dollar pattern in the replacement text: a timestamp
    that starts with [$&] puts the placeholder back. *)
Lemma getIndexName_dollar_pattern (now : Z) :
  getIndexName (cli_options "logs-%{DATE}") now (VStr "$&-03-05T10:00:00.000Z")
  = Normal (VStr "logs-%{DATE}-03-05T1").
Proof. vm_compute. reflexivity. Qed.

Lemma GetSubstitution_plain (matched before after template : string) :
  (forall c, In c (list_ascii_of_string template) -> c <> "$"%char) ->
  GetSubstitution matched before after template = template.
Proof.
  induction template as [|c rest IH]; intros Hplain; [reflexivity|].
  cbn [GetSubstitution].
  destruct (Ascii.eqb c "$") eqn:E.
  - apply Ascii.eqb_eq in E. exfalso. apply (Hplain c); [now left | exact E].
  - rewrite IH; [reflexivity|]. intros c' Hin. apply Hplain. now right.
Qed.

(** With a template and a string timestamp whose first ten characters hold
    no dollar, the first placeholder is replaced by those characters. *)
Lemma getIndexName_plain_date (opts : options) (now : Z)
    (template before after s : string) :
  index_of opts = inl template ->
  find_first "%{DATE}" template = Some (before, after) ->
  (forall c, In c (list_ascii_of_string (substring 0 10 s)) -> c <> "$"%char) ->
  getIndexName opts now (VStr s) = Normal (VStr (before ++ substring 0 10 s ++ after)).
Proof.
  intros Hidx Hfind Hplain. unfold getIndexName. rewrite Hidx.
  cbn [date_part bind]. unfold String_replace. rewrite Hfind.
  now rewrite GetSubstitution_plain.
Qed.

(** ** mergeDeep *)

(** C7, at its failing input.  Merging [{list:[1]}] with [{list:[[2]]}] does
    not concatenate the two arrays, which would give [[1,[2]]]: the spread
    in [pVal.concat(...oVal)] flattens the nested array, and the result is
    [{list:[1,2]}]. *)
Theorem mergeDeep_flattens_nested_arrays :
  mergeDeep [ VObj [("list", VArr [VNum 1] [])];
              VObj [("list", VArr [VArr [VNum 2] []] [])] ]
  = Normal (VObj [("list", VArr [VNum 1; VNum 2] [])]).
Proof. vm_compute. reflexivity. Qed.

(** The example of the specification. *)
Lemma mergeDeep_example :
  mergeDeep [ VObj [("a", VObj [("b", VNum 1)]); ("list", VArr [VNum 1; VNum 2] [])];
              VObj [("a", VObj [("c", VNum 2)]); ("list", VArr [VNum 3] [])] ]
  = Normal (VObj [("a", VObj [("b", VNum 1); ("c", VNum 2)]);
                  ("list", VArr [VNum 1; VNum 2; VNum 3] [])]).
Proof. vm_compute. reflexivity. Qed.

(** A scalar of the later argument overwrites what the earlier one has. *)
Lemma mergeDeep_scalar_example :
  mergeDeep [ VObj [("a", VObj [("b", VNum 1)]); ("n", VNum 1)];
              VObj [("a", VStr "x"); ("n", VNum 2)] ]
  = Normal (VObj [("a", VStr "x"); ("n", VNum 2)]).
Proof. vm_compute. reflexivity. Qed.

(** ** The documents of the cli variant *)

Section CliDocuments.
Context {rt : Runtime}.

(** What the normalizer leaves of the keys it does not write. *)
Lemma normalized_other (parsed : value) (ts : string) (k : string) :
  k <> "message" -> k <> "msg" -> k <> "@timestamp" -> k <> "time" ->
  has_key (normalized parsed ts) k = has_key parsed k.
Proof.
  intros H1 H2 H3 H4. unfold normalized. cbv zeta.
  destruct (with_message_other parsed k H1 H2) as [_ Hh].
  destruct (truthy _);
    rewrite ?has_key_delete_other, ?has_key_set_other by assumption; exact Hh.
Qed.

Lemma standard_normalized (parsed : value) (ts : string) :
  standard (normalized parsed ts) = standard parsed.
Proof.
  unfold normalized. cbv zeta.
  destruct (truthy _);
    now rewrite ?standard_delete, ?standard_set, standard_with_message.
Qed.

(** On a value with its own prototype, a read that finds something finds an
    own property. *)
Lemma get_lookup (v : value) (k : string) (x : value) :
  standard v = true -> get v k = x -> x <> VUndefined ->
  lookup k (own_entries v) = Some x.
Proof.
  intros Hs Hg Hx. rewrite (get_standard v k Hs) in Hg.
  destruct (lookup k (own_entries v)); [now subst | congruence].
Qed.

Lemma has_key_lookup (v : value) (k : string) :
  has_key v k = false -> lookup k (own_entries v) = None.
Proof. unfold has_key. now destruct (lookup k (own_entries v)). Qed.

(** The document a decoded object without a key [__proto__] becomes: the
    normalized object merged with [additionalObject]; under a key that
    [additionalObject] does not have, the document owns what the normalized
    object owns. *)
Lemma Cli_mapper_document_keeps
    (opts : options) (now : Z) (line : string) (v : value) (ts : string) :
  JSON_parse line = Some v -> isObject v = true -> has_key v "__proto__" = false ->
  Cli.normalize now v = Normal (normalized v ts) ->
  not_nullish (additionalObject opts) = true ->
  exists doc,
    Cli.mapper opts now line = forwarded doc /\ isObject doc = true /\
    forall k, has_key (additionalObject opts) k = false ->
              lookup k (own_entries doc) = lookup k (own_entries (normalized v ts)).
Proof.
  intros Hp Hobj Hproto Hnorm Hadd.
  rewrite (Cli_mapper_object opts now line v Hp Hobj), Hnorm. cbn [bind].
  assert (Hn : not_nullish (normalized v ts) = true)
    by (apply isObject_not_nullish; now rewrite isObject_normalized).
  assert (Hpn : has_key (normalized v ts) "__proto__" = false)
    by (rewrite normalized_other by discriminate; exact Hproto).
  destruct (mergeDeep_returns [normalized v ts; additionalObject opts]) as (r & Hm & _);
    [repeat constructor; assumption|].
  exists (to_value r). rewrite Hm. split; [reflexivity|].
  split; [apply to_value_object|].
  intros k Hk.
  destruct (mergeDeep_keeps (normalized v ts) (additionalObject opts) k Hn Hadd Hpn Hk)
    as (r' & Hm' & Hl).
  rewrite Hm in Hm'. injection Hm' as Hm'. rewrite Hm'.
  destruct (to_value_object r') as (_ & _ & ->). exact Hl.
Qed.

(** The same for any decoded object, under a key other than [__proto__]
    where the normalized object holds neither an object nor an array. *)
Lemma Cli_mapper_document_keeps_scalar
    (opts : options) (now : Z) (line : string) (v : value) (ts : string) :
  JSON_parse line = Some v -> isObject v = true ->
  Cli.normalize now v = Normal (normalized v ts) ->
  not_nullish (additionalObject opts) = true ->
  exists doc,
    Cli.mapper opts now line = forwarded doc /\ isObject doc = true /\
    forall k, k <> "__proto__" -> has_key (additionalObject opts) k = false ->
              (forall x, lookup k (own_entries (normalized v ts)) = Some x ->
                         isObject x = false) ->
              lookup k (own_entries doc) = lookup k (own_entries (normalized v ts)).
Proof.
  intros Hp Hobj Hnorm Hadd.
  rewrite (Cli_mapper_object opts now line v Hp Hobj), Hnorm. cbn [bind].
  assert (Hn : not_nullish (normalized v ts) = true)
    by (apply isObject_not_nullish; now rewrite isObject_normalized).
  destruct (mergeDeep_returns [normalized v ts; additionalObject opts]) as (r & Hm & _);
    [repeat constructor; assumption|].
  exists (to_value r). rewrite Hm. split; [reflexivity|].
  split; [apply to_value_object|].
  intros k Hproto Hk Hscalar.
  destruct (mergeDeep_keeps_scalar (normalized v ts) (additionalObject opts) k
              Hn Hadd Hproto Hk Hscalar) as (r' & Hm' & Hl).
  rewrite Hm in Hm'. injection Hm' as Hm'. rewrite Hm'.
  destruct (to_value_object r') as (_ & _ & ->). exact Hl.
Qed.

End CliDocuments.

(** In [lib.js] an object without [@timestamp] gets one and is otherwise
    forwarded as it is. *)
Lemma Lib_mapper_stamps {rt : Runtime}
    (opts : options) (now : Z) (line : string) (o : props) (ts : string) :
  JSON_parse line = Some (VObj o) ->
  get (VObj o) "@timestamp" = VUndefined ->
  setDateTimeString now (VObj o) = Normal ts ->
  Lib.mapper opts now line = forwarded (set (VObj o) "@timestamp" (VStr ts)).
Proof.
  intros Hp Habsent Hts. unfold Lib.mapper. rewrite Hp.
  cbn [is_object_type typeof negb]. now rewrite Habsent, Hts.
Qed.

(** In [lib.js] an object that has an [@timestamp] is forwarded as it is. *)
Lemma Lib_mapper_stamped {rt : Runtime}
    (opts : options) (now : Z) (line : string) (o : props) :
  JSON_parse line = Some (VObj o) ->
  get (VObj o) "@timestamp" <> VUndefined ->
  Lib.mapper opts now line = forwarded (VObj o).
Proof.
  intros Hp Hpresent. unfold Lib.mapper. rewrite Hp.
  cbn [is_object_type typeof negb].
  destruct (get (VObj o) "@timestamp"); try reflexivity. congruence.
Qed.

(** C3, as amended.  For every input line decoding to a JSON object whose
    [time] passes the guard of [setDateTimeString] (a non-empty string, a
    non-negative number) and denotes a date: the document of the cli variant
    has the ISO form of that date as its [@timestamp], and has no [time]
    when that value is truthy; [lib.js] forwards a document that still has
    that [time]: the object with that [@timestamp] added when it has none,
    and the object as it is, whatever its [@timestamp], when it has one.
    This is for an object that does not shadow [hasOwnProperty] and, in the
    cli variant, for an [additionalObject] that is an object without the keys
    [@timestamp] and [time]. *)
Theorem timestamp_is_iso_form_of_usable_time {rt : Runtime}
    (opts : options) (now : Z) (line : string) (o : props) (t : value) (tv : Z) :
  JSON_parse line = Some (VObj o) ->
  lookup "time" o = Some t ->
  time_usable t = true ->
  new_Date t = Some tv ->
  has_key (VObj o) "hasOwnProperty" = false ->
  (not_nullish (additionalObject opts) = true ->
   has_key (additionalObject opts) "@timestamp" = false ->
   has_key (additionalObject opts) "time" = false ->
   exists doc,
     Cli.mapper opts now line = forwarded doc /\
     get doc "@timestamp" = VStr (iso_string tv) /\
     (truthy t = true -> has_key doc "time" = false)) /\
  (exists doc,
     Lib.mapper opts now line = forwarded doc /\
     get doc "time" = t /\
     (get (VObj o) "@timestamp" = VUndefined ->
      doc = set (VObj o) "@timestamp" (VStr (iso_string tv))) /\
     (get (VObj o) "@timestamp" <> VUndefined -> doc = VObj o)).
Proof.
  intros Hp Ht Husable Hdate Hshadow.
  assert (Hg : get (VObj o) "time" = t) by (cbn [get own_entries]; now rewrite Ht).
  split.
  - intros Hadd Hats Hatime.
    assert (Hnorm : Cli.normalize now (VObj o) = Normal (normalized (VObj o) (iso_string tv))).
    { rewrite normalize_timestamp by (reflexivity || assumption).
      now rewrite Hg, Husable, Hdate. }
    destruct (Cli_mapper_document_keeps_scalar opts now line (VObj o) (iso_string tv)
                Hp eq_refl Hnorm Hadd) as (doc & Hrun & _ & Hkeep).
    assert (Hts : lookup "@timestamp" (own_entries (normalized (VObj o) (iso_string tv)))
                  = Some (VStr (iso_string tv))).
    { apply get_lookup; [now rewrite standard_normalized | | discriminate].
      now apply normalized_timestamp. }
    exists doc. split; [exact Hrun|]. split.
    + apply get_own. rewrite Hkeep; [exact Hts | discriminate | exact Hats |].
      rewrite Hts. intros x [= <-]. apply andb_false_r.
    + intros Htruthy.
      assert (Hnone : lookup "time" (own_entries (normalized (VObj o) (iso_string tv))) = None).
      { apply has_key_lookup. rewrite normalized_time by reflexivity.
        now rewrite Hg, Htruthy, andb_false_r. }
      unfold has_key. rewrite Hkeep; [now rewrite Hnone | discriminate | exact Hatime |].
      rewrite Hnone. discriminate.
  - assert (Hset : setDateTimeString now (VObj o) = Normal (iso_string tv)).
    { rewrite setDateTimeString_object;
        [| reflexivity | discriminate | reflexivity | exact Hshadow].
      now rewrite Hg, Husable, Hdate. }
    destruct (get (VObj o) "@timestamp") eqn:Habsent.
    1: { exists (set (VObj o) "@timestamp" (VStr (iso_string tv))).
         split; [now apply Lib_mapper_stamps|].
         split; [now rewrite get_set_other by discriminate|].
         split; [reflexivity | congruence]. }
    all: exists (VObj o);
      (split; [apply Lib_mapper_stamped; [exact Hp | rewrite Habsent; discriminate]|]);
      (split; [exact Hg|]); (split; [discriminate | reflexivity]).
Qed.

Lemma timestamp_is_iso_form_of_usable_time_witness :
  (exists doc,
     @Cli.mapper sample_runtime (cli_options "logs-%{DATE}") 0 hello_line = forwarded doc /\
     get doc "@timestamp" = VStr (iso_string 1704067200000) /\
     (truthy (VStr "2024-01-01T00:00:00.000Z") = true -> has_key doc "time" = false)) /\
  (exists doc,
     @Lib.mapper sample_runtime (cli_options "logs-%{DATE}") 0 hello_line = forwarded doc /\
     get doc "time" = VStr "2024-01-01T00:00:00.000Z" /\
     doc = VObj [("msg", VStr "hello"); ("time", VStr "2024-01-01T00:00:00.000Z");
                 ("@timestamp", VStr "2024-01-01T00:00:00.000Z")]).
Proof.
  pose proof (@timestamp_is_iso_form_of_usable_time sample_runtime
                (cli_options "logs-%{DATE}") 0 hello_line
                [("msg", VStr "hello"); ("time", VStr "2024-01-01T00:00:00.000Z")]
                (VStr "2024-01-01T00:00:00.000Z") 1704067200000
                eq_refl eq_refl eq_refl eq_refl eq_refl) as [Hcli (doc & Hrun & Htime & Hnew & _)].
  split.
  - exact (Hcli eq_refl eq_refl eq_refl).
  - exists doc. split; [exact Hrun|]. split; [exact Htime|]. exact (Hnew eq_refl).
Defined.

(** The scenario of the specification, computed. *)
Lemma hello_scenario :
  @Cli.mapper sample_runtime (cli_options "logs-%{DATE}") 0 hello_line
  = forwarded (VObj [("message", VStr "hello");
                     ("@timestamp", VStr "2024-01-01T00:00:00.000Z")]).
Proof. vm_compute. reflexivity. Qed.

(** C3 as stated fails: the line [{"time":-1}] has a [time], whose ISO form
    is the last millisecond of 1969, but the guard refuses a negative number
    and [@timestamp] is the current instant; in [lib.js] moreover [time]
    stays in the document. *)
Lemma negative_time_is_not_the_timestamp :
  @JSON_parse sample_runtime (qq "{'time':-1}") = Some (VObj [("time", VNum (-1)%float)]) /\
  toISOString (@new_Date sample_runtime (VNum (-1)%float)) = Normal "1969-12-31T23:59:59.999Z" /\
  @Cli.mapper sample_runtime (cli_options "logs-%{DATE}") 1704067200000 (qq "{'time':-1}")
  = forwarded (VObj [("message", VStr "-");
                     ("@timestamp", VStr "2024-01-01T00:00:00.000Z")]) /\
  @Lib.mapper sample_runtime (cli_options "logs-%{DATE}") 1704067200000 (qq "{'time':-1}")
  = forwarded (VObj [("time", VNum (-1)%float);
                     ("@timestamp", VStr "2024-01-01T00:00:00.000Z")]).
Proof. repeat split; vm_compute; reflexivity. Qed.

(** A [time] of zero passes the guard and is falsy: it gives the timestamp
    and stays in the document. *)
Lemma zero_time_stays :
  @Cli.mapper sample_runtime (cli_options "logs-%{DATE}") 1704067200000 (qq "{'time':0}")
  = forwarded (VObj [("time", VNum 0%float); ("message", VStr "-");
                     ("@timestamp", VStr "1970-01-01T00:00:00.000Z")]).
Proof. vm_compute. reflexivity. Qed.

(** C8, as amended.  For every input line decoding to a JSON object, the
    document of the cli variant has as [message] the object's [msg] when that
    is truthy and the dash otherwise, and has a [msg] exactly when the object
    has a falsy one (an empty string, zero, [false], [null]), which stays.
    This is for an object [setDateTimeString] can date that has no own
    property [__proto__] (with one that holds an object, [mergeDeep] merges
    [message] with what that object holds) and for an [additionalObject]
    that is an object without the keys [message] and [msg]. *)
Theorem message_is_truthy_msg_or_dash {rt : Runtime}
    (opts : options) (now : Z) (line : string) (o : props) :
  JSON_parse line = Some (VObj o) ->
  dateable (VObj o) = true ->
  has_key (VObj o) "__proto__" = false ->
  not_nullish (additionalObject opts) = true ->
  has_key (additionalObject opts) "message" = false ->
  has_key (additionalObject opts) "msg" = false ->
  exists doc,
    Cli.mapper opts now line = forwarded doc /\
    get doc "message" = (if truthy (get (VObj o) "msg") then get (VObj o) "msg" else VStr "-") /\
    has_key doc "msg" = has_key (VObj o) "msg" && negb (truthy (get (VObj o) "msg")).
Proof.
  intros Hp Hd Hproto Hadd Hamessage Hamsg.
  destruct (normalize_dateable now (VObj o) eq_refl Hd) as [ts Hnorm].
  destruct (Cli_mapper_document_keeps opts now line (VObj o) ts
              Hp eq_refl Hproto Hnorm Hadd) as (doc & Hrun & _ & Hkeep).
  assert (Hs : standard (normalized (VObj o) ts) = true)
    by now rewrite standard_normalized.
  exists doc. split; [exact Hrun|]. split.
  - change (get doc "message" = js_or (get (VObj o) "msg") (VStr "-")).
    rewrite <- (normalized_message (VObj o) ts eq_refl).
    apply get_own. rewrite (Hkeep "message" Hamessage).
    apply get_lookup; [exact Hs | reflexivity |].
    rewrite (normalized_message (VObj o) ts eq_refl). unfold js_or.
    destruct (truthy (get (VObj o) "msg")) eqn:E; [|discriminate].
    intros H. rewrite H in E. discriminate.
  - rewrite <- (normalized_msg (VObj o) ts eq_refl).
    unfold has_key. now rewrite (Hkeep "msg" Hamsg).
Qed.

Lemma message_is_truthy_msg_or_dash_witness :
  exists doc,
    @Cli.mapper sample_runtime (cli_options "logs-%{DATE}") 0 hello_line = forwarded doc /\
    get doc "message" = VStr "hello" /\
    has_key doc "msg" = false.
Proof.
  apply (@message_is_truthy_msg_or_dash sample_runtime
           (cli_options "logs-%{DATE}") 0 hello_line
           [("msg", VStr "hello"); ("time", VStr "2024-01-01T00:00:00.000Z")]);
    vm_compute; reflexivity.
Defined.

(** C8 as stated fails: the line [{"msg":""}] has a [msg]; the document's
    [message] is the dash, not that [msg], and [msg] is still there. *)
Lemma empty_msg_stays :
  @JSON_parse sample_runtime (qq "{'msg':''}") = Some (VObj [("msg", VStr "")]) /\
  @Cli.mapper sample_runtime (cli_options "logs-%{DATE}") 1704067200000 (qq "{'msg':''}")
  = forwarded (VObj [("msg", VStr ""); ("message", VStr "-");
                     ("@timestamp", VStr "2024-01-01T00:00:00.000Z")]).
Proof. split; vm_compute; reflexivity. Qed.

(** A line with a key [__proto__]: the object under it becomes the prototype
    of the document, and the [msg] of the line is merged with the [message]
    that the document reads from there. *)
Lemma message_merged_with_the_prototype :
  @Cli.mapper sample_runtime (cli_options "logs-%{DATE}") 0
    (qq "{'__proto__':{'message':{'x':1}},'msg':{'y':2}}")
  = forwarded (VProto (VObj [("message", VObj [("x", VNum 1)])])
                 [("message", VObj [("x", VNum 1); ("y", VNum 2)]);
                  ("@timestamp", VStr (iso_string 0))]).
Proof. vm_compute. reflexivity. Qed.

(** ** What the amended claims leave out

    The lines on which the mapper throws: they end in neither a document nor
    an event. *)

(** Called without [additionalObject], the cli variant throws on a line
    that would become a document. *)
Lemma Cli_mapper_throws_without_additionalObject :
  @Cli.mapper sample_runtime no_options 0 (qq "{'msg':'hi'}")
  = {| emitted := []; console := []; returned := Throw TypeError |}.
Proof. vm_compute. reflexivity. Qed.

(** A [time] that is no date makes both variants throw. *)
Lemma mapper_throws_on_invalid_time :
  @Cli.mapper sample_runtime (cli_options "logs-%{DATE}") 0 (qq "{'time':'not a date'}")
  = {| emitted := []; console := []; returned := Throw RangeError |} /\
  @Lib.mapper sample_runtime (cli_options "logs-%{DATE}") 0 (qq "{'time':'not a date'}")
  = {| emitted := []; console := []; returned := Throw RangeError |}.
Proof. split; vm_compute; reflexivity. Qed.

(** An own property named [hasOwnProperty] makes both variants throw. *)
Lemma mapper_throws_on_shadowed_hasOwnProperty :
  @Cli.mapper sample_runtime (cli_options "logs-%{DATE}") 0 (qq "{'hasOwnProperty':1}")
  = {| emitted := []; console := []; returned := Throw TypeError |} /\
  @Lib.mapper sample_runtime (cli_options "logs-%{DATE}") 0 (qq "{'hasOwnProperty':1}")
  = {| emitted := []; console := []; returned := Throw TypeError |}.
Proof. split; vm_compute; reflexivity. Qed.

(** ** Further properties of the two functions *)

(** The calls of [mergeDeep] nest no deeper than its arguments are nested:
    given arguments none of which is [null] or [undefined], on a call stack
    with room for more nested calls than that depth it ends without an
    exception and yields an object that is no array.  (With less room the
    run is cut, which is where an engine throws a RangeError.) *)
Theorem mergeDeep_returns_within_the_stack (objects : list value) (limit : nat) :
  Forall (fun o => not_nullish o = true) objects ->
  list_max (map depth objects) < limit ->
  exists doc, mergeDeep_fuel limit objects = Some (Normal doc) /\
              isObject doc = true /\ Array_isArray doc = false.
Proof.
  intros Hall Hlimit.
  destruct (mergeDeep_fuel_lift objects (pred limit) Hall) as (prev & _ & Hr); [lia|].
  exists (to_value prev).
  split; [|destruct (to_value_object prev) as (H1 & H2 & _); now split].
  replace limit with (S (pred limit)) by lia.
  now rewrite mergeDeep_fuel_unfold, Hr.
Qed.

Lemma mergeDeep_returns_within_the_stack_witness :
  (exists doc,
     mergeDeep_fuel 5 [ VObj [("a", VObj [("b", VArr [VObj [("c", VNull)]] [])])];
                        VStr "xy"; VNum 1%float;
                        VObj [("a", VObj [("b", VArr [VNum 2%float] [])])] ]
     = Some (Normal doc) /\
     isObject doc = true /\ Array_isArray doc = false) /\
  mergeDeep_fuel 1 [ VObj [("a", VObj [("b", VArr [VObj [("c", VNull)]] [])])];
                     VStr "xy"; VNum 1%float;
                     VObj [("a", VObj [("b", VArr [VNum 2%float] [])])] ]
  = None.
Proof.
  split; [|vm_compute; reflexivity].
  apply mergeDeep_returns_within_the_stack;
    [repeat (apply Forall_cons; [reflexivity|]); apply Forall_nil | vm_compute; lia].
Defined.

(** The deep merge of two values without an own property [__proto__], the
    first with its own prototype, key by key: under a key the second does not
    have the result holds what the first has; under a key it has, the result
    holds the concatenation (with one level of flattening) of two arrays,
    the recursive merge of two objects, and the second's value in every
    other case. *)
Theorem mergeDeep_key_by_key (a b : value) (k : string) :
  not_nullish a = true -> not_nullish b = true -> standard a = true ->
  has_key a "__proto__" = false -> has_key b "__proto__" = false ->
  exists doc,
    mergeDeep [a; b] = Normal doc /\
    (has_key b k = false -> get doc k = get a k /\ has_key doc k = has_key a k) /\
    (has_key b k = true -> merge_values (get a k) (get b k) = Normal (get doc k)).
Proof.
  intros Ha Hb Hs Hpa Hpb.
  destruct (mergeDeep_by_key a b k Ha Hb Hpa Hpb) as (r & Hm & _ & _ & Hout & Hin).
  exists (VObj r). split; [exact Hm|]. rewrite (get_standard a k Hs). split.
  - intros Hk. unfold has_key. cbn [get own_entries]. now rewrite (Hout Hk).
  - intros Hk. destruct (Hin Hk) as (x & Hl & Hx).
    cbn [get own_entries]. now rewrite Hl.
Qed.

Lemma mergeDeep_key_by_key_witness :
  exists doc,
    mergeDeep [ VObj [("a", VObj [("b", VNum 1%float)]); ("n", VNum 1%float)];
                VObj [("a", VObj [("c", VNum 2%float)])] ] = Normal doc /\
    (has_key (VObj [("a", VObj [("c", VNum 2%float)])]) "a" = false ->
       get doc "a" = get (VObj [("a", VObj [("b", VNum 1%float)]); ("n", VNum 1%float)]) "a" /\
       has_key doc "a"
       = has_key (VObj [("a", VObj [("b", VNum 1%float)]); ("n", VNum 1%float)]) "a") /\
    (has_key (VObj [("a", VObj [("c", VNum 2%float)])]) "a" = true ->
       merge_values (get (VObj [("a", VObj [("b", VNum 1%float)]); ("n", VNum 1%float)]) "a")
                    (get (VObj [("a", VObj [("c", VNum 2%float)])]) "a")
       = Normal (get doc "a")).
Proof.
  apply (mergeDeep_key_by_key
           (VObj [("a", VObj [("b", VNum 1%float)]); ("n", VNum 1%float)])
           (VObj [("a", VObj [("c", VNum 2%float)])]) "a");
    reflexivity.
Defined.

(** Called with options that carry no [additionalObject], the mapper of the
    cli variant throws a TypeError on every line that [lib.js] turns into a
    document: [mergeDeep] applies [Object.keys] to [undefined]. *)
Theorem Cli_mapper_needs_additionalObject {rt : Runtime}
    (opts : options) (now : Z) (line : string) (v : value) :
  JSON_parse line = Some v ->
  document_input v = true ->
  (isObject v = true -> dateable v = true) ->
  not_nullish (additionalObject opts) = false ->
  Cli.mapper opts now line
  = {| emitted := []; console := []; returned := Throw TypeError |} /\
  exists doc, Lib.mapper opts now line = forwarded doc.
Proof.
  intros Hp Hdoc Hsafe Hadd. split; [|now apply Lib_mapper_document with (v := v)].
  assert (Hobject : isObject v = true ->
                    Cli.mapper opts now line
                    = {| emitted := []; console := []; returned := Throw TypeError |}).
  { intros Hobj. rewrite (Cli_mapper_object opts now line v Hp Hobj).
    destruct (normalize_dateable now v Hobj (Hsafe Hobj)) as [ts ->]. cbn [bind].
    rewrite mergeDeep_nullish; [reflexivity | | exact Hadd].
    apply isObject_not_nullish. now rewrite isObject_normalized. }
  assert (Hscalar : is_object_type v = false ->
          silent (value <- (ts <- setDateTimeString now v ;;
                            Normal (VObj [("data", v); ("@timestamp", VStr ts)])) ;;
                  mergeDeep [value; additionalObject opts])
          = {| emitted := []; console := []; returned := Throw TypeError |}).
  { intros Hs. rewrite setDateTimeString_scalar by exact Hs. cbn [bind].
    now rewrite mergeDeep_nullish. }
  destruct v; try discriminate; try (apply Hobject; reflexivity);
    unfold Cli.mapper; rewrite Hp; apply Hscalar; reflexivity.
Qed.

Lemma Cli_mapper_needs_additionalObject_witness :
  @Cli.mapper sample_runtime no_options 0 hello_line
  = {| emitted := []; console := []; returned := Throw TypeError |} /\
  exists doc, @Lib.mapper sample_runtime no_options 0 hello_line = forwarded doc.
Proof.
  apply (@Cli_mapper_needs_additionalObject sample_runtime no_options 0 hello_line
           (VObj [("msg", VStr "hello"); ("time", VStr "2024-01-01T00:00:00.000Z")]));
    reflexivity.
Defined.

(* ===================================================================== *)
(** * The entry point and the rest of the bulk handler *)

(** ** split and join *)

Lemma split_on_not_nil (sep : ascii) (s : string) : split_on sep s <> [].
Proof.
  destruct s as [|c s]; cbn [split_on]; [discriminate|].
  destruct (Ascii.eqb c sep); [discriminate|].
  destruct (split_on sep s); discriminate.
Qed.

Lemma split_on_length (sep : ascii) (s : string) :
  List.length (split_on sep s) <= S (String.length s).
Proof.
  induction s as [|c s IH]; cbn [split_on String.length]; [cbn; lia|].
  destruct (Ascii.eqb c sep); [cbn [List.length]; lia|].
  destruct (split_on sep s); cbn [List.length] in *; lia.
Qed.

Lemma split_on_no_sep (sep : ascii) (s : string) :
  no_sep sep s -> split_on sep s = [s].
Proof.
  unfold no_sep. induction s as [|c s IH]; intros H; [reflexivity|].
  cbn [split_on]. cbn [list_ascii_of_string] in H.
  destruct (Ascii.eqb c sep) eqn:E.
  - apply Ascii.eqb_eq in E. exfalso. apply H. left. now symmetry.
  - rewrite IH; [reflexivity|]. intros Hin. apply H. now right.
Qed.

Lemma split_on_app (sep : ascii) (s rest : string) :
  no_sep sep s ->
  split_on sep (s ++ String sep rest) = s :: split_on sep rest.
Proof.
  unfold no_sep. induction s as [|c s IH]; intros H.
  - cbn [append split_on]. now rewrite Ascii.eqb_refl.
  - cbn [append split_on]. cbn [list_ascii_of_string] in H.
    destruct (Ascii.eqb c sep) eqn:E.
    + apply Ascii.eqb_eq in E. exfalso. apply H. left. now symmetry.
    + rewrite IH; [reflexivity|]. intros Hin. apply H. now right.
Qed.

(** Splitting what was joined gives the parts back. *)
Lemma split_on_concat (sep : ascii) (parts : list string) :
  parts <> [] -> Forall (no_sep sep) parts ->
  split_on sep (String.concat (String sep "") parts) = parts.
Proof.
  intros Hne Hall. induction Hall as [|p parts Hp Hall IH]; [contradiction|].
  destruct parts as [|q parts].
  - cbn [String.concat]. now apply split_on_no_sep.
  - change (String.concat (String sep "") (p :: q :: parts))
      with (p ++ String sep "" ++ String.concat (String sep "") (q :: parts))%string.
    cbn [append]. rewrite split_on_app by exact Hp.
    now rewrite IH.
Qed.

(** Joining what was split gives the string back, and no part holds the
    separator. *)
Lemma concat_split_on (sep : ascii) (s : string) :
  String.concat (String sep "") (split_on sep s) = s /\
  Forall (no_sep sep) (split_on sep s).
Proof.
  induction s as [|c s IH]; cbn [split_on].
  - split; [reflexivity|]. repeat constructor. intros H. exact H.
  - destruct IH as [IHc IHf]. destruct (Ascii.eqb c sep) eqn:E.
    + apply Ascii.eqb_eq in E. subst c. split.
      * destruct (split_on sep s) as [|p ps] eqn:Es;
          [now apply split_on_not_nil in Es|].
        change (String.concat (String sep "") ("" :: p :: ps))
          with ("" ++ String sep "" ++ String.concat (String sep "") (p :: ps))%string.
        cbn [append]. now rewrite IHc.
      * constructor; [intros H; exact H | exact IHf].
    + destruct (split_on sep s) as [|p ps] eqn:Es;
        [now apply split_on_not_nil in Es|].
      apply Forall_cons_iff in IHf. destruct IHf as [Hp Hps]. split.
      * destruct ps as [|q ps].
        -- cbn [String.concat] in *. now rewrite IHc.
        -- change (String.concat (String sep "") (String c p :: q :: ps))
             with (String c p ++ String sep "" ++ String.concat (String sep "") (q :: ps))%string.
           change (String.concat (String sep "") (p :: q :: ps))
             with (p ++ String sep "" ++ String.concat (String sep "") (q :: ps))%string in IHc.
           cbn [append] in *. now rewrite IHc.
      * constructor; [|exact Hps].
        unfold no_sep in *. cbn [list_ascii_of_string]. intros [Heq|Hin].
        -- subst c. now rewrite Ascii.eqb_refl in E.
        -- contradiction.
Qed.

Lemma concat_empty (sep : ascii) (parts : list string) :
  String.concat (String sep "") parts = "" -> parts = [] \/ parts = [""].
Proof.
  destruct parts as [|p [|q parts]]; cbn [String.concat]; intros H; auto.
  - right. now subst.
  - exfalso. destruct p; cbn [append] in H; discriminate.
Qed.

(** ** processKey *)

Lemma path_object_app (path : list string) (k : string) (leaf : value) :
  path_object (path ++ [k]) leaf = path_object path (VObj [(k, leaf)]).
Proof. induction path as [|p path IH]; cbn [app path_object]; now rewrite ?IH. Qed.

Lemma processKey_fuel_empty (fuel : nat) (leaf : value) :
  processKey_fuel (S fuel) "" leaf = Some leaf.
Proof. reflexivity. Qed.

Lemma processKey_fuel_step (fuel : nat) (f : string) (leaf : value) :
  f <> "" ->
  processKey_fuel (S fuel) f leaf
  = processKey_fuel fuel (String.concat "_" (removelast (split_on "_" f)))
                    (VObj [(last (split_on "_" f) "", leaf)]).
Proof.
  intros Hf. cbn [processKey_fuel].
  destruct (f =? "") eqn:E; [apply String.eqb_eq in E; contradiction|].
  destruct (split_on "_" f) eqn:Es; [now apply split_on_not_nil in Es | reflexivity].
Qed.

Lemma processKey_fuel_path (parts : list string) :
  parts <> [] -> Forall (no_sep "_") parts ->
  forall fuel leaf,
  List.length parts < fuel ->
  processKey_fuel fuel (String.concat "_" parts) leaf
  = Some (path_object (drop_empty_head parts) leaf).
Proof.
  induction parts as [|l init IH] using rev_ind; [contradiction|].
  intros _ Hall fuel leaf Hfuel.
  apply Forall_app in Hall. destruct Hall as [Hinit Hl].
  rewrite length_app in Hfuel. cbn [List.length] in Hfuel.
  destruct fuel as [|fuel]; [lia|].
  destruct (String.eqb_spec (String.concat "_" (init ++ [l])) "") as [E|E].
  - rewrite E. apply concat_empty in E.
    destruct E as [E|E]; [now destruct init | rewrite E; reflexivity].
  - rewrite processKey_fuel_step by exact E.
    rewrite split_on_concat; [| now destruct init | apply Forall_app; now split].
    rewrite removelast_last, last_last.
    destruct init as [|i init].
    + cbn [String.concat app] in *.
      destruct fuel as [|fuel]; [lia|]. rewrite processKey_fuel_empty.
      destruct l; [contradiction | reflexivity].
    + rewrite IH; [| discriminate | exact Hinit | cbn [List.length] in *; lia].
      rewrite <- path_object_app. f_equal.
      cbn [app]. destruct i; reflexivity.
Qed.

Lemma key_path_split (f : string) :
  key_path f = drop_empty_head (split_on "_" f).
Proof.
  unfold key_path, drop_empty_head. destruct f as [|c f]; [reflexivity|].
  cbn [String.eqb]. destruct (split_on "_" (String c f)) as [|[|a p] rest]; reflexivity.
Qed.

Lemma processKey_is_path (f : string) (leaf : value) :
  processKey f leaf = Normal (path_object (key_path f) leaf).
Proof.
  unfold processKey. destruct (concat_split_on "_" f) as [Hjoin Hfree].
  rewrite <- Hjoin at 2.
  rewrite processKey_fuel_path.
  - now rewrite key_path_split.
  - apply split_on_not_nil.
  - exact Hfree.
  - pose proof (split_on_length "_" f). lia.
Qed.

(** ** The entry point *)

Lemma prefix_app (p s : string) :
  prefix p s = true -> exists rest, s = (p ++ rest)%string.
Proof.
  revert s. induction p as [|c p IH]; intros s H.
  - exists s. reflexivity.
  - destruct s as [|c' s]; [discriminate|]. cbn [prefix] in H.
    destruct (ascii_dec c c') as [->|]; [|discriminate].
    destruct (IH s H) as [rest ->]. exists rest. reflexivity.
Qed.

Lemma toLowerCase_app (a b : string) :
  toLowerCase (a ++ b) = (toLowerCase a ++ toLowerCase b)%string.
Proof. induction a as [|c a IH]; cbn [append toLowerCase]; now rewrite ?IH. Qed.

Lemma path_object_split (p1 p2 : list string) (leaf : value) :
  path_object (p1 ++ p2) leaf = path_object p1 (path_object p2 leaf).
Proof. induction p1 as [|p p1 IH]; cbn [app path_object]; now rewrite ?IH. Qed.

(** The key path of an enrichment field: [log], [es], [var], and the parts
    of the lower-cased rest of the variable's name. *)
Lemma key_path_field (rest : string) :
  key_path (toLowerCase ("LOG_ES_VAR_" ++ rest))
  = ["log"; "es"; "var"] ++ split_on "_" (toLowerCase rest).
Proof.
  rewrite toLowerCase_app.
  change (toLowerCase "LOG_ES_VAR_") with "log_es_var_".
  rewrite key_path_split.
  change ("log_es_var_" ++ toLowerCase rest)%string
    with ("log" ++ String "_" ("es" ++ String "_" ("var" ++ String "_" (toLowerCase rest))))%string.
  rewrite !split_on_app; [reflexivity | | |];
    unfold no_sep; cbn [list_ascii_of_string In]; intuition discriminate.
Qed.

Lemma has_path_along (path : list string) :
  forall m, has_path path m -> along path m.
Proof.
  induction path as [|k path IH]; intros [] H; try contradiction; cbn in *; [exact I|].
  destruct H as (x & Hx & Hp). right. exists x. split; [exact Hx | now apply IH].
Qed.

Lemma has_path_path_object (path : list string) (x : props) :
  has_path path (path_object path (VObj x)).
Proof.
  induction path as [|k path IH]; cbn [path_object has_path]; [exact I|].
  exists (path_object path (VObj x)). cbn [lookup]. now rewrite String.eqb_refl.
Qed.

Lemma path_object_isObject (path : list string) (x : props) :
  exists o, path_object path (VObj x) = VObj o.
Proof. destruct path; cbn [path_object]; eauto. Qed.

Lemma split_on_parts (sep : ascii) (s : string) :
  Forall (no_sep sep) (split_on sep s).
Proof.
  assert (Hempty : no_sep sep "") by (intros []).
  assert (Hcons : forall c p, Ascii.eqb c sep = false -> no_sep sep p ->
                              no_sep sep (String c p)).
  { intros c p E Hp [->|Hin]; [now rewrite Ascii.eqb_refl in E | now apply Hp]. }
  induction s as [|c s IH]; cbn [split_on].
  - now repeat constructor.
  - destruct (Ascii.eqb c sep) eqn:E.
    + now constructor.
    + destruct (split_on sep s) as [|p ps].
      * repeat constructor. now apply Hcons.
      * inversion IH as [|? ? Hp Hps]; subst. constructor; [|exact Hps].
        now apply Hcons.
Qed.

Lemma no_sep_not_proto (p : string) : no_sep "_" p -> p <> "__proto__".
Proof. intros H ->. apply H. now left. Qed.

Lemma path_object_free (path : list string) (leaf : value) :
  Forall (no_sep "_") path -> proto_free leaf = true ->
  proto_free (path_object path leaf) = true.
Proof.
  intros Hpath Hleaf. induction Hpath as [|p path Hp _ IH]; cbn [path_object]; [exact Hleaf|].
  cbn [proto_free forallb]. rewrite IH, andb_true_r, andb_true_r.
  apply negb_true_iff, String.eqb_neq. now apply no_sep_not_proto.
Qed.

(** Merging a chain of one-key mappings into a mapping that holds mappings
    along the chain gives a mapping that holds the whole chain; no key being
    [__proto__], none is in the result. *)
Lemma mergeDeep_path_object (path : list string) (x : props) :
  forall m, along path m -> proto_free m = true ->
  proto_free (path_object path (VObj x)) = true ->
  exists doc, mergeDeep [m; path_object path (VObj x)] = Normal doc /\
              has_path path doc /\ proto_free doc = true.
Proof.
  induction path as [|k path IH]; intros m Hm Hfm Hfp.
  - destruct m as [| | | | | |l|]; try contradiction.
    destruct (mergeDeep_returns [VObj l; path_object [] (VObj x)]) as (r & Hr & _);
      [now repeat constructor|].
    destruct (mergeDeep_proto_free [VObj l; path_object [] (VObj x)] (to_value r))
      as (Hf & o & Ho); [cbn [forallb]; now rewrite Hfm, Hfp | exact Hr |].
    exists (to_value r). rewrite Ho in *. repeat split; assumption.
  - destruct m as [| | | | | |l|]; try contradiction. cbn [along] in Hm.
    cbn [path_object] in *.
    set (b := VObj [(k, path_object path (VObj x))]) in *.
    destruct (proto_free_standard _ Hfm) as [_ Hpa].
    destruct (proto_free_standard _ Hfp) as [_ Hpb].
    destruct (mergeDeep_by_key (VObj l) b k eq_refl eq_refl Hpa Hpb)
      as (r & Hdoc & _ & _ & _ & Hin).
    destruct (mergeDeep_proto_free [VObj l; b] (VObj r)) as (Hf & _);
      [cbn [forallb]; now rewrite Hfm, Hfp | exact Hdoc |].
    exists (VObj r). split; [exact Hdoc|]. split; [|exact Hf].
    assert (Hk : has_key b k = true)
      by (unfold has_key; cbn [b own_entries lookup]; now rewrite String.eqb_refl).
    destruct (Hin Hk) as (z & Hz & Hmerge). cbn [own_entries] in Hmerge.
    assert (Hgo : get b k = path_object path (VObj x))
      by (cbn [b get own_entries lookup]; now rewrite String.eqb_refl).
    rewrite Hgo in Hmerge. destruct (path_object_isObject path x) as [o Ho].
    assert (Hfo : proto_free (path_object path (VObj x)) = true).
    { cbn [b proto_free forallb] in Hfp. apply andb_true_iff in Hfp.
      destruct Hfp as [Hfp _]. apply andb_true_iff in Hfp. now destruct Hfp. }
    cbn [has_path]. exists z. split; [exact Hz|].
    destruct Hm as [Hnone|(y & Hy & Hal)].
    + rewrite Hnone in Hmerge. unfold merge_values in Hmerge.
      cbn [Array_isArray isObject truthy andb] in Hmerge.
      injection Hmerge as <-. apply has_path_path_object.
    + rewrite Hy in Hmerge.
      assert (Hfy : proto_free y = true).
      { apply (lookup_free l k y); [|exact Hy]. exact Hfm. }
      destruct (IH y Hal Hfy Hfo) as (doc' & Hdoc' & Hp' & _).
      assert (Hy' : exists ly, y = VObj ly)
        by (destruct y; destruct path; try contradiction; eauto).
      destruct Hy' as [ly ->].
      unfold merge_values in Hmerge. rewrite Ho in Hmerge, Hdoc'.
      cbn [Array_isArray isObject truthy is_object_type typeof andb] in Hmerge.
      rewrite Hdoc' in Hmerge. injection Hmerge as <-. exact Hp'.
Qed.

Section EntryPointFacts.
Context {host : Host}.

Lemma additionalFields_prefixed (env : environment) (field : string) :
  In field (additionalFields env) ->
  exists rest, field = toLowerCase ("LOG_ES_VAR_" ++ rest) /\
               In ("LOG_ES_VAR_" ++ rest)%string (map fst env).
Proof.
  unfold additionalFields, env_keys. intros H.
  apply in_map_iff in H. destruct H as (key & <- & Hin).
  apply filter_In in Hin. destruct Hin as [Hin Hp].
  apply nodup_In in Hin.
  destruct (prefix_app _ _ Hp) as [rest ->]. eauto.
Qed.

(** One step of the [reduce]: a chain under [log.es.var] is merged in, and
    the mapping keeps holding mappings along [log.es.var]. *)
Lemma add_field_along (env : environment) (m : value) (rest : string) :
  along ["log"; "es"; "var"] m -> proto_free m = true ->
  exists m', add_field env (Normal m) (toLowerCase ("LOG_ES_VAR_" ++ rest)) = Normal m' /\
             has_path ["log"; "es"; "var"] m' /\ proto_free m' = true.
Proof.
  intros Hm Hfm. unfold add_field. cbn [bind].
  set (leaf := getenv env _).
  assert (Hleaf : proto_free leaf = true)
    by (subst leaf; unfold getenv; now destruct (lookup_env env _)).
  rewrite processKey_is_path, key_path_field. cbn [bind].
  assert (Hfree : proto_free (path_object (["log"; "es"; "var"]
                                            ++ split_on "_" (toLowerCase rest)) leaf) = true).
  { apply path_object_free; [|exact Hleaf].
    apply Forall_app. split; [|apply split_on_parts].
    repeat constructor; unfold no_sep; cbn [list_ascii_of_string In]; intuition discriminate. }
  rewrite path_object_split in *.
  destruct (split_on "_" (toLowerCase rest)) as [|p ps] eqn:Es;
    [now apply split_on_not_nil in Es|].
  change (path_object (p :: ps) leaf) with (VObj [(p, path_object ps leaf)]) in *.
  now apply mergeDeep_path_object.
Qed.

Lemma merged_fields_along (env : environment) (fields : list string) :
  (forall f, In f fields -> exists rest, f = toLowerCase ("LOG_ES_VAR_" ++ rest)) ->
  forall m, along ["log"; "es"; "var"] m -> proto_free m = true ->
  exists m', fold_left (add_field env) fields (Normal m) = Normal m' /\
             along ["log"; "es"; "var"] m'.
Proof.
  induction fields as [|f fields IH]; intros Hall m Hm Hfm; cbn [fold_left].
  - eauto.
  - destruct (Hall f (or_introl eq_refl)) as [rest ->].
    destruct (add_field_along env m rest Hm Hfm) as (m1 & -> & H1 & Hf1).
    apply IH; [|now apply has_path_along | exact Hf1].
    intros f' Hin. apply Hall. now right.
Qed.

Lemma optional_get_VObj (l : props) (k : string) :
  optional_get (VObj l) k
  = match lookup k l with Some x => x | None => VUndefined end.
Proof. reflexivity. Qed.

Lemma additionalObject_of_along (m : value) :
  along ["log"; "es"; "var"] m -> exists o, additionalObject_of m = VObj o.
Proof.
  intros Hm. unfold additionalObject_of. cbv zeta.
  destruct m as [| | | | | |l|]; try contradiction. cbn [along] in Hm.
  rewrite optional_get_VObj.
  destruct Hm as [->|(e & -> & He)]; [cbn; eauto|].
  destruct e as [| | | | | |le|]; try contradiction.
  rewrite optional_get_VObj.
  destruct He as [->|(v & -> & Hv)]; [cbn; eauto|].
  destruct v as [| | | | | |lv|]; try contradiction.
  rewrite optional_get_VObj.
  destruct Hv as [->|(x & -> & Hx)]; [cbn; eauto|].
  destruct x; try contradiction. cbn [truthy]. eauto.
Qed.

End EntryPointFacts.

(** ** Dollar-free texts *)

Lemma list_ascii_of_string_app (a b : string) :
  list_ascii_of_string (a ++ b) = list_ascii_of_string a ++ list_ascii_of_string b.
Proof. induction a as [|c a IH]; cbn [append list_ascii_of_string app]; now rewrite ?IH. Qed.

Lemma dollar_free_app (a b : string) :
  dollar_free a -> dollar_free b -> dollar_free (a ++ b).
Proof.
  unfold dollar_free. intros Ha Hb c Hin.
  rewrite list_ascii_of_string_app in Hin. apply in_app_or in Hin.
  destruct Hin; auto.
Qed.

Lemma dollar_free_digit (d : nat) :
  d < 10 -> dollar_free (String (digit_char d) "").
Proof.
  intros Hd c [<-|[]] Heq. unfold digit_char in Heq.
  apply (f_equal nat_of_ascii) in Heq.
  rewrite nat_ascii_embedding in Heq by lia.
  change (nat_of_ascii "$") with 36 in Heq. lia.
Qed.

Lemma dollar_free_pad (width : nat) :
  forall z, dollar_free (pad width z).
Proof.
  induction width as [|w IH]; intros z; cbn [pad].
  - intros c [].
  - apply dollar_free_app; [apply IH|]. apply dollar_free_digit.
    pose proof (Z.mod_pos_bound z 10 ltac:(lia)). lia.
Qed.

Lemma dollar_free_char (c : ascii) :
  c <> "$"%char -> dollar_free (String c "").
Proof. intros Hc c' [<-|[]]. exact Hc. Qed.

Lemma dollar_free_iso_string (t : Z) : dollar_free (iso_string t).
Proof.
  unfold iso_string. destruct (civil_from_days (t / msPerDay)) as [[y m] d].
  assert (Hyear : dollar_free (iso_year y)).
  { unfold iso_year. destruct ((0 <=? y)%Z && (y <=? 9999)%Z); [apply dollar_free_pad|].
    apply dollar_free_app; [|apply dollar_free_pad].
    destruct (y <? 0)%Z; apply dollar_free_char; discriminate. }
  repeat (apply dollar_free_app;
          [first [exact Hyear | apply dollar_free_pad | apply dollar_free_char; discriminate]|]).
  apply dollar_free_char; discriminate.
Qed.

Lemma In_substring (c : ascii) (n m : nat) (s : string) :
  In c (list_ascii_of_string (substring n m s)) -> In c (list_ascii_of_string s).
Proof.
  revert n m. induction s as [|a s IH]; intros n m H.
  - destruct n, m; exact H.
  - destruct n as [|n].
    + destruct m as [|m]; [destruct H|].
      cbn [substring list_ascii_of_string] in H. destruct H as [<-|H]; [now left|].
      right. now apply (IH 0 m).
    + cbn [substring] in H. right. now apply (IH n m).
Qed.

Lemma dollar_free_substring (n m : nat) (s : string) :
  dollar_free s -> dollar_free (substring n m s).
Proof. intros H c Hin. apply H. now apply In_substring in Hin. Qed.

(** ** getIndexName *)

Lemma GetSubstitution_empty (matched before after : string) :
  GetSubstitution matched before after "" = "".
Proof. reflexivity. Qed.

Lemma append_empty_r (s : string) : (s ++ "")%string = s.
Proof. induction s as [|c s IH]; cbn [append]; now rewrite ?IH. Qed.

(** ** onDocument *)

Lemma set_prop_twice (o : props) (k : string) (v w : value) :
  set_prop (set_prop o k v) k w = set_prop o k w.
Proof.
  induction o as [|[k' v'] o IH]; cbn [set_prop].
  - now rewrite String.eqb_refl.
  - destruct (k =? k') eqn:E; cbn [set_prop]; [now rewrite String.eqb_refl|].
    now rewrite E, IH.
Qed.

Lemma set_twice (doc : value) (k : string) (v w : value) :
  set (set doc k v) k w = set doc k w.
Proof. destruct doc; cbn [set]; now rewrite ?set_prop_twice. Qed.

Lemma set_prop_present (o : props) (k : string) (v : value) :
  lookup k o = Some v -> set_prop o k v = o.
Proof.
  induction o as [|[k' v'] o IH]; cbn [lookup set_prop]; [discriminate|].
  destruct (k =? k') eqn:E.
  - apply String.eqb_eq in E. subst. now intros [= ->].
  - intros H. now rewrite IH.
Qed.

(** The effective timestamp of a document is the same before and after the
    callback wrote it to [@timestamp]. *)
Lemma effective_timestamp_stable (doc : value) :
  isObject doc = true ->
  let date := js_or (get doc "time") (get doc "@timestamp") in
  js_or (get (set doc "@timestamp" date) "time")
        (get (set doc "@timestamp" date) "@timestamp") = date.
Proof.
  intros Hobj date.
  rewrite get_set_other by discriminate.
  rewrite get_set_same; [| now apply isObject_object_type
                          | now apply isObject_object_type | reflexivity].
  subst date. unfold js_or. now destruct (truthy (get doc "time")).
Qed.

(* ===================================================================== *)
(** * Further properties *)

(** ** processKey and the enrichment object of the entry point *)

(** [processKey] turns an underscore-separated key into the nested object of
    its parts, innermost the value; a first part that is empty is dropped.
    (Every key is the join of its parts.) *)
Theorem processKey_nests_the_parts (parts : list string) (leaf : value) :
  parts <> [] -> Forall (no_sep "_") parts ->
  processKey (String.concat "_" parts) leaf
  = Normal (path_object (drop_empty_head parts) leaf).
Proof.
  intros Hne Hfree.
  rewrite processKey_is_path, key_path_split.
  now rewrite split_on_concat.
Qed.

Lemma processKey_nests_the_parts_witness :
  processKey (String.concat "_" ["log"; "es"; "var"; "a"; "b"]) (VStr "v")
  = Normal (path_object (drop_empty_head ["log"; "es"; "var"; "a"; "b"]) (VStr "v")).
Proof.
  apply processKey_nests_the_parts; [discriminate|].
  repeat constructor; unfold no_sep; cbn [list_ascii_of_string In]; intuition discriminate.
Defined.

Lemma cli_start_options_Normal {host : Host} (env : environment) :
  exists opts o,
    cli_start_options env = Normal opts /\
    additionalObject opts = VObj o /\
    index_of opts = inl (env_or env "LOG_ES_INDEX" "logs-apm-%{DATE}") /\
    env_or env "LOG_ES_INDEX" "logs-apm-%{DATE}" <> "".
Proof.
  assert (Hfields : forall f, In f (additionalFields env) ->
                     exists rest, f = toLowerCase ("LOG_ES_VAR_" ++ rest)).
  { intros f Hin. destruct (additionalFields_prefixed env f Hin) as (rest & -> & _). eauto. }
  destruct (merged_fields_along env (additionalFields env) Hfields (VObj []))
    as (m & Hm & Halong).
  - cbn. now left.
  - reflexivity.
  - destruct (additionalObject_of_along m Halong) as [o Ho].
    assert (Hidx : env_or env "LOG_ES_INDEX" "logs-apm-%{DATE}" <> "").
    { unfold env_or. destruct (lookup_env env "LOG_ES_INDEX") as [s|]; [|discriminate].
      destruct (s =? "") eqn:E; [discriminate|]. now apply String.eqb_neq in E. }
    eexists. exists o. unfold cli_start_options, merged_fields. rewrite Hm. cbn [bind].
    split; [reflexivity|]. cbn [additionalObject]. split; [exact Ho|].
    split; [|exact Hidx].
    unfold index_of. cbn [index].
    destruct (env_or env "LOG_ES_INDEX" "logs-apm-%{DATE}" =? "") eqn:E; [|reflexivity].
    apply String.eqb_eq in E. contradiction.
Qed.

(** Whatever the environment, the entry point of the cli variant builds its
    options without an exception; their [additionalObject] is a mapping and
    their index is a non-empty template, never a function. *)
Theorem cli_start_options_are_built {host : Host} (env : environment) :
  exists opts o,
    cli_start_options env = Normal opts /\
    additionalObject opts = VObj o /\
    index_of opts = inl (env_or env "LOG_ES_INDEX" "logs-apm-%{DATE}") /\
    env_or env "LOG_ES_INDEX" "logs-apm-%{DATE}" <> "".
Proof. apply cli_start_options_Normal. Qed.

(** Hence, with the options of the entry point, the mapper of the cli variant
    does not throw on any line whose decoded object [setDateTimeString] can
    date. *)
Theorem cli_entry_point_mapper_returns {rt : Runtime} {host : Host}
    (env : environment) (opts : options) (now : Z) (line : string) :
  cli_start_options env = Normal opts ->
  (forall v, JSON_parse line = Some v -> isObject v = true -> dateable v = true) ->
  exists r, returned (Cli.mapper opts now line) = Normal r.
Proof.
  intros Hopts Hsafe.
  destruct (cli_start_options_Normal env) as (opts' & o & Hopts' & Ho & _).
  rewrite Hopts in Hopts'. injection Hopts' as <-.
  destruct (JSON_parse line) as [v|] eqn:Hp.
  - destruct (document_input v) eqn:Hdoc.
    + destruct (Cli_mapper_document opts now line v Hp Hdoc (Hsafe v eq_refl)) as [doc ->].
      * now rewrite Ho.
      * cbn. eauto.
    + destruct v; try discriminate.
      * destruct (mapper_null opts now line Hp) as [_ ->]. cbn. eauto.
      * destruct (mapper_boolean opts now line b Hp) as [_ ->]. cbn. eauto.
  - rewrite (Cli_mapper_unparseable opts now line Hp). cbn. eauto.
Qed.

Lemma cli_entry_point_mapper_returns_witness :
  exists r,
    returned (@Cli.mapper sample_runtime
                (cli_options_of_env [("LOG_ES_VAR_SERVICE_NAME", "api")])
                0 hello_line) = Normal r.
Proof.
  apply (@cli_entry_point_mapper_returns sample_runtime sample_host
           [("LOG_ES_VAR_SERVICE_NAME", "api")]).
  - vm_compute. reflexivity.
  - intros v Hv _. vm_compute in Hv. injection Hv as <-. vm_compute. reflexivity.
Defined.

(** With exactly one [LOG_ES_VAR_] variable in the environment, the
    enrichment object is the chain of the lower-cased parts of its name after
    the prefix; the value at the end is read back under the upper-cased
    lower-cased name, so it is [undefined] when that is no variable. *)
Theorem single_variable_enrichment {host : Host} (env : environment) (rest : string) :
  filter (prefix "LOG_ES_VAR_") (env_keys env) = [("LOG_ES_VAR_" ++ rest)%string] ->
  exists opts,
    cli_start_options env = Normal opts /\
    additionalObject opts
    = path_object (split_on "_" (toLowerCase rest))
        (getenv env (toLocaleUpperCase (toLowerCase ("LOG_ES_VAR_" ++ rest)))).
Proof.
  intros Hone. unfold cli_start_options, merged_fields, additionalFields.
  rewrite Hone. cbn [map fold_left]. unfold add_field. cbn [bind].
  set (leaf := getenv env _).
  rewrite processKey_is_path, key_path_field. cbn [bind].
  rewrite path_object_split.
  destruct (split_on "_" (toLowerCase rest)) as [|p ps] eqn:Es;
    [now apply split_on_not_nil in Es|].
  change (path_object ["log"; "es"; "var"] (path_object (p :: ps) leaf))
    with (VObj [("log", VObj [("es", VObj [("var", VObj [(p, path_object ps leaf)])])])]).
  destruct (mergeDeep_copies
              [("log", VObj [("es", VObj [("var", VObj [(p, path_object ps leaf)])])])])
    as (_ & _ & ->).
  - repeat constructor. intros [].
  - reflexivity.
  - cbn [bind]. eexists. split; [reflexivity|]. reflexivity.
Qed.

Lemma single_variable_enrichment_witness :
  (exists opts,
     @cli_start_options sample_host [("PATH", "/bin"); ("LOG_ES_VAR_SERVICE_NAME", "api")]
     = Normal opts /\
     additionalObject opts = VObj [("service", VObj [("name", VStr "api")])]) /\
  (exists opts,
     @cli_start_options sample_host [("LOG_ES_VAR_team", "core")] = Normal opts /\
     additionalObject opts = VObj [("team", VUndefined)]).
Proof.
  split.
  - apply (@single_variable_enrichment sample_host
             [("PATH", "/bin"); ("LOG_ES_VAR_SERVICE_NAME", "api")] "SERVICE_NAME").
    vm_compute. reflexivity.
  - apply (@single_variable_enrichment sample_host [("LOG_ES_VAR_team", "core")] "team").
    vm_compute. reflexivity.
Defined.

(** ** mergeDeep *)

(** Merging an object with distinct keys, none of them [__proto__], with
    nothing, or with the empty object on either side, gives a copy of it. *)
Theorem mergeDeep_with_empty_is_a_copy (o : props) :
  NoDup (map fst o) -> lookup "__proto__" o = None ->
  mergeDeep [VObj o] = Normal (VObj o) /\
  mergeDeep [VObj o; VObj []] = Normal (VObj o) /\
  mergeDeep [VObj []; VObj o] = Normal (VObj o).
Proof. apply mergeDeep_copies. Qed.

Lemma mergeDeep_with_empty_is_a_copy_witness :
  mergeDeep [VObj [("a", VNum 1); ("b", VObj [("c", VStr "x")])]]
  = Normal (VObj [("a", VNum 1); ("b", VObj [("c", VStr "x")])]) /\
  mergeDeep [VObj [("a", VNum 1); ("b", VObj [("c", VStr "x")])]; VObj []]
  = Normal (VObj [("a", VNum 1); ("b", VObj [("c", VStr "x")])]) /\
  mergeDeep [VObj []; VObj [("a", VNum 1); ("b", VObj [("c", VStr "x")])]]
  = Normal (VObj [("a", VNum 1); ("b", VObj [("c", VStr "x")])]).
Proof.
  apply mergeDeep_with_empty_is_a_copy; [|reflexivity].
  repeat constructor; cbn [In]; intuition discriminate.
Defined.

(** With the key [__proto__] the copy differs: the object under that key
    becomes the prototype of the result, which owns no such property and
    reads through it what it does not own; a number under that key is
    dropped. *)
Lemma mergeDeep_proto_key :
  mergeDeep [VObj [("__proto__", VObj [("a", VNum 1)]); ("b", VNum 2)]]
  = Normal (VProto (VObj [("a", VNum 1)]) [("b", VNum 2)]) /\
  get (VProto (VObj [("a", VNum 1)]) [("b", VNum 2)]) "a" = VNum 1 /\
  has_key (VProto (VObj [("a", VNum 1)]) [("b", VNum 2)]) "a" = false /\
  mergeDeep [VObj [("__proto__", VNum 5); ("b", VNum 2)]] = Normal (VObj [("b", VNum 2)]) /\
  mergeDeep [VObj [("__proto__", VObj [("x", VObj [("p", VNum 1)])])];
             VObj [("x", VObj [("q", VNum 2)])]]
  = Normal (VProto (VObj [("x", VObj [("p", VNum 1)])])
                   [("x", VObj [("p", VNum 1); ("q", VNum 2)])]).
Proof. repeat split; vm_compute; reflexivity. Qed.

(** The merge of two values without an own property [__proto__] is a plain
    object with distinct keys, and its keys are those of the first together
    with those of the second. *)
Theorem mergeDeep_keys_are_the_union (a b : value) :
  not_nullish a = true -> not_nullish b = true ->
  has_key a "__proto__" = false -> has_key b "__proto__" = false ->
  exists r, mergeDeep [a; b] = Normal (VObj r) /\ NoDup (map fst r) /\
            forall k, has_key (VObj r) k = has_key a k || has_key b k.
Proof.
  intros Ha Hb Hpa Hpb.
  destruct (mergeDeep_has_key a b "" Ha Hb Hpa Hpb) as (r & Hm & Hnd & _).
  exists r. split; [exact Hm|]. split; [exact Hnd|]. intros k.
  destruct (mergeDeep_has_key a b k Ha Hb Hpa Hpb) as (r' & Hm' & _ & Hk).
  rewrite Hm in Hm'. injection Hm' as <-. exact Hk.
Qed.

Lemma mergeDeep_keys_are_the_union_witness :
  exists r, mergeDeep [VArr [VNum 1] []; VObj [("a", VNull)]] = Normal (VObj r) /\
            NoDup (map fst r) /\
            forall k, has_key (VObj r) k
                      = has_key (VArr [VNum 1] []) k || has_key (VObj [("a", VNull)]) k.
Proof. apply mergeDeep_keys_are_the_union; reflexivity. Defined.

(** Merging one more object in is merging it into the merge of the others,
    when none of the others has an own property [__proto__]:
    [mergeDeep(o1, .., on, c)] is [mergeDeep(mergeDeep(o1, .., on), c)]. *)
Theorem mergeDeep_one_more (objects : list value) (c : value) :
  Forall (fun o => not_nullish o = true) objects ->
  Forall (fun o => has_key o "__proto__" = false) objects ->
  not_nullish c = true ->
  exists m, mergeDeep objects = Normal m /\
            mergeDeep (objects ++ [c]) = mergeDeep [m; c].
Proof. apply mergeDeep_then. Qed.

Lemma mergeDeep_one_more_witness :
  exists m,
    mergeDeep [VObj [("a", VArr [VNum 1] [])]; VObj [("a", VArr [VNum 2] [])]] = Normal m /\
    mergeDeep ([VObj [("a", VArr [VNum 1] [])]; VObj [("a", VArr [VNum 2] [])]]
               ++ [VObj [("a", VArr [VNum 3] [])]])
    = mergeDeep [m; VObj [("a", VArr [VNum 3] [])]].
Proof.
  apply mergeDeep_one_more; [repeat constructor | repeat constructor | reflexivity].
Defined.

(** ** The bulk handler *)

Lemma date_part_throws (time : value) :
  date_part time = Throw TypeError <->
  time = VUndefined \/ time = VNull \/
  (isObject time = true /\ truthy (get time "substring") = true).
Proof.
  assert (Hobj : forall v, isObject v = true ->
            date_part v = (if truthy (get v "substring") then Throw TypeError else Normal "") ->
            date_part v = Throw TypeError <->
            v = VUndefined \/ v = VNull \/
            (isObject v = true /\ truthy (get v "substring") = true)).
  { intros v Hv ->. destruct (truthy (get v "substring")).
    - split; [intros _; right; right; now split | reflexivity].
    - split; [intros H; discriminate H|].
      intros [H|[H|[_ H]]]; try discriminate H; subst; vm_compute in Hv; discriminate Hv. }
  destruct time as [| |b|n|s|items named|o|p o];
    try (now apply Hobj); cbn [date_part];
    try (split; [now auto | reflexivity]);
    (split; [intros H; discriminate H|]);
    intros [H|[H|[H _]]]; try discriminate H;
    apply isObject_cases in H;
    destruct H as [(? & ? & H)|[(? & H)|(? & ? & H)]]; discriminate H.
Qed.

Lemma date_part_result (time : value) :
  (exists d, date_part time = Normal d) \/ date_part time = Throw TypeError.
Proof.
  destruct time; cbn [date_part]; eauto.
  all: destruct (truthy _); eauto.
Qed.

(** With a template for index, [getIndexName] throws exactly on [null] and on
    an object or array that has a truthy [substring] (of its own, unless its
    prototype was replaced); on anything else it returns a name. *)
Theorem getIndexName_throws_exactly (opts : options) (now : Z) (time : value)
    (template : string) :
  index_of opts = inl template ->
  (getIndexName opts now time = Throw TypeError <->
   time = VNull \/ (isObject time = true /\ truthy (get time "substring") = true)) /\
  (getIndexName opts now time = Throw TypeError \/
   exists name, getIndexName opts now time = Normal (VStr name)).
Proof.
  intros Hidx. unfold getIndexName. rewrite Hidx.
  set (t := match time with VUndefined => VStr (iso_string now) | _ => time end).
  assert (Ht : (t = VUndefined \/ t = VNull \/
                (isObject t = true /\ truthy (get t "substring") = true)) <->
               (time = VNull \/
                (isObject time = true /\ truthy (get time "substring") = true))).
  { subst t.
    destruct time; (split; [intros [H|[H|[H H']]] | intros [H|[H H']]]);
      try discriminate H; try (now auto);
      apply isObject_cases in H;
      destruct H as [(? & ? & H)|[(? & H)|(? & ? & H)]]; discriminate H. }
  rewrite <- Ht, <- date_part_throws.
  destruct (date_part_result t) as [[d ->]| ->]; cbn [bind].
  - split; [split; discriminate | right; eauto].
  - split; [tauto | now left].
Qed.

Lemma getIndexName_throws_exactly_witness :
  (getIndexName (cli_options "logs-%{DATE}") 0 (VObj [("substring", VNum 1)])
   = Throw TypeError <->
   VObj [("substring", VNum 1)] = VNull \/
   (isObject (VObj [("substring", VNum 1)]) = true /\
    truthy (get (VObj [("substring", VNum 1)]) "substring") = true)) /\
  (getIndexName (cli_options "logs-%{DATE}") 0 (VObj [("substring", VNum 1)])
   = Throw TypeError \/
   exists name,
     getIndexName (cli_options "logs-%{DATE}") 0 (VObj [("substring", VNum 1)])
     = Normal (VStr name)).
Proof. apply (getIndexName_throws_exactly _ _ _ "logs-%{DATE}"). reflexivity. Defined.

(** The index that a finished bulk insert refreshes is named at start-up
    after the day then current: no exception, and the placeholder of the
    template replaced by the ten characters of the date. *)
Theorem refreshOnCompletion_is_the_index_of_the_day (opts : options) (now : Z)
    (template before after : string) :
  index_of opts = inl template ->
  find_first "%{DATE}" template = Some (before, after) ->
  refreshOnCompletion opts now
  = Normal (VStr (before ++ substring 0 10 (iso_string now) ++ after)).
Proof.
  intros Hidx Hfind. unfold refreshOnCompletion.
  change (getIndexName opts now VUndefined)
    with (getIndexName opts now (VStr (iso_string now))).
  apply (getIndexName_plain_date opts now template); [assumption | assumption |].
  apply dollar_free_substring, dollar_free_iso_string.
Qed.

Lemma refreshOnCompletion_is_the_index_of_the_day_witness :
  refreshOnCompletion (cli_options "logs-%{DATE}-v1") 1709632800000
  = Normal (VStr ("logs-" ++ substring 0 10 (iso_string 1709632800000) ++ "-v1")) /\
  substring 0 10 (iso_string 1709632800000) = "2024-03-05".
Proof.
  split.
  - apply (refreshOnCompletion_is_the_index_of_the_day _ _ "logs-%{DATE}-v1");
      vm_compute; reflexivity.
  - vm_compute. reflexivity.
Defined.

(** On an object or an array the callback reads the two fields, writes one
    under ['create'], and asks for the index name. *)
Lemma onDocument_object (opts : options) (now : Z) (doc : value) :
  isObject doc = true ->
  onDocument opts now doc =
  bind (getIndexName opts now (js_or (get doc "time") (get doc "@timestamp")))
       (fun name =>
          Normal (match opType_of opts with
                  | VStr t => if t =? "create"
                              then set doc "@timestamp"
                                     (js_or (get doc "time") (get doc "@timestamp"))
                              else doc
                  | _ => doc
                  end, {| create_index := name |})).
Proof.
  intros Hobj.
  destruct (isObject_cases doc Hobj) as [(i & n & ->)|[(o & ->)|(p & o & ->)]];
    unfold onDocument; destruct (opType_of opts) as [| | | |t| | |];
    try reflexivity; destruct (t =? "create"); reflexivity.
Qed.

(** What the callback returns normally: the index name of the effective
    timestamp, and the document either as it was or, under ['create'] and for
    an object or an array, with that timestamp written. *)
Lemma onDocument_inv (opts : options) (now : Z) (doc doc' : value) (a : action) :
  onDocument opts now doc = Normal (doc', a) ->
  getIndexName opts now (js_or (get doc "time") (get doc "@timestamp"))
  = Normal (create_index a) /\
  (doc' = doc \/
   (isObject doc = true /\
    doc' = set doc "@timestamp" (js_or (get doc "time") (get doc "@timestamp")))).
Proof.
  intros H.
  assert (Hbind : forall d,
            (name <- getIndexName opts now (js_or (get doc "time") (get doc "@timestamp")) ;;
             Normal (d, {| create_index := name |})) = Normal (doc', a) ->
            getIndexName opts now (js_or (get doc "time") (get doc "@timestamp"))
            = Normal (create_index a) /\ doc' = d).
  { intros d Hd. destruct (getIndexName _ _ _) as [name|e]; [|discriminate Hd].
    cbn [bind] in Hd. injection Hd as <- <-. now split. }
  destruct doc as [| |b|n|s|items named|o|p o]; unfold onDocument in H;
    try discriminate H;
    destruct (opType_of opts) as [| | | |t| | |];
    try (destruct (t =? "create"));
    cbn [assign bind] in H; try discriminate H;
    apply Hbind in H; destruct H as [Hname ->];
    (split; [exact Hname|]); auto.
Qed.

(** [onDocument] writes no property but [@timestamp]: under any other key the
    document reads as before. *)
Theorem onDocument_writes_only_the_timestamp (opts : options) (now : Z)
    (doc doc' : value) (a : action) (k : string) :
  onDocument opts now doc = Normal (doc', a) -> k <> "@timestamp" ->
  get doc' k = get doc k /\ has_key doc' k = has_key doc k.
Proof.
  intros H Hk. destruct (onDocument_inv _ _ _ _ _ H) as [_ [->|[_ ->]]].
  - now split.
  - split; [now apply get_set_other | now apply has_key_set_other].
Qed.

Lemma onDocument_writes_only_the_timestamp_witness :
  exists doc' a,
    onDocument (with_opType (cli_options "logs-%{DATE}") (VStr "create")) 0
      (VObj [("time", VStr "2024-03-05T10:00:00.000Z"); ("@timestamp", VStr "x")])
    = Normal (doc', a) /\
    get doc' "time" = VStr "2024-03-05T10:00:00.000Z" /\
    get doc' "@timestamp" = VStr "2024-03-05T10:00:00.000Z".
Proof.
  eexists. eexists. split; [vm_compute; reflexivity|].
  split; [|reflexivity].
  apply (onDocument_writes_only_the_timestamp
           (with_opType (cli_options "logs-%{DATE}") (VStr "create")) 0
           (VObj [("time", VStr "2024-03-05T10:00:00.000Z"); ("@timestamp", VStr "x")])
           _ {| create_index := VStr "logs-2024-03-05" |} "time");
    [vm_compute; reflexivity | discriminate].
Defined.

(** The clock is read for an [undefined] timestamp only. *)
Lemma getIndexName_clock (opts : options) (now now' : Z) (time : value) :
  time <> VUndefined -> getIndexName opts now time = getIndexName opts now' time.
Proof. intros H. unfold getIndexName. destruct time; try reflexivity. congruence. Qed.

(** With a template for index, [onDocument] is idempotent on an object or
    array that has an effective timestamp: called again, at whatever
    instant, on the document it left, it leaves the same document and
    returns the same action.  (A naming function given as index is the
    caller's code, and without an effective timestamp the name depends on
    the instant of the call.) *)
Theorem onDocument_is_idempotent (opts : options) (now now' : Z)
    (doc doc' : value) (a : action) (template : string) :
  index_of opts = inl template ->
  isObject doc = true ->
  js_or (get doc "time") (get doc "@timestamp") <> VUndefined ->
  onDocument opts now doc = Normal (doc', a) ->
  onDocument opts now' doc' = Normal (doc', a).
Proof.
  intros _ Hobj Hdate H.
  destruct (onDocument_inv _ _ _ _ _ H) as [Hname _].
  rewrite (getIndexName_clock opts now now' _ Hdate) in Hname.
  rewrite (onDocument_object opts now doc Hobj) in H.
  destruct (getIndexName opts now _) as [name|e]; [|discriminate H].
  cbn [bind] in H. injection H as Hdoc _.
  pose proof (effective_timestamp_stable doc Hobj) as Hstable. cbv zeta in Hstable.
  destruct a as [index]. cbn [create_index] in Hname.
  destruct (opType_of opts) as [| | | |t| | |] eqn:Hop;
    try (subst doc'; rewrite (onDocument_object opts now' doc Hobj), Hname, Hop;
         reflexivity).
  destruct (t =? "create") eqn:Ht.
  - subst doc'. rewrite onDocument_object by now rewrite isObject_set.
    rewrite Hstable, Hname, Hop, Ht. cbn [bind]. now rewrite set_twice.
  - subst doc'. rewrite (onDocument_object opts now' doc Hobj), Hname, Hop, Ht.
    reflexivity.
Qed.

Lemma onDocument_is_idempotent_witness :
  onDocument (with_opType (cli_options "logs-%{DATE}") (VStr "create")) 86400000
    (VObj [("time", VStr "2024-03-05T10:00:00.000Z");
           ("@timestamp", VStr "2024-03-05T10:00:00.000Z")])
  = Normal (VObj [("time", VStr "2024-03-05T10:00:00.000Z");
                  ("@timestamp", VStr "2024-03-05T10:00:00.000Z")],
            {| create_index := VStr "logs-2024-03-05" |}).
Proof.
  apply (onDocument_is_idempotent _ 0 86400000
           (VObj [("time", VStr "2024-03-05T10:00:00.000Z"); ("@timestamp", VNum 5)])
           _ _ "logs-%{DATE}");
    [reflexivity | reflexivity | discriminate | vm_compute; reflexivity].
Defined.

(** Without an effective timestamp the index is named after the instant of
    the call: a second call a day later names another index. *)
Lemma onDocument_reads_the_clock :
  onDocument (with_opType (cli_options "logs-%{DATE}") (VStr "create")) 0 (VObj [])
  = Normal (VObj [("@timestamp", VUndefined)],
            {| create_index := VStr "logs-1970-01-01" |}) /\
  onDocument (with_opType (cli_options "logs-%{DATE}") (VStr "create")) 86400000
    (VObj [("@timestamp", VUndefined)])
  = Normal (VObj [("@timestamp", VUndefined)],
            {| create_index := VStr "logs-1970-01-02" |}).
Proof. split; vm_compute; reflexivity. Qed.

(** A document that is no object: [null] and [undefined] make the callback
    throw, and so does a number under ['create']. *)
Lemma onDocument_on_a_primitive :
  onDocument (cli_options "logs-%{DATE}") 0 VNull = Throw TypeError /\
  onDocument (with_opType (cli_options "logs-%{DATE}") (VStr "create")) 0 (VNum 1)
  = Throw TypeError /\
  onDocument (cli_options "logs-%{DATE}") 0 (VNum 1)
  = Normal (VNum 1, {| create_index := VStr "logs-1970-01-01" |}).
Proof. repeat split; vm_compute; reflexivity. Qed.

(** ** From the mapper to the bulk handler *)

Section Pipeline.
Context {rt : Runtime}.

(** What [setDateTimeString] returns is the ISO form of an instant. *)
Lemma setDateTimeString_iso (now : Z) (v : value) (ts : string) :
  setDateTimeString now v = Normal ts -> exists t, ts = iso_string t.
Proof.
  unfold setDateTimeString.
  destruct (if is_object_type v then call_hasOwnProperty v "time" else Normal false)
    as [has_time|e]; [|discriminate].
  cbn [bind].
  destruct has_time; [destruct (time_usable (get v "time"))|];
    try (intros [= <-]; eauto).
  destruct (new_Date (get v "time")) as [t|]; [|discriminate].
  intros [= <-]. eauto.
Qed.

(** The normalized object has no truthy [time] of its own; with the
    prototype the decoder gave it, it reads none either. *)
Lemma normalized_time_falsy (parsed : value) (ts : string) :
  isObject parsed = true -> standard parsed = true ->
  truthy (get (normalized parsed ts) "time") = false.
Proof.
  intros Hobj Hs. unfold normalized. cbv zeta.
  destruct (truthy (get (set (with_message parsed) "@timestamp" (VStr ts)) "time")) eqn:E;
    [|exact E].
  rewrite get_absent; [reflexivity| |].
  - now rewrite standard_delete, standard_set, standard_with_message.
  - apply has_key_delete_same; [|reflexivity].
    apply isObject_object_type. now rewrite isObject_set, isObject_with_message.
Qed.

(** What the cli mapper merged when it handed a document downstream, for a
    line whose decoded value has no key [__proto__]. *)
Lemma Cli_mapper_forwarded_inv (opts : options) (now : Z) (line : string) (doc : value) :
  (forall v, JSON_parse line = Some v ->
             standard v = true /\ has_key v "__proto__" = false) ->
  returned (Cli.mapper opts now line) = Normal (Some doc) ->
  exists pre t,
    mergeDeep [pre; additionalObject opts] = Normal doc /\
    not_nullish pre = true /\
    standard pre = true /\ has_key pre "__proto__" = false /\
    get pre "@timestamp" = VStr (iso_string t) /\
    truthy (get pre "time") = false.
Proof.
  intros Hline. unfold Cli.mapper.
  destruct (JSON_parse line) as [v|]; [|discriminate].
  destruct (Hline v eq_refl) as [Hstd Hproto].
  assert (Hscalar : is_object_type v = false ->
    returned (silent (value <- (ts <- setDateTimeString now v ;;
                                Normal (VObj [("data", v); ("@timestamp", VStr ts)])) ;;
                      mergeDeep [value; additionalObject opts])) = Normal (Some doc) ->
    exists pre t,
      mergeDeep [pre; additionalObject opts] = Normal doc /\
      not_nullish pre = true /\
      standard pre = true /\ has_key pre "__proto__" = false /\
      get pre "@timestamp" = VStr (iso_string t) /\
      truthy (get pre "time") = false).
  { intros Hs. rewrite setDateTimeString_scalar by exact Hs. cbn [bind silent returned].
    destruct (mergeDeep _) as [d|e] eqn:Hm; [|discriminate].
    cbn [bind]. intros [= ->].
    exists (VObj [("data", v); ("@timestamp", VStr (iso_string now))]), now.
    repeat split; first [exact Hm | reflexivity]. }
  assert (Hobject : isObject v = true ->
    returned (silent (value <- Cli.normalize now v ;;
                      mergeDeep [value; additionalObject opts])) = Normal (Some doc) ->
    exists pre t,
      mergeDeep [pre; additionalObject opts] = Normal doc /\
      not_nullish pre = true /\
      standard pre = true /\ has_key pre "__proto__" = false /\
      get pre "@timestamp" = VStr (iso_string t) /\
      truthy (get pre "time") = false).
  { intros Hobj. rewrite normalize_unfold.
    destruct (setDateTimeString now (with_message v)) as [ts|e] eqn:Hts; [|discriminate].
    destruct (setDateTimeString_iso _ _ _ Hts) as [t ->].
    cbn [bind silent returned].
    destruct (mergeDeep _) as [d|e] eqn:Hm; [|discriminate].
    cbn [bind]. intros [= ->].
    exists (normalized v (iso_string t)), t. split; [exact Hm|].
    split; [|split; [|split; [|split]]].
    - apply isObject_not_nullish. now rewrite isObject_normalized.
    - now rewrite standard_normalized.
    - rewrite normalized_other by discriminate. exact Hproto.
    - now apply normalized_timestamp.
    - now apply normalized_time_falsy. }
  destruct v as [| |b|n|s|items named|o|p o]; try discriminate;
    first [ apply Hscalar; reflexivity | apply Hobject; reflexivity ].
Qed.

End Pipeline.

(** A document that the cli mapper hands downstream, when neither the
    decoded line nor [additionalObject] has a key [__proto__] and
    [additionalObject] has no [time] and no [@timestamp], carries the ISO
    text of an instant as [@timestamp]; [onDocument] does not throw on it,
    leaves it as it is whatever [opType], and names the index after the
    template with the placeholder replaced by the date, the first ten
    characters of that text. *)
Theorem cli_document_is_indexed_by_its_date {rt : Runtime}
    (opts : options) (now now' : Z) (line : string) (doc : value)
    (template before after : string) :
  returned (Cli.mapper opts now line) = Normal (Some doc) ->
  (forall v, JSON_parse line = Some v ->
             standard v = true /\ has_key v "__proto__" = false) ->
  has_key (additionalObject opts) "__proto__" = false ->
  has_key (additionalObject opts) "time" = false ->
  has_key (additionalObject opts) "@timestamp" = false ->
  index_of opts = inl template ->
  find_first "%{DATE}" template = Some (before, after) ->
  exists t,
    get doc "@timestamp" = VStr (iso_string t) /\
    onDocument opts now' doc
    = Normal (doc, {| create_index :=
                        VStr (before ++ substring 0 10 (iso_string t) ++ after) |}).
Proof.
  intros Hrun Hline Hproto Htime Hstamp Hidx Hfind.
  destruct (Cli_mapper_forwarded_inv opts now line doc Hline Hrun)
    as (pre & t & Hm & Hpre & Hstd & Hpp & Hts & Hfalsy).
  assert (Hadd : not_nullish (additionalObject opts) = true).
  { destruct (not_nullish (additionalObject opts)) eqn:E; [reflexivity|].
    rewrite (mergeDeep_nullish pre _ Hpre E) in Hm. discriminate. }
  destruct (mergeDeep_by_key pre _ "time" Hpre Hadd Hpp Hproto)
    as (r & Hr & _ & _ & Hk1 & _).
  destruct (mergeDeep_by_key pre _ "@timestamp" Hpre Hadd Hpp Hproto)
    as (r2 & Hr2 & _ & _ & Hk2 & _).
  rewrite Hm in Hr, Hr2. injection Hr as ->. injection Hr2 as <-.
  specialize (Hk1 Htime). specialize (Hk2 Hstamp).
  assert (Hg1 : get (VObj r) "time" = get pre "time").
  { rewrite (get_standard pre "time" Hstd). unfold get. cbn [own_entries].
    now rewrite Hk1. }
  assert (Hl2 : lookup "@timestamp" r = Some (VStr (iso_string t))).
  { rewrite Hk2. apply get_lookup; [exact Hstd | exact Hts | discriminate]. }
  assert (Hg2 : get (VObj r) "@timestamp" = VStr (iso_string t)).
  { unfold get. cbn [own_entries]. now rewrite Hl2. }
  exists t. split; [exact Hg2|].
  rewrite onDocument_object by reflexivity.
  assert (Hdate : js_or (get (VObj r) "time") (get (VObj r) "@timestamp")
                  = VStr (iso_string t)).
  { unfold js_or. now rewrite Hg1, Hfalsy, Hg2. }
  rewrite Hdate.
  rewrite (getIndexName_plain_date opts now' template before after) by
    first [assumption | apply dollar_free_substring, dollar_free_iso_string].
  cbn [bind]. do 2 f_equal.
  assert (Hsame : set (VObj r) "@timestamp" (VStr (iso_string t)) = VObj r).
  { cbn [set]. f_equal. now apply set_prop_present. }
  destruct (opType_of opts) as [| | | |s| | |]; try reflexivity.
  destruct (s =? "create"); [exact Hsame | reflexivity].
Qed.

Lemma cli_document_is_indexed_by_its_date_witness :
  exists t,
    get (VObj [("message", VStr "hello"); ("@timestamp", VStr "2024-01-01T00:00:00.000Z")])
        "@timestamp" = VStr (iso_string t) /\
    onDocument (with_opType (cli_options "logs-%{DATE}") (VStr "create")) 5
      (VObj [("message", VStr "hello"); ("@timestamp", VStr "2024-01-01T00:00:00.000Z")])
    = Normal (VObj [("message", VStr "hello");
                    ("@timestamp", VStr "2024-01-01T00:00:00.000Z")],
              {| create_index :=
                   VStr ("logs-" ++ substring 0 10 (iso_string t) ++ "") |}).
Proof.
  apply (@cli_document_is_indexed_by_its_date sample_runtime
           (with_opType (cli_options "logs-%{DATE}") (VStr "create")) 0 5 hello_line
           _ "logs-%{DATE}" "logs-" "");
    try (vm_compute; reflexivity).
  intros v Hv. vm_compute in Hv. injection Hv as <-. split; reflexivity.
Defined.

(** A line with a key [__proto__]: the object under it becomes the prototype
    of the document, which then reads the [time] it does not own, and
    [onDocument] names the index after that date, not after [@timestamp]. *)
Lemma cli_document_inherits_a_time :
  @Cli.mapper sample_runtime (cli_options "logs-%{DATE}") 0
    (qq "{'__proto__':{'time':'1999-12-31T00:00:00.000Z'}}")
  = forwarded (VProto (VObj [("time", VStr "1999-12-31T00:00:00.000Z")])
                 [("message", VStr "-"); ("@timestamp", VStr (iso_string 0))]) /\
  onDocument (cli_options "logs-%{DATE}") 0
    (VProto (VObj [("time", VStr "1999-12-31T00:00:00.000Z")])
       [("message", VStr "-"); ("@timestamp", VStr (iso_string 0))])
  = Normal (VProto (VObj [("time", VStr "1999-12-31T00:00:00.000Z")])
              [("message", VStr "-"); ("@timestamp", VStr (iso_string 0))],
            {| create_index := VStr "logs-1999-12-31" |}).
Proof. split; vm_compute; reflexivity. Qed.

(** In [lib.js] a decoded object keeps its [time]; when that is a number other
    than zero (the epoch milliseconds pino writes), the document handed
    downstream is indexed under the template with the placeholder replaced by
    nothing: the index name carries no date. *)
Theorem lib_numeric_time_gives_an_undated_index {rt : Runtime}
    (opts : options) (now now' : Z) (line : string) (o : props) (doc : value) (n : float)
    (template before after : string) :
  JSON_parse line = Some (VObj o) ->
  get (VObj o) "time" = VNum n -> number_truthy n = true ->
  returned (Lib.mapper opts now line) = Normal (Some doc) ->
  index_of opts = inl template ->
  find_first "%{DATE}" template = Some (before, after) ->
  exists doc',
    onDocument opts now' doc
    = Normal (doc', {| create_index := VStr (before ++ after) |}).
Proof.
  intros Hp Htime Htruthy Hrun Hidx Hfind.
  assert (Hdoc : get doc "time" = VNum n /\ isObject doc = true).
  { unfold Lib.mapper in Hrun. rewrite Hp in Hrun.
    cbn [is_object_type typeof negb] in Hrun.
    destruct (get (VObj o) "@timestamp");
      try (cbn in Hrun; injection Hrun as <-; split; [exact Htime | reflexivity]).
    destruct (setDateTimeString now (VObj o)) as [ts|e]; [|discriminate Hrun].
    cbn [silent returned bind] in Hrun. injection Hrun as <-.
    split; [|reflexivity].
    rewrite <- Htime. apply (get_set_other (VObj o)). discriminate. }
  destruct Hdoc as [Hdoc Hobj].
  rewrite (onDocument_object opts now' doc Hobj).
  assert (Hdate : js_or (get doc "time") (get doc "@timestamp") = VNum n).
  { unfold js_or. rewrite Hdoc. cbn [truthy]. now rewrite Htruthy. }
  rewrite Hdate. unfold getIndexName. rewrite Hidx. cbn [date_part bind].
  unfold String_replace. rewrite Hfind. rewrite GetSubstitution_empty.
  cbn [append bind]. eexists. reflexivity.
Qed.

Lemma lib_numeric_time_gives_an_undated_index_witness :
  exists doc',
    onDocument (cli_options "logs-%{DATE}") 5
      (VObj [("msg", VStr "hi"); ("time", VNum 1709632800000);
             ("@timestamp", VStr "2024-03-05T10:00:00.000Z")])
    = Normal (doc', {| create_index := VStr ("logs-" ++ "") |}).
Proof.
  apply (@lib_numeric_time_gives_an_undated_index sample_runtime
           (cli_options "logs-%{DATE}") 0 5 (qq "{'msg':'hi','time':1709632800000}")
           [("msg", VStr "hi"); ("time", VNum 1709632800000)] _
           1709632800000 "logs-%{DATE}" "logs-" "");
    vm_compute; reflexivity.
Defined.

(** ** Lines that are not objects *)

Lemma get_array_named (items : list value) (named : props) (k : string) :
  named_key k = true ->
  get (VArr items named) k = get (VObj named) k /\
  has_key (VArr items named) k = has_key (VObj named) k.
Proof.
  intros Hk. unfold get, has_key. cbn [own_entries].
  now rewrite lookup_app, lookup_indexed_named.
Qed.

Lemma normalized_array (items : list value) (ts : string) :
  normalized (VArr items []) ts
  = VArr items [("message", VStr "-"); ("@timestamp", VStr ts)].
Proof.
  unfold normalized, with_message. cbv zeta.
  destruct (get_array_named items [] "msg" eq_refl) as [-> _].
  change (js_or (get (VObj []) "msg") (VStr "-")) with (VStr "-").
  change (set (VArr items []) "message" (VStr "-"))
    with (VArr items [("message", VStr "-")]).
  destruct (get_array_named items [("message", VStr "-")] "msg" eq_refl) as [-> _].
  change (truthy (get (VObj [("message", VStr "-")]) "msg")) with false. cbv iota.
  change (set (VArr items [("message", VStr "-")]) "@timestamp" (VStr ts))
    with (VArr items [("message", VStr "-"); ("@timestamp", VStr ts)]).
  destruct (get_array_named items [("message", VStr "-"); ("@timestamp", VStr ts)]
              "time" eq_refl) as [-> _].
  reflexivity.
Qed.

Section OtherLines.
Context {rt : Runtime}.

Lemma setDateTimeString_array (now : Z) (items : list value) :
  setDateTimeString now (VArr items []) = Normal (iso_string now).
Proof.
  destruct (get_array_named items [] "hasOwnProperty" eq_refl) as [_ Hshadow].
  destruct (get_array_named items [] "time" eq_refl) as [Htime _].
  rewrite setDateTimeString_object;
    [| reflexivity | discriminate | reflexivity | exact Hshadow].
  now rewrite Htime.
Qed.

Lemma normalize_array (now : Z) (items : list value) :
  Cli.normalize now (VArr items [])
  = Normal (VArr items [("message", VStr "-"); ("@timestamp", VStr (iso_string now))]).
Proof.
  destruct (get_array_named items [] "hasOwnProperty" eq_refl) as [_ Hshadow].
  destruct (get_array_named items [] "time" eq_refl) as [Htime _].
  rewrite normalize_timestamp; [| reflexivity | reflexivity | exact Hshadow].
  rewrite Htime. cbn [get own_entries lookup time_usable bind].
  now rewrite normalized_array.
Qed.

End OtherLines.

(** A line that is a JSON number or string becomes the document
    [{data, @timestamp}] with the current instant: as it stands in [lib.js],
    and in the cli variant with these two values whenever [additionalObject]
    has neither key. *)
Theorem scalar_line_becomes_a_data_document {rt : Runtime}
    (opts : options) (now : Z) (line : string) (v : value) :
  JSON_parse line = Some v -> document_input v = true -> is_object_type v = false ->
  Lib.mapper opts now line
  = forwarded (VObj [("data", v); ("@timestamp", VStr (iso_string now))]) /\
  (not_nullish (additionalObject opts) = true ->
   has_key (additionalObject opts) "data" = false ->
   has_key (additionalObject opts) "@timestamp" = false ->
   exists doc, Cli.mapper opts now line = forwarded doc /\
               get doc "data" = v /\
               get doc "@timestamp" = VStr (iso_string now)).
Proof.
  intros Hp Hdoc Hs. split.
  - unfold Lib.mapper. rewrite Hp.
    destruct v; try discriminate; cbn [is_object_type typeof negb];
      now rewrite setDateTimeString_scalar by reflexivity.
  - intros Hadd Hdata Hstamp.
    set (pre := VObj [("data", v); ("@timestamp", VStr (iso_string now))]).
    destruct (mergeDeep_keeps pre _ "data" eq_refl Hadd eq_refl Hdata) as (r & Hm & Hl).
    destruct (mergeDeep_keeps pre _ "@timestamp" eq_refl Hadd eq_refl Hstamp)
      as (r2 & Hm2 & Hl2).
    rewrite Hm in Hm2. injection Hm2 as Hm2.
    destruct (to_value_object r) as (_ & _ & Hown). rewrite <- Hown in Hl.
    destruct (to_value_object r2) as (_ & _ & Hown2).
    rewrite <- Hown2, <- Hm2 in Hl2.
    exists (to_value r).
    split; [|split; apply get_own; [exact Hl | exact Hl2]].
    unfold Cli.mapper. rewrite Hp.
    destruct v; try discriminate; cbn [is_object_type typeof negb];
      rewrite setDateTimeString_scalar by reflexivity; cbn [bind];
      fold pre; now rewrite Hm.
Qed.

Lemma scalar_line_becomes_a_data_document_witness :
  @Lib.mapper sample_runtime (cli_options "logs-%{DATE}") 0 (qq "'plain text'")
  = forwarded (VObj [("data", VStr "plain text"); ("@timestamp", VStr (iso_string 0))]) /\
  (not_nullish (additionalObject (cli_options "logs-%{DATE}")) = true ->
   has_key (additionalObject (cli_options "logs-%{DATE}")) "data" = false ->
   has_key (additionalObject (cli_options "logs-%{DATE}")) "@timestamp" = false ->
   exists doc,
     @Cli.mapper sample_runtime (cli_options "logs-%{DATE}") 0 (qq "'plain text'")
     = forwarded doc /\
     get doc "data" = VStr "plain text" /\
     get doc "@timestamp" = VStr (iso_string 0)).
Proof.
  apply (@scalar_line_becomes_a_data_document sample_runtime);
    [vm_compute; reflexivity | reflexivity | reflexivity].
Defined.

(** A line that is a JSON array goes downstream too: [lib.js] hands on the
    array itself with [@timestamp] as a named property; the cli variant hands
    on an object that is no array and that owns, under every key that
    [additionalObject] lacks, what the array with [message] set to a dash and
    [@timestamp] owns, the elements under their indices; it is a plain object
    when [additionalObject] has no key [__proto__]. *)
Theorem array_line_becomes_a_document {rt : Runtime}
    (opts : options) (now : Z) (line : string) (items : list value) :
  JSON_parse line = Some (VArr items []) ->
  Lib.mapper opts now line
  = forwarded (VArr items [("@timestamp", VStr (iso_string now))]) /\
  (not_nullish (additionalObject opts) = true ->
   exists doc,
     Cli.mapper opts now line = forwarded doc /\
     isObject doc = true /\ Array_isArray doc = false /\
     (has_key (additionalObject opts) "__proto__" = false -> exists r, doc = VObj r) /\
     forall k, has_key (additionalObject opts) k = false ->
       lookup k (own_entries doc)
       = lookup k (indexed (fun x => x) 0 items ++
                   [("message", VStr "-"); ("@timestamp", VStr (iso_string now))])).
Proof.
  intros Hp. split.
  - unfold Lib.mapper. rewrite Hp. cbn [is_object_type typeof negb].
    destruct (get_array_named items [] "@timestamp" eq_refl) as [-> _].
    cbn [get own_entries lookup]. now rewrite setDateTimeString_array.
  - intros Hadd.
    rewrite (Cli_mapper_object opts now line _ Hp eq_refl), normalize_array. cbn [bind].
    set (pre := VArr items [("message", VStr "-"); ("@timestamp", VStr (iso_string now))]).
    assert (Hpre : has_key pre "__proto__" = false).
    { unfold pre.
      destruct (get_array_named items
                  [("message", VStr "-"); ("@timestamp", VStr (iso_string now))]
                  "__proto__" eq_refl) as [_ Hh].
      rewrite Hh. reflexivity. }
    destruct (mergeDeep_returns [pre; additionalObject opts]) as (r & Hm & _);
      [repeat constructor; assumption|].
    destruct (to_value_object r) as (Hobj & Harr & Hown).
    exists (to_value r). rewrite Hm. split; [reflexivity|].
    split; [exact Hobj|]. split; [exact Harr|]. split.
    + intros Hproto.
      destruct (mergeDeep_by_key pre _ "__proto__" eq_refl Hadd Hpre Hproto)
        as (r' & Hm' & _).
      rewrite Hm in Hm'. injection Hm' as ->. now exists r'.
    + intros k Hk.
      destruct (mergeDeep_keeps pre _ k eq_refl Hadd Hpre Hk) as (r' & Hm' & Hl).
      rewrite Hm in Hm'. injection Hm' as Hm'.
      destruct (to_value_object r') as (_ & _ & Hown').
      rewrite Hm', Hown'. exact Hl.
Qed.

Lemma array_line_becomes_a_document_witness :
  @Lib.mapper sample_runtime (cli_options "logs-%{DATE}") 0 "[7,8]"
  = forwarded (VArr [VNum 7; VNum 8] [("@timestamp", VStr (iso_string 0))]) /\
  (not_nullish (additionalObject (cli_options "logs-%{DATE}")) = true ->
   exists doc,
     @Cli.mapper sample_runtime (cli_options "logs-%{DATE}") 0 "[7,8]"
     = forwarded doc /\
     isObject doc = true /\ Array_isArray doc = false /\
     (has_key (additionalObject (cli_options "logs-%{DATE}")) "__proto__" = false ->
      exists r, doc = VObj r) /\
     forall k, has_key (additionalObject (cli_options "logs-%{DATE}")) k = false ->
       lookup k (own_entries doc)
       = lookup k (indexed (fun x => x) 0 [VNum 7; VNum 8] ++
                   [("message", VStr "-"); ("@timestamp", VStr (iso_string 0))])).
Proof.
  apply (@array_line_becomes_a_document sample_runtime). vm_compute. reflexivity.
Defined.

(** With a key [__proto__] in [additionalObject] the document of the cli
    variant has the object under that key as its prototype. *)
Lemma array_line_with_a_prototype :
  @Cli.mapper sample_runtime
    (with_additionalObject (cli_options "logs-%{DATE}")
       (VObj [("__proto__", VObj [("app", VStr "x")])])) 0 "[7]"
  = forwarded (VProto (VObj [("app", VStr "x")])
                 [("0", VNum 7); ("message", VStr "-");
                  ("@timestamp", VStr (iso_string 0))]).
Proof. vm_compute. reflexivity. Qed.

(** ** The flush thresholds *)

(** [opts.x || opts['x'] || default] over the options of the entry points,
    as a function of the environment. *)
Lemma threshold_of_env {host : Host} (env : environment) (name : string) (default : float) :
  number_truthy default = true ->
  js_or (js_or (env_int env name) VUndefined) (VNum default)
  = match lookup_env env name with
    | Some s => if negb (s =? "") && number_truthy (parseInt s)
                then VNum (parseInt s) else VNum default
    | None => VNum default
    end.
Proof.
  intros Hd. unfold env_int.
  destruct (lookup_env env name) as [s|]; [|reflexivity].
  destruct (s =? ""); [reflexivity|].
  unfold js_or. cbn [truthy negb andb].
  destruct (number_truthy (parseInt s)) eqn:Et; cbn [truthy]; now rewrite ?Et.
Qed.

(** The thresholds the bulk helper gets from either entry point, as a
    function of the environment: each is the number [parseInt] reads from its
    variable when the variable is set to a text that is not empty and that
    number is neither zero nor [NaN], and the default (1000 bytes, 30000 ms)
    in every other case, so when the variable is unset, empty, or reads as
    zero or [NaN]; either way the threshold is truthy. *)
Theorem flush_thresholds_fall_back {host : Host} (env : environment) :
  let fo := start_flush_options env in
  (truthy (bulk_flushBytes fo) = true /\
   (forall s, lookup_env env "LOG_ES_FLUSH_BYTES" = Some s -> s <> "" ->
              number_truthy (parseInt s) = true ->
              bulk_flushBytes fo = VNum (parseInt s)) /\
   (forall s, lookup_env env "LOG_ES_FLUSH_BYTES" = Some s ->
              s = "" \/ number_truthy (parseInt s) = false ->
              bulk_flushBytes fo = VNum 1000) /\
   (lookup_env env "LOG_ES_FLUSH_BYTES" = None -> bulk_flushBytes fo = VNum 1000)) /\
  (truthy (bulk_flushInterval fo) = true /\
   (forall s, lookup_env env "LOG_ES_FLUSH_INTERVAL" = Some s -> s <> "" ->
              number_truthy (parseInt s) = true ->
              bulk_flushInterval fo = VNum (parseInt s)) /\
   (forall s, lookup_env env "LOG_ES_FLUSH_INTERVAL" = Some s ->
              s = "" \/ number_truthy (parseInt s) = false ->
              bulk_flushInterval fo = VNum 30000) /\
   (lookup_env env "LOG_ES_FLUSH_INTERVAL" = None -> bulk_flushInterval fo = VNum 30000)).
Proof.
  cbv zeta. unfold bulk_flushBytes, bulk_flushInterval, start_flush_options.
  cbn [flushBytes flush_bytes flushInterval flush_interval].
  rewrite !threshold_of_env by reflexivity.
  split.
  - destruct (lookup_env env "LOG_ES_FLUSH_BYTES") as [s|].
    + split; [|split; [|split]].
      * destruct (negb (s =? "") && number_truthy (parseInt s)) eqn:E; [|reflexivity].
        apply andb_prop in E. exact (proj2 E).
      * intros s' [= <-] Hs Ht. apply String.eqb_neq in Hs. now rewrite Hs, Ht.
      * intros s' [= <-] [->|Ht]; [reflexivity|].
        rewrite Ht. now rewrite andb_false_r.
      * discriminate.
    + split; [reflexivity|]. split; [discriminate|]. split; [discriminate|reflexivity].
  - destruct (lookup_env env "LOG_ES_FLUSH_INTERVAL") as [s|].
    + split; [|split; [|split]].
      * destruct (negb (s =? "") && number_truthy (parseInt s)) eqn:E; [|reflexivity].
        apply andb_prop in E. exact (proj2 E).
      * intros s' [= <-] Hs Ht. apply String.eqb_neq in Hs. now rewrite Hs, Ht.
      * intros s' [= <-] [->|Ht]; [reflexivity|].
        rewrite Ht. now rewrite andb_false_r.
      * discriminate.
    + split; [reflexivity|]. split; [discriminate|]. split; [discriminate|reflexivity].
Qed.

(** On the sample host: a numeral is read, and zero and a text that is no
    numeral give the defaults. *)
Lemma flush_thresholds_of_sample_environments :
  bulk_flushBytes (@start_flush_options sample_host
                     [("LOG_ES_FLUSH_BYTES", "5000"); ("LOG_ES_FLUSH_INTERVAL", "0")])
  = VNum 5000 /\
  bulk_flushInterval (@start_flush_options sample_host
                        [("LOG_ES_FLUSH_BYTES", "5000"); ("LOG_ES_FLUSH_INTERVAL", "0")])
  = VNum 30000 /\
  bulk_flushBytes (@start_flush_options sample_host [("LOG_ES_FLUSH_BYTES", "many")])
  = VNum 1000.
Proof. repeat split; vm_compute; reflexivity. Qed.
